(** * Storage folding (Halide, src/StorageFolding.cpp)

    A shallow embedding of the storage-folding pass and of the small part
    of the intermediate representation it works on, followed by the
    properties of the pass.

    Conventions of the embedding.
    - An [Expr] or [Stmt] handle that may be undefined is an [option].
    - A mutator returns [None] when it hands back the very node it was
      given (what the source tests with [same_as]) and [Some n] when it
      built a new node [n], also when [n] happens to be structurally equal
      to the old one.
    - Failing [internal_assert]s, failing [user_assert]s and operations the
      language leaves undefined (a vector indexed out of range) are
      abnormal outcomes of [Outcome]; [OutOfFuel] belongs to the embedding
      only and is shown never to arise.
    - The analyses the pass calls but does not implement (simplifier,
      bounds inference, monotonicity, substitution, ...) are variables of
      the sections below: every theorem holds for all of them. *)

From Stdlib Require Import ZArith Lia DecimalString Sorted.

From stdpp Require Import base option list strings gmap.

#[local] Set Warnings "-register-all".

(** ** The intermediate representation *)

Inductive Type_ : Type :=
| Int (bits : N)
| UInt (bits : N)
| Float (bits : N)
| Handle.

Definition is_handle (t : Type_) : bool :=
  match t with Handle => true | _ => false end.

Inductive CallType : Type :=
| Image | Extern | ExternCPlusPlus | PureExtern | Halide | Intrinsic | PureIntrinsic.

Definition is_Halide (ct : CallType) : bool :=
  match ct with Halide => true | _ => false end.

Inductive ForType : Type := Serial | Parallel | Vectorized | Unrolled.

Inductive DeviceAPI : Type := DeviceNone | DeviceHost | DeviceDefaultGPU.

(** The node set is the part of IR.h the pass can meet before storage
    flattening.  Integer immediates are those of type [Int(32)]; of a
    [Call] the fields the pass reads or sets are kept ([func],
    [value_index], [image] and [param], which it copies, are left out).
    The binary expression nodes share one constructor, tagged by the
    operator; [Add a b], [Mod a b], ... below are the source's names.
    [Variable] and [Let] are keywords here, hence the underscores. *)
Inductive BinOp : Type :=
| OpAdd | OpSub | OpMul | OpDiv | OpMod | OpMin | OpMax
| OpEQ | OpNE | OpLT | OpLE | OpGT | OpGE | OpAnd | OpOr.

Inductive Expr : Type :=
| IntImm (value : Z)
| StringImm (value : string)
| Variable_ (type : Type_) (name : string)
| Binary (op : BinOp) (a b : Expr)
| Not (a : Expr)
| Select (condition true_value false_value : Expr)
| Call (type : Type_) (name : string) (args : list Expr) (call_type : CallType)
| Let_ (name : string) (value body : Expr).

Abbreviation Add := (Binary OpAdd).
Abbreviation Sub := (Binary OpSub).
Abbreviation Mul := (Binary OpMul).
Abbreviation Div := (Binary OpDiv).
Abbreviation Mod := (Binary OpMod).
Abbreviation Min := (Binary OpMin).
Abbreviation Max := (Binary OpMax).
Abbreviation EQ := (Binary OpEQ).
Abbreviation NE := (Binary OpNE).
Abbreviation LT := (Binary OpLT).
Abbreviation LE := (Binary OpLE).
Abbreviation GT := (Binary OpGT).
Abbreviation GE := (Binary OpGE).
Abbreviation And := (Binary OpAnd).
Abbreviation Or := (Binary OpOr).

(** [Range(min, extent)] *)
Definition Range : Type := (Expr * Expr)%type.

Inductive Stmt : Type :=
| LetStmt (name : string) (value : Expr) (body : Stmt)
| AssertStmt (condition message : Expr)
| ProducerConsumer (name : string) (is_producer : bool) (body : Stmt)
| For (name : string) (min extent : Expr) (for_type : ForType)
      (device_api : DeviceAPI) (body : Stmt)
| Acquire (semaphore count : Expr) (body : Stmt)
| Provide (name : string) (values args : list Expr)
| Realize (name : string) (types : list Type_) (bounds : list Range)
          (condition : Expr) (body : Stmt)
| Block (first rest : Stmt)
| IfThenElse (condition : Expr) (then_case : Stmt) (else_case : option Stmt)
| Evaluate (value : Expr).

(** Induction over expressions that also reaches the arguments of calls. *)
Section ExprInd.
Variable P : Expr → Prop.
Hypothesis HInt : ∀ v, P (IntImm v).
Hypothesis HStr : ∀ v, P (StringImm v).
Hypothesis HVar : ∀ t n, P (Variable_ t n).
Hypothesis HBin : ∀ op a b, P a → P b → P (Binary op a b).
Hypothesis HNot : ∀ a, P a → P (Not a).
Hypothesis HSel : ∀ c t f, P c → P t → P f → P (Select c t f).
Hypothesis HCall : ∀ t n args ct, Forall P args → P (Call t n args ct).
Hypothesis HLet : ∀ n v b, P v → P b → P (Let_ n v b).

Fixpoint Expr_ind' (e : Expr) : P e :=
    match e with
    | IntImm v => HInt v
    | StringImm v => HStr v
    | Variable_ t n => HVar t n
    | Binary op a b => HBin op a b (Expr_ind' a) (Expr_ind' b)
    | Not a => HNot a (Expr_ind' a)
    | Select c t f => HSel c t f (Expr_ind' c) (Expr_ind' t) (Expr_ind' f)
    | Call t n args ct =>
        HCall t n args ct
          ((fix go (l : list Expr) : Forall P l :=
              match l with
              | [] => Forall_nil_2 P
              | a :: l' => Forall_cons_2 P a l' (Expr_ind' a) (go l')
              end) args)
    | Let_ n v b => HLet n v b (Expr_ind' v) (Expr_ind' b)
    end.
End ExprInd.

(** Induction over statements that also reaches the optional else case. *)
Section StmtInd.
Variable P : Stmt → Prop.
Hypothesis HLetStmt : ∀ n v b, P b → P (LetStmt n v b).
Hypothesis HAssert : ∀ c m, P (AssertStmt c m).
Hypothesis HPC : ∀ n p b, P b → P (ProducerConsumer n p b).
Hypothesis HFor : ∀ n mn ex ft da b, P b → P (For n mn ex ft da b).
Hypothesis HAcquire : ∀ sem cnt b, P b → P (Acquire sem cnt b).
Hypothesis HProvide : ∀ n values args, P (Provide n values args).
Hypothesis HRealize : ∀ n tys bounds c b, P b → P (Realize n tys bounds c b).
Hypothesis HBlock : ∀ a b, P a → P b → P (Block a b).
Hypothesis HIf : ∀ c t e, P t → match e with Some e0 => P e0 | None => True end →
  P (IfThenElse c t e).
Hypothesis HEvaluate : ∀ v, P (Evaluate v).

Fixpoint Stmt_ind' (s : Stmt) : P s :=
  match s with
  | LetStmt n v b => HLetStmt n v b (Stmt_ind' b)
  | AssertStmt c m => HAssert c m
  | ProducerConsumer n p b => HPC n p b (Stmt_ind' b)
  | For n mn ex ft da b => HFor n mn ex ft da b (Stmt_ind' b)
  | Acquire sem cnt b => HAcquire sem cnt b (Stmt_ind' b)
  | Provide n values args => HProvide n values args
  | Realize n tys bounds c b => HRealize n tys bounds c b (Stmt_ind' b)
  | Block a b => HBlock a b (Stmt_ind' a) (Stmt_ind' b)
  | IfThenElse c t e =>
      HIf c t e (Stmt_ind' t)
        match e return match e with Some e0 => P e0 | None => True end with
        | Some e0 => Stmt_ind' e0
        | None => I
        end
  | Evaluate v => HEvaluate v
  end.
End StmtInd.

(** ** Outcomes *)

Inductive Outcome (A : Type) : Type :=
| Ok (a : A)
| InternalError (what : string)
| UserError (what : string)
| Undefined (what : string)
| OutOfFuel.
Arguments Ok {A} a.
Arguments InternalError {A} what.
Arguments UserError {A} what.
Arguments Undefined {A} what.
Arguments OutOfFuel {A}.

Definition obind {A B} (m : Outcome A) (f : A → Outcome B) : Outcome B :=
  match m with
  | Ok a => f a
  | InternalError w => InternalError w
  | UserError w => UserError w
  | Undefined w => Undefined w
  | OutOfFuel => OutOfFuel
  end.

Declare Scope outcome_scope.
Delimit Scope outcome_scope with out.
Notation "'let*' x := m 'in' k" := (obind m (fun x => k))
  (at level 10, x name, m at level 100, k at level 200) : outcome_scope.
Notation "'let*' ' p := m 'in' k" := (obind m (fun x => match x with p => k end))
  (at level 10, p pattern, m at level 100, k at level 200) : outcome_scope.
Local Open Scope outcome_scope.

(** ** Sharing-preserving rebuilds

    [None] stands for "the node that was passed in". *)

Definition pick {A} (old : A) (r : option A) : A := default old r.

Definition changed {A} (r : option A) : bool :=
  match r with Some _ => true | None => false end.

Definition rebuild {A} (chg : bool) (new : A) : option A :=
  if chg then Some new else None.

Definition merge {A} (old : list A) (r : list (option A)) : list A :=
  zip_with pick old r.

Definition any_changed {A} (r : list (option A)) : bool := existsb changed r.

(** ** IRMutator on expressions

    The base class visits every child and rebuilds a node only if a child
    changed.  The two visits the mutators of this file override are
    parameters: [visit_Variable] replaces the base visit of a variable;
    [visit_Call] runs on the call node the base visit produced and may
    replace it. *)
Section IRMutator.
Variable visit_Variable : Type_ → string → option Expr.
Variable visit_Call : Type_ → string → list Expr → CallType → Outcome (option Expr).

Fixpoint mutate_expr (e : Expr) : Outcome (option Expr) :=
    match e with
    | IntImm _ | StringImm _ => Ok None
    | Variable_ t n => Ok (visit_Variable t n)
    | Binary op a b =>
        let* a' := mutate_expr a in
        let* b' := mutate_expr b in
        Ok (rebuild (changed a' || changed b') (Binary op (pick a a') (pick b b')))
    | Not a =>
        let* a' := mutate_expr a in
        Ok (rebuild (changed a') (Not (pick a a')))
    | Select c t f =>
        let* c' := mutate_expr c in
        let* t' := mutate_expr t in
        let* f' := mutate_expr f in
        Ok (rebuild (changed c' || changed t' || changed f')
              (Select (pick c c') (pick t t') (pick f f')))
    | Call t n args ct =>
        let* args' :=
          (fix go (l : list Expr) : Outcome (list (option Expr)) :=
             match l with
             | [] => Ok []
             | a :: l' =>
                 let* a' := mutate_expr a in
                 let* r := go l' in
                 Ok (a' :: r)
             end) args in
        let new_args := merge args args' in
        let* over := visit_Call t n new_args ct in
        match over with
        | Some e' => Ok (Some e')
        | None => Ok (rebuild (any_changed args') (Call t n new_args ct))
        end
    | Let_ n v b =>
        let* v' := mutate_expr v in
        let* b' := mutate_expr b in
        Ok (rebuild (changed v' || changed b') (Let_ n (pick v v') (pick b b')))
    end.

Fixpoint mutate_exprs (l : list Expr) : Outcome (list (option Expr)) :=
    match l with
    | [] => Ok []
    | a :: l' =>
        let* a' := mutate_expr a in
        let* r := mutate_exprs l' in
        Ok (a' :: r)
    end.

Fixpoint mutate_region (l : list Range) : Outcome (list (option Range)) :=
    match l with
    | [] => Ok []
    | (mn, ex) :: l' =>
        let* mn' := mutate_expr mn in
        let* ex' := mutate_expr ex in
        let* r := mutate_region l' in
        Ok (rebuild (changed mn' || changed ex') (pick mn mn', pick ex ex') :: r)
    end.

(** The base class on statements.  [visit_Provide] runs on the fields of
    the [Provide] node the base visit produced and may replace that node. *)
Variable visit_Provide : string → list Expr → list Expr → Outcome (option Stmt).

Fixpoint mutate_stmt (s : Stmt) : Outcome (option Stmt) :=
  match s with
  | LetStmt n v b =>
      let* v' := mutate_expr v in
      let* b' := mutate_stmt b in
      Ok (rebuild (changed v' || changed b') (LetStmt n (pick v v') (pick b b')))
  | AssertStmt c m =>
      let* c' := mutate_expr c in
      let* m' := mutate_expr m in
      Ok (rebuild (changed c' || changed m') (AssertStmt (pick c c') (pick m m')))
  | ProducerConsumer n p b =>
      let* b' := mutate_stmt b in
      Ok (rebuild (changed b') (ProducerConsumer n p (pick b b')))
  | For n mn ex ft da b =>
      let* mn' := mutate_expr mn in
      let* ex' := mutate_expr ex in
      let* b' := mutate_stmt b in
      Ok (rebuild (changed mn' || changed ex' || changed b')
            (For n (pick mn mn') (pick ex ex') ft da (pick b b')))
  | Acquire sem cnt b =>
      let* sem' := mutate_expr sem in
      let* cnt' := mutate_expr cnt in
      let* b' := mutate_stmt b in
      Ok (rebuild (changed sem' || changed cnt' || changed b')
            (Acquire (pick sem sem') (pick cnt cnt') (pick b b')))
  | Provide n values args =>
      let* args' := mutate_exprs args in
      let* values' := mutate_exprs values in
      let new_args := merge args args' in
      let new_values := merge values values' in
      let* over := visit_Provide n new_values new_args in
      match over with
      | Some s' => Ok (Some s')
      | None => Ok (rebuild (any_changed args' || any_changed values')
                      (Provide n new_values new_args))
      end
  | Realize n tys bounds c b =>
      let* bounds' := mutate_region bounds in
      let* b' := mutate_stmt b in
      let* c' := mutate_expr c in
      Ok (rebuild (any_changed bounds' || changed b' || changed c')
            (Realize n tys (merge bounds bounds') (pick c c') (pick b b')))
  | Block a b =>
      let* a' := mutate_stmt a in
      let* b' := mutate_stmt b in
      Ok (rebuild (changed a' || changed b') (Block (pick a a') (pick b b')))
  | IfThenElse c t e =>
      let* c' := mutate_expr c in
      let* t' := mutate_stmt t in
      let* e' := match e with
                 | Some e0 => mutate_stmt e0
                 | None => Ok None
                 end in
      Ok (rebuild (changed c' || changed t' || changed e')
            (IfThenElse (pick c c') (pick t t') (option_map (fun e0 => pick e0 e') e)))
  | Evaluate v =>
      let* v' := mutate_expr v in
      Ok (rebuild (changed v') (Evaluate (pick v v')))
  end.
End IRMutator.

(** ** FoldStorageOfFunction: the index rewriter *)

(** Modelled from the spec: [is_one] of IROperator, which is not part of
    the excerpt; on the nodes of this embedding "the factor is the constant
    one" is the integer immediate 1. *)
Definition is_one (e : Expr) : bool :=
  match e with
  | IntImm 1 => true
  | _ => false
  end.

(** [dim] is an [int] in the source; the planner passes [(int)i - 1] for an
    [i] that is positive, so it is a natural number here. *)
Section FoldStorageOfFunction.
Variable func : string.
Variable dim : nat.
Variable factor : Expr.

(** [is_one(factor) ? 0 : (args[dim] % factor)] *)
Definition fold_index (a : Expr) : Expr :=
  if is_one factor then IntImm 0 else Mod a factor.

Definition FoldStorage_visit_Call (t : Type_) (n : string) (args : list Expr)
    (ct : CallType) : Outcome (option Expr) :=
  if String.eqb n func && is_Halide ct then
    match args !! dim with
    | Some a => Ok (Some (Call t n (<[dim := fold_index a]> args) ct))
    | None => InternalError "dim < (int)args.size()"
    end
  else Ok None.

(** The source indexes [args[dim]] of a [Provide] without a check; out of
    range that is undefined. *)
Definition FoldStorage_visit_Provide (n : string) (values args : list Expr)
    : Outcome (option Stmt) :=
  if String.eqb n func then
    match args !! dim with
    | Some a => Ok (Some (Provide n values (<[dim := fold_index a]> args)))
    | None => Undefined "args[dim]"
    end
  else Ok None.

Definition FoldStorage_expr : Expr → Outcome (option Expr) :=
  mutate_expr (fun _ _ => None) FoldStorage_visit_Call.

Definition FoldStorageOfFunction : Stmt → Outcome (option Stmt) :=
  mutate_stmt (fun _ _ => None) FoldStorage_visit_Call FoldStorage_visit_Provide.

(** *** The rewriter as the specification words it

    Every read (a call of type [Halide]) and every write ([Provide]) of
    [func] gets its index at position [dim] replaced; nothing else is
    touched. *)

Definition is_read (n : string) (ct : CallType) : bool :=
  String.eqb n func && is_Halide ct.

(** "[0] (if factor is the trivial identity) or [original mod factor]
    otherwise" *)
Definition folded_index (a : Expr) : Expr :=
  match factor with
  | IntImm 1 => IntImm 0
  | _ => Mod a factor
  end.

Fixpoint rewrite_expr (e : Expr) : Expr :=
  match e with
  | IntImm _ | StringImm _ | Variable_ _ _ => e
  | Binary op a b => Binary op (rewrite_expr a) (rewrite_expr b)
  | Not a => Not (rewrite_expr a)
  | Select c t f => Select (rewrite_expr c) (rewrite_expr t) (rewrite_expr f)
  | Call t n args ct =>
      let args' := map rewrite_expr args in
      Call t n (if is_read n ct then alter folded_index dim args' else args') ct
  | Let_ n v b => Let_ n (rewrite_expr v) (rewrite_expr b)
  end.

(** Does the expression contain a read of [func]? *)
Fixpoint reads (e : Expr) : bool :=
  match e with
  | IntImm _ | StringImm _ | Variable_ _ _ => false
  | Binary _ a b => reads a || reads b
  | Not a => reads a
  | Select c t f => reads c || reads t || reads f
  | Call _ n args ct => is_read n ct || existsb reads args
  | Let_ _ v b => reads v || reads b
  end.

(** Has every read of [func] an index at position [dim]? *)
Fixpoint indexed (e : Expr) : bool :=
  match e with
  | IntImm _ | StringImm _ | Variable_ _ _ => true
  | Binary _ a b => indexed a && indexed b
  | Not a => indexed a
  | Select c t f => indexed c && indexed t && indexed f
  | Call _ n args ct =>
      forallb indexed args && (negb (is_read n ct) || bool_decide (dim < length args))
  | Let_ _ v b => indexed v && indexed b
  end.

Definition rewrite_range (r : Range) : Range := (rewrite_expr r.1, rewrite_expr r.2).
Definition reads_range (r : Range) : bool := reads r.1 || reads r.2.
Definition indexed_range (r : Range) : bool := indexed r.1 && indexed r.2.

Fixpoint rewrite_stmt (s : Stmt) : Stmt :=
  match s with
  | LetStmt n v b => LetStmt n (rewrite_expr v) (rewrite_stmt b)
  | AssertStmt c m => AssertStmt (rewrite_expr c) (rewrite_expr m)
  | ProducerConsumer n p b => ProducerConsumer n p (rewrite_stmt b)
  | For n mn ex ft da b => For n (rewrite_expr mn) (rewrite_expr ex) ft da (rewrite_stmt b)
  | Acquire sem cnt b => Acquire (rewrite_expr sem) (rewrite_expr cnt) (rewrite_stmt b)
  | Provide n values args =>
      let args' := map rewrite_expr args in
      Provide n (map rewrite_expr values)
        (if String.eqb n func then alter folded_index dim args' else args')
  | Realize n tys bounds c b =>
      Realize n tys (map rewrite_range bounds) (rewrite_expr c) (rewrite_stmt b)
  | Block a b => Block (rewrite_stmt a) (rewrite_stmt b)
  | IfThenElse c t e => IfThenElse (rewrite_expr c) (rewrite_stmt t) (option_map rewrite_stmt e)
  | Evaluate v => Evaluate (rewrite_expr v)
  end.

(** Does the statement contain a read or a write of [func]? *)
Fixpoint accesses (s : Stmt) : bool :=
  match s with
  | LetStmt _ v b => reads v || accesses b
  | AssertStmt c m => reads c || reads m
  | ProducerConsumer _ _ b => accesses b
  | For _ mn ex _ _ b => reads mn || reads ex || accesses b
  | Acquire sem cnt b => reads sem || reads cnt || accesses b
  | Provide n values args => String.eqb n func || existsb reads args || existsb reads values
  | Realize _ _ bounds c b => existsb reads_range bounds || accesses b || reads c
  | Block a b => accesses a || accesses b
  | IfThenElse c t e =>
      reads c || accesses t || match e with Some e0 => accesses e0 | None => false end
  | Evaluate v => reads v
  end.

(** Has every read and write of [func] an index at position [dim]? *)
Fixpoint well_indexed (s : Stmt) : bool :=
  match s with
  | LetStmt _ v b => indexed v && well_indexed b
  | AssertStmt c m => indexed c && indexed m
  | ProducerConsumer _ _ b => well_indexed b
  | For _ mn ex _ _ b => indexed mn && indexed ex && well_indexed b
  | Acquire sem cnt b => indexed sem && indexed cnt && well_indexed b
  | Provide n values args =>
      forallb indexed args && forallb indexed values
      && (negb (String.eqb n func) || bool_decide (dim < length args))
  | Realize _ _ bounds c b => forallb indexed_range bounds && well_indexed b && indexed c
  | Block a b => well_indexed a && well_indexed b
  | IfThenElse c t e =>
      indexed c && well_indexed t && match e with Some e0 => well_indexed e0 | None => true end
  | Evaluate v => indexed v
  end.
End FoldStorageOfFunction.

(** ** Schedule metadata *)

Record StorageDim : Type := {
  var : string;
  fold_factor : option Expr;
  fold_forward : bool
}.

Record FuncSchedule : Type := {
  storage_dims : list StorageDim;
  async : bool
}.

Record Function : Type := {
  fn_name : string;
  schedule : FuncSchedule
}.

(** [Function()], the value used for a realization the environment does
    not know: no name, nothing scheduled. *)
Definition default_Function : Function :=
  {| fn_name := ""; schedule := {| storage_dims := []; async := false |} |}.

(** ** The analyses the pass relies on

    None of them is implemented in StorageFolding.cpp; the pass only calls
    them.  They are the fields of a class, so that every definition and
    theorem below is stated for arbitrary analyses. *)

Inductive Monotonic : Type := Constant | Increasing | Decreasing | Unknown.

Definition is_Increasing (m : Monotonic) : bool :=
  match m with Increasing => true | _ => false end.
Definition is_Decreasing (m : Monotonic) : bool :=
  match m with Decreasing => true | _ => false end.

Record Interval : Type := { imin : Expr; imax : Expr }.

Definition Box : Type := list Interval.

Class Analyses : Type := {
  simplify : Expr → Expr;
  box_provided : Stmt → string → Box;
  box_required : Stmt → string → Box;
  box_union : Box → Box → Box;
  box_contains : Box → Box → bool;
  is_monotonic : Expr → string → Monotonic;
  expr_uses_var : Expr → string → bool;
  substitute : string → Expr → Expr → Expr;
  (** [find_constant_bound(e, Direction::Upper, scope)] for a scope that
      binds one name to an interval; [None] is the undefined result. *)
  find_constant_bound : Expr → string * Interval → option Expr;
  can_prove : Expr → bool
}.

(** Modelled from the spec: [is_const] of IROperator, not part of the
    excerpt; on the nodes of this embedding the constants are the
    immediates. *)
Definition is_const (e : Expr) : bool :=
  match e with
  | IntImm _ | StringImm _ => true
  | _ => false
  end.

(** Modelled from the spec: [as_const_int] of IROperator, applied to a
    possibly undefined expression. *)
Definition as_const_int (e : option Expr) : option Z :=
  match e with
  | Some (IntImm v) => Some v
  | _ => None
  end.

(** Modelled from the spec: [unique_name(char)] of Util, which draws from a
    counter global to the process (section 9 of the specification: "name
    generation from global mutable counters").  The counter is threaded
    through the pass as state. *)
Definition string_of_nat (n : nat) : string :=
  NilEmpty.string_of_uint (Nat.to_uint n).

Definition unique_name (prefix : string) (counter : nat) : string * nat :=
  (prefix +:+ string_of_nat counter, S counter).

(** ** next_power_of_two

    [1 << (int64_t) ceil(log2(x))].  For [x >= 1] the logarithm, rounded
    up, is [Z.log2_up x]; the double-precision computation is exact on the
    arguments the pass passes (at most 1024).  For [x <= 0] the logarithm
    is minus infinity or not a number and its conversion to an integer is
    undefined. *)
Definition next_power_of_two (x : Z) : Outcome Z :=
  if (1 <=? x)%Z then Ok (Z.shiftl 1 (Z.log2_up x))
  else Undefined "ceil(log2(x)) of a non-positive x converted to int64_t".

(** ** CountProducers *)

Fixpoint count_producers (s : Stmt) (name : string) : nat :=
  match s with
  | ProducerConsumer n p b =>
      if p && String.eqb n name then 1 else count_producers b name
  | LetStmt _ _ b | For _ _ _ _ _ b | Acquire _ _ b | Realize _ _ _ _ b =>
      count_producers b name
  | Block a b => count_producers a name + count_producers b name
  | IfThenElse _ t e =>
      count_producers t name
      + match e with Some e0 => count_producers e0 name | None => 0 end
  | AssertStmt _ _ | Provide _ _ _ | Evaluate _ => 0
  end.

(** ** IsBufferSpecial

    The visitor reaches every variable of the statement it is applied to;
    the flag is raised by a handle-typed variable named [func + ".buffer"]. *)
Section IsBufferSpecial.
Variable func : string.

Fixpoint special_expr (e : Expr) : bool :=
  match e with
  | IntImm _ | StringImm _ => false
  | Variable_ t n => is_handle t && String.eqb n (func +:+ ".buffer")
  | Binary _ a b => special_expr a || special_expr b
  | Not a => special_expr a
  | Select c t f => special_expr c || special_expr t || special_expr f
  | Call _ _ args _ => existsb special_expr args
  | Let_ _ v b => special_expr v || special_expr b
  end.

Fixpoint IsBufferSpecial (s : Stmt) : bool :=
  match s with
  | LetStmt _ v b => special_expr v || IsBufferSpecial b
  | AssertStmt c m => special_expr c || special_expr m
  | ProducerConsumer _ _ b => IsBufferSpecial b
  | For _ mn ex _ _ b => special_expr mn || special_expr ex || IsBufferSpecial b
  | Acquire sem cnt b => special_expr sem || special_expr cnt || IsBufferSpecial b
  | Provide _ values args => existsb special_expr values || existsb special_expr args
  | Realize _ _ bounds c b =>
      existsb (fun r : Range => special_expr r.1 || special_expr r.2) bounds
      || special_expr c || IsBufferSpecial b
  | Block a b => IsBufferSpecial a || IsBufferSpecial b
  | IfThenElse c t e =>
      special_expr c || IsBufferSpecial t
      || match e with Some e0 => IsBufferSpecial e0 | None => false end
  | Evaluate v => special_expr v
  end.
End IsBufferSpecial.

(** ** SubstituteInConstants *)

(** [Scope<Expr>]: a stack of values per name. *)
Definition scope_push (name : string) (value : Expr) (scope : gmap string (list Expr))
    : gmap string (list Expr) :=
  <[name := value :: default [] (scope !! name)]> scope.

Definition scope_contains (name : string) (scope : gmap string (list Expr)) : bool :=
  bool_decide (is_Some (scope !! name)).

Definition scope_get (name : string) (scope : gmap string (list Expr)) : option Expr :=
  match scope !! name with
  | Some (v :: _) => Some v
  | _ => None
  end.

Section SubstituteInConstants.
Context `{Analyses}.

(** The visit of a variable: the value on top of the name's stack, or the
    node itself. *)
Definition Substitute_visit_Variable (scope : gmap string (list Expr))
    (t : Type_) (n : string) : option Expr :=
  if scope_contains n scope then scope_get n scope else None.

Definition Substitute_expr (scope : gmap string (list Expr)) (e : Expr) : Expr :=
  match mutate_expr (Substitute_visit_Variable scope) (fun _ _ _ _ => Ok None) e with
  | Ok r => pick e r
  | _ => e
  end.

(** The source pushes the binding before it visits the body of a [LetStmt]
    with a constant value and pops it afterwards, and no visit leaves the
    scope changed: each visit below takes the scope in force, and the pop
    is the caller going on with its own scope.  The result is the tree the
    mutator returns; whether a node of it is the old node or an equal new
    one is not recorded, as nothing compares the result with the tree
    before this prepass. *)
Fixpoint SubstituteInConstants (scope : gmap string (list Expr)) (s : Stmt) : Stmt :=
  match s with
  | LetStmt n v b =>
      let value := simplify (Substitute_expr scope v) in
      let body :=
        if is_const value
        then SubstituteInConstants (scope_push n value scope) b
        else SubstituteInConstants scope b in
      LetStmt n value body
  | AssertStmt c m => AssertStmt (Substitute_expr scope c) (Substitute_expr scope m)
  | ProducerConsumer n p b => ProducerConsumer n p (SubstituteInConstants scope b)
  | For n mn ex ft da b =>
      For n (Substitute_expr scope mn) (Substitute_expr scope ex) ft da
        (SubstituteInConstants scope b)
  | Acquire sem cnt b =>
      Acquire (Substitute_expr scope sem) (Substitute_expr scope cnt)
        (SubstituteInConstants scope b)
  | Provide n values args =>
      Provide n (map (Substitute_expr scope) values) (map (Substitute_expr scope) args)
  | Realize n tys bounds c b =>
      Realize n tys
        (map (fun r : Range => (Substitute_expr scope r.1, Substitute_expr scope r.2)) bounds)
        (Substitute_expr scope c) (SubstituteInConstants scope b)
  | Block a b => Block (SubstituteInConstants scope a) (SubstituteInConstants scope b)
  | IfThenElse c t e =>
      IfThenElse (Substitute_expr scope c) (SubstituteInConstants scope t)
        (option_map (SubstituteInConstants scope) e)
  | Evaluate v => Evaluate (Substitute_expr scope v)
  end.
End SubstituteInConstants.

(** ** AttemptStorageFoldingOfFunction: the loop fold planner *)

Record Semaphore : Type := {
  sema_name : string;
  sema_var : Expr;
  sema_init : Expr
}.

(** [semaphore] is [None] while the record's [Semaphore] is the default
    one, whose [var] is undefined. *)
Record Fold : Type := {
  dim : nat;
  factor : Expr;
  semaphore : option Semaphore
}.

(** The mutable state of a planner: its [dims_folded] and the counter
    behind [unique_name]. *)
Record PlannerState : Type := {
  dims_folded : list Fold;
  name_counter : nat
}.

(** The state [st] with the counter behind [unique_name] at [c]. *)
Definition with_counter (c : nat) (st : PlannerState) : PlannerState :=
  {| dims_folded := dims_folded st; name_counter := c |}.

Definition push_back_fold (f : Fold) (st : PlannerState) : PlannerState :=
  {| dims_folded := dims_folded st ++ [f]; name_counter := name_counter st |}.

(** [dims_folded.back().semaphore = sema] *)
Definition set_back_semaphore (sema : Semaphore) (st : PlannerState) : PlannerState :=
  {| dims_folded :=
       alter (fun f => {| dim := dim f; factor := factor f; semaphore := Some sema |})
         (length (dims_folded st) - 1) (dims_folded st);
     name_counter := name_counter st |}.

(** The simplified bounds of one dimension. *)
Record DimBounds : Type := {
  b_min : Expr;
  b_max : Expr;
  min_provided : Expr;
  max_provided : Expr;
  min_required : Expr;
  max_required : Expr
}.

(** What one round of the loop over the dimensions ends with: the next
    round ([body] and whether it is still the loop's own body), or the
    [return] out of the visit with the statement it set. *)
Inductive DimResult : Type :=
| Continue (body : Stmt) (chg : bool)
| Return (stmt : option Stmt).

Definition loop_var (name : string) : Expr := Variable_ (Int 32) name.
Definition loop_min (name : string) : Expr := Variable_ (Int 32) (name +:+ ".loop_min").
Definition loop_max (name : string) : Expr := Variable_ (Int 32) (name +:+ ".loop_max").

(** [likely(e)] of IROperator. *)
Definition likely (e : Expr) : Expr := Call (Int 32) "likely" [e] PureIntrinsic.

Definition max_fold : Z := 1024.

Section AttemptStorageFoldingOfFunction.
Context `{Analyses}.
Variable func : Function.
Variable explicit_only : bool.

(** Lines 135-141.  [box], [provided] and [required] are indexed without a
    check. *)
Definition dim_bounds (box provided required : Box) (d : nat) : Outcome DimBounds :=
  match box !! d, provided !! d, required !! d with
  | Some b, Some p, Some r =>
      Ok {| b_min := simplify (imin b); b_max := simplify (imax b);
            min_provided := simplify (imin p); max_provided := simplify (imax p);
            min_required := simplify (imin r); max_required := simplify (imax r) |}
  | _, _, _ => Undefined "box[i-1]"
  end.

(** Line 143. *)
Definition storage_dim (d : nat) : Outcome StorageDim :=
  match storage_dims (schedule func) !! d with
  | Some sd => Ok sd
  | None => Undefined "storage_dims()[i-1]"
  end.

(** Lines 144-151: the explicit factor counts only at a loop the bounds
    depend on. *)
Definition explicit_factor_of (sd : StorageDim) (b : DimBounds) (name : string)
    : option Expr :=
  if expr_uses_var (b_min b) name || expr_uses_var (b_max b) name
  then fold_factor sd else None.

(** Lines 159-174: the directions proved by the monotonicity analysis. *)
Definition proved_directions (b : DimBounds) (name : string) : bool * bool :=
  if negb explicit_only then
    let fwd := is_Increasing (is_monotonic (b_min b) name) in
    let bwd := is_Decreasing (is_monotonic (b_max b) name) in
    if async (schedule func) then
      (fwd && is_Increasing (is_monotonic (max_provided b) name),
       bwd && is_Decreasing (is_monotonic (min_provided b) name))
    else (fwd, bwd)
  else (false, false).

(** Lines 181-207: the runtime assertion of the declared direction. *)
Definition bad_fold_condition (sd : StorageDim) (b : DimBounds) (name : string) : Expr :=
  let next := Add (loop_var name) (IntImm 1) in
  if fold_forward sd then
    let condition := GE (substitute name next (b_min b)) (b_min b) in
    if async (schedule func)
    then And condition (GE (substitute name next (max_provided b)) (max_provided b))
    else condition
  else
    let condition := LE (substitute name next (b_max b)) (b_max b) in
    if async (schedule func)
    then And condition (LE (substitute name next (min_provided b)) (min_provided b))
    else condition.

Definition bad_fold_assert (sd : StorageDim) (b : DimBounds) (name : string) : Stmt :=
  AssertStmt (bad_fold_condition sd b name)
    (Call (Int 32) "halide_error_bad_fold"
       [StringImm (fn_name func); StringImm (var sd); StringImm name] Extern).

(** Line 213: the extent of the dimension. *)
Definition extent_of (b : DimBounds) : Expr :=
  simplify (Add (Sub (b_max b) (b_min b)) (IntImm 1)).

(** Lines 216-219. *)
Definition factor_too_small_assert (sd : StorageDim) (explicit_factor extent : Expr)
    (name : string) : Stmt :=
  AssertStmt (LE extent explicit_factor)
    (Call (Int 32) "halide_error_fold_factor_too_small"
       [StringImm (fn_name func); StringImm (var sd); explicit_factor;
        StringImm name; extent] Extern).

(** Lines 222-237: the factor derived when the schedule declares none.
    The conversion of the power of two to [int] does not change a value
    that is at most 1024. *)
Definition automatic_factor (extent : Expr) (name : string) : Outcome (option Expr) :=
  let max_extent :=
    find_constant_bound extent (name, {| imin := loop_min name; imax := loop_max name |}) in
  match as_const_int max_extent with
  | Some c =>
      if (c <=? max_fold)%Z
      then let* p := next_power_of_two c in Ok (Some (IntImm p))
      else Ok None
  | None => Ok None
  end.

(** Lines 253-265. *)
Definition semaphore_amounts (can_fold_forwards can_fold_backwards : bool)
    (b : DimBounds) (name : string) : Outcome (Expr * Expr) :=
  let prev := Sub (loop_var name) (IntImm 1) in
  let next := Add (loop_var name) (IntImm 1) in
  if can_fold_forwards then
    Ok (Sub (max_provided b) (substitute name prev (max_provided b)),
        Sub (substitute name next (min_required b)) (min_required b))
  else if can_fold_backwards then
    Ok (Sub (substitute name prev (min_provided b)) (min_provided b),
        Sub (max_required b) (substitute name next (max_required b)))
  else InternalError "can_fold_backwards".

(** Lines 277-282: the initial count and the amount to acquire. *)
Definition fudge_of (extent to_acquire : Expr) (name : string) : Expr :=
  simplify (substitute name (loop_min name) (Sub extent to_acquire)).

Definition initial_count (factor extent to_acquire : Expr) (name : string) : Expr :=
  let fudge := fudge_of extent to_acquire name in
  if is_const fudge then Sub factor fudge else factor.

Definition acquired_amount (extent to_acquire : Expr) (name : string) : Expr :=
  let fudge := fudge_of extent to_acquire name in
  if is_const fudge then to_acquire
  else Select (GT (loop_var name) (loop_min name)) (likely to_acquire) extent.

(** Lines 284-287: the acquire/release bracket around the body. *)
Definition semaphore_bracket (sema_var to_acquire to_release : Expr) (body : Stmt) : Stmt :=
  let release_producer :=
    Call (Int 32) "halide_semaphore_release" [sema_var; to_release] Extern in
  Acquire sema_var to_acquire (Block body (Evaluate release_producer)).

(** Lines 247-289. *)
Definition synthesize_semaphore (factor extent : Expr)
    (can_fold_forwards can_fold_backwards : bool) (b : DimBounds) (name : string)
    (body : Stmt) (st : PlannerState) : Outcome (Stmt * PlannerState) :=
  let '(suffix, counter) := unique_name "_" (name_counter st) in
  let st := {| dims_folded := dims_folded st; name_counter := counter |} in
  let sname := fn_name func +:+ ".folding_semaphore." +:+ suffix in
  let svar := Variable_ Handle sname in
  let* '(to_acquire, to_release) :=
    semaphore_amounts can_fold_forwards can_fold_backwards b name in
  let sema := {| sema_name := sname; sema_var := svar;
                 sema_init := initial_count factor extent to_acquire name |} in
  let body :=
    semaphore_bracket svar (acquired_amount extent to_acquire name) to_release body in
  Ok (body, set_back_semaphore sema st).

(** One round of the loop over the dimensions (lines 135-310), for the
    dimension [d = i - 1] of the loop [For name op_min op_extent ft da _];
    [body] is the local of that name and [chg] tells that it is no longer
    the loop's own body. *)
Definition fold_dimension (name : string) (op_min op_extent : Expr) (ft : ForType)
    (da : DeviceAPI) (provided required box : Box) (d : nat)
    (body : Stmt) (chg : bool) (st : PlannerState)
    : Outcome (DimResult * PlannerState) :=
  let* b := dim_bounds box provided required d in
  let* sd := storage_dim d in
  let explicit_factor := explicit_factor_of sd b name in
  let '(proved_forwards, proved_backwards) := proved_directions b name in
  let '(can_fold_forwards, can_fold_backwards, body, chg) :=
    if negb proved_forwards && negb proved_backwards && changed explicit_factor
    then (fold_forward sd, negb (fold_forward sd),
          Block (bad_fold_assert sd b name) body, true)
    else (proved_forwards, proved_backwards, body, chg) in
  if can_fold_forwards || can_fold_backwards then
    let extent := extent_of b in
    let* '(factor, body, chg) :=
      match explicit_factor with
      | Some ef => Ok (Some ef, Block (factor_too_small_assert sd ef extent name) body, true)
      | None => let* f := automatic_factor extent name in Ok (f, body, chg)
      end in
    match factor with
    | Some factor =>
        let st := push_back_fold {| dim := d; factor := factor; semaphore := None |} st in
        let* r := FoldStorageOfFunction (fn_name func) d factor body in
        let chg := chg || changed r in
        let body := pick body r in
        let* '(body, chg, st) :=
          if async (schedule func) then
            let* '(body, st) :=
              synthesize_semaphore factor extent can_fold_forwards can_fold_backwards
                b name body st in
            Ok (body, true, st)
          else Ok (body, chg, st) in
        let min_next := substitute name (Add (loop_var name) (IntImm 1)) (b_min b) in
        if can_prove (LT (b_max b) min_next) then Ok (Continue body chg, st)
        else Ok (Return (rebuild chg (For name op_min op_extent ft da body)), st)
    | None => Ok (Continue body chg, st)
    end
  else Ok (Continue body chg, st).

(** Where the factor of a fold comes from: the schedule, or, when the
    schedule declares none for this loop and folding is not restricted to
    declared factors, the constant bound of the extent. *)
Definition chosen_factor (b : DimBounds) (sd : StorageDim) (name : string)
    (factor : Expr) : Prop :=
  explicit_factor_of sd b name = Some factor
  ∨ (explicit_factor_of sd b name = None ∧ explicit_only = false
     ∧ automatic_factor (extent_of b) name = Ok (Some factor)).

(** [for (size_t i = box.size(); i > 0; i--)], from round [i] on. *)
Fixpoint fold_dimensions (name : string) (op_min op_extent : Expr) (ft : ForType)
    (da : DeviceAPI) (provided required box : Box) (i : nat)
    (body : Stmt) (chg : bool) (st : PlannerState)
    : Outcome (DimResult * PlannerState) :=
  match i with
  | O => Ok (Continue body chg, st)
  | S d =>
      let* '(r, st) :=
        fold_dimension name op_min op_extent ft da provided required box d body chg st in
      match r with
      | Continue body chg =>
          fold_dimensions name op_min op_extent ft da provided required box d body chg st
      | Return stmt => Ok (Return stmt, st)
      end
  end.

(** The visit of a [For] node; [mutate] is the planner itself, for the
    loops nested in the body. *)
Definition visit_For (mutate : Stmt → PlannerState → Outcome (option Stmt * PlannerState))
    (name : string) (op_min op_extent : Expr) (ft : ForType) (da : DeviceAPI)
    (op_body : Stmt) (st : PlannerState) : Outcome (option Stmt * PlannerState) :=
  match ft with
  | Serial | Unrolled =>
      let provided := box_provided op_body (fn_name func) in
      let required := box_required op_body (fn_name func) in
      let box := box_union provided required in
      let* '(r, st) :=
        fold_dimensions name op_min op_extent ft da provided required box
          (length box) op_body false st in
      match r with
      | Return stmt => Ok (stmt, st)
      | Continue body chg =>
          let* '(body, chg, st) :=
            if box_contains provided required then
              let* '(r, st) := mutate body st in
              Ok (pick body r, chg || changed r, st)
            else Ok (body, chg, st) in
          Ok (rebuild chg (For name op_min op_extent ft da body), st)
      end
  | Parallel | Vectorized => Ok (None, st)
  end.

(** The planner on a statement whose loops nest at most [n] deep.  The
    visits of [ProducerConsumer] and [For] are the mutator's own; the
    others are the base class's, which finds nothing to change in an
    expression. *)
Fixpoint attempt (n : nat) : Stmt → PlannerState → Outcome (option Stmt * PlannerState) :=
  fix visit (s : Stmt) (st : PlannerState) {struct s}
      : Outcome (option Stmt * PlannerState) :=
    match s with
    | ProducerConsumer nm p b =>
        if String.eqb nm (fn_name func) then Ok (None, st)
        else
          let* '(b', st) := visit b st in
          Ok (rebuild (changed b') (ProducerConsumer nm p (pick b b')), st)
    | For nm mn ex ft da b =>
        match n with
        | O => OutOfFuel
        | S n' => visit_For (attempt n') nm mn ex ft da b st
        end
    | LetStmt nm v b =>
        let* '(b', st) := visit b st in
        Ok (rebuild (changed b') (LetStmt nm v (pick b b')), st)
    | Acquire sem cnt b =>
        let* '(b', st) := visit b st in
        Ok (rebuild (changed b') (Acquire sem cnt (pick b b')), st)
    | Realize nm tys bounds c b =>
        let* '(b', st) := visit b st in
        Ok (rebuild (changed b') (Realize nm tys bounds c (pick b b')), st)
    | Block a b =>
        let* '(a', st) := visit a st in
        let* '(b', st) := visit b st in
        Ok (rebuild (changed a' || changed b') (Block (pick a a') (pick b b')), st)
    | IfThenElse c t e =>
        let* '(t', st) := visit t st in
        let* '(e', st) := match e with
                          | Some e0 => visit e0 st
                          | None => Ok (None, st)
                          end in
        Ok (rebuild (changed t' || changed e')
              (IfThenElse c (pick t t') (option_map (fun e0 => pick e0 e') e)), st)
    | AssertStmt _ _ | Provide _ _ _ | Evaluate _ => Ok (None, st)
    end.
End AttemptStorageFoldingOfFunction.

(** A fold whose factor is the one the schedule declares for its
    dimension. *)
Definition explicit_fold (func : Function) (f : Fold) : Prop :=
  ∃ sd, storage_dims (schedule func) !! dim f = Some sd
        ∧ fold_factor sd = Some (factor f).

(** The planner state [st'] is [st] with folds added that all satisfy [P]. *)
Definition adds_folds (P : Fold → Prop) (st st' : PlannerState) : Prop :=
  ∃ new, dims_folded st' = dims_folded st ++ new ∧ Forall P new.

(** How deep the loops of a statement nest. *)
Fixpoint loop_depth (s : Stmt) : nat :=
  match s with
  | For _ _ _ _ _ b => S (loop_depth b)
  | LetStmt _ _ b | ProducerConsumer _ _ b | Acquire _ _ b | Realize _ _ _ _ b =>
      loop_depth b
  | Block a b => Nat.max (loop_depth a) (loop_depth b)
  | IfThenElse _ t e =>
      Nat.max (loop_depth t) (match e with Some e0 => loop_depth e0 | None => 0 end)
  | AssertStmt _ _ | Provide _ _ _ | Evaluate _ => 0
  end.

(** [AttemptStorageFoldingOfFunction(func, explicit_only).mutate(s)] *)
Definition AttemptStorageFoldingOfFunction `{Analyses} (func : Function)
    (explicit_only : bool) (s : Stmt) (st : PlannerState)
    : Outcome (option Stmt * PlannerState) :=
  attempt func explicit_only (loop_depth s) s st.

(** ** StorageFolding: the walker over the realizations *)

Section StorageFolding.
Context `{Analyses}.
Variable env : gmap string Function.

(** Lines 378-382: the first dimension with a declared factor fails the
    [user_assert]. *)
Fixpoint check_no_fold_factor (name : string) (dims : list StorageDim) : Outcome unit :=
  match dims with
  | [] => Ok tt
  | sd :: dims' =>
      match fold_factor sd with
      | Some _ =>
          UserError ("Dimension " +:+ var sd +:+ " of " +:+ name
                     +:+ " cannot be folded because it is accessed by extern or device stages.")
      | None => check_no_fold_factor name dims'
      end
  end.

(** Lines 405-412: [bounds[d] = Range(0, f)] for every fold. *)
Fixpoint fold_bounds (folds : list Fold) (bounds : list Range) : Outcome (list Range) :=
  match folds with
  | [] => Ok bounds
  | f :: folds' =>
      if bool_decide (dim f < length bounds)
      then fold_bounds folds' (<[dim f := (IntImm 0, factor f)]> bounds)
      else InternalError "d >= 0 && d < (int)bounds.size()"
  end.

(** Lines 417-424: one binding per fold that carries a semaphore, each
    around the statement built so far. *)
Fixpoint init_semaphores (folds : list Fold) (stmt : Stmt) : Stmt :=
  match folds with
  | [] => stmt
  | f :: folds' =>
      init_semaphores folds'
        match semaphore f with
        | Some sema =>
            LetStmt (sema_name sema)
              (Call Handle "halide_make_semaphore" [sema_init sema] Extern) stmt
        | None => stmt
        end
  end.

(** The visit of a [Realize] node once its body has been visited: [b] is
    the body of the node, [b'] what the visit of [b] returned, [counter]
    the state of [unique_name]. *)
Definition visit_Realize (nm : string) (tys : list Type_) (bounds : list Range)
    (c : Expr) (b : Stmt) (b' : option Stmt) (counter : nat)
    : Outcome (option Stmt * nat) :=
  let body := pick b b' in
  let special := IsBufferSpecial nm (Realize nm tys bounds c b) in
  let func := default default_Function (env !! nm) in
  if special then
    let* _ := check_no_fold_factor nm (storage_dims (schedule func)) in
    Ok (rebuild (changed b') (Realize nm tys bounds c body), counter)
  else
    let explicit_only := negb (count_producers body nm =? 1) in
    let* '(r, st) :=
      AttemptStorageFoldingOfFunction func explicit_only body
        {| dims_folded := []; name_counter := counter |} in
    let body := pick body r in
    if negb (changed b' || changed r) then Ok (None, name_counter st)
    else
      match dims_folded st with
      | [] => Ok (Some (Realize nm tys bounds c body), name_counter st)
      | folds =>
          let* bounds := fold_bounds folds bounds in
          Ok (Some (init_semaphores folds (Realize nm tys bounds c body)), name_counter st)
      end.

Fixpoint StorageFolding (s : Stmt) (counter : nat) : Outcome (option Stmt * nat) :=
  match s with
  | Realize nm tys bounds c b =>
      let* '(b', counter) := StorageFolding b counter in
      visit_Realize nm tys bounds c b b' counter
  | LetStmt nm v b =>
      let* '(b', counter) := StorageFolding b counter in
      Ok (rebuild (changed b') (LetStmt nm v (pick b b')), counter)
  | ProducerConsumer nm p b =>
      let* '(b', counter) := StorageFolding b counter in
      Ok (rebuild (changed b') (ProducerConsumer nm p (pick b b')), counter)
  | For nm mn ex ft da b =>
      let* '(b', counter) := StorageFolding b counter in
      Ok (rebuild (changed b') (For nm mn ex ft da (pick b b')), counter)
  | Acquire sem cnt b =>
      let* '(b', counter) := StorageFolding b counter in
      Ok (rebuild (changed b') (Acquire sem cnt (pick b b')), counter)
  | Block a b =>
      let* '(a', counter) := StorageFolding a counter in
      let* '(b', counter) := StorageFolding b counter in
      Ok (rebuild (changed a' || changed b') (Block (pick a a') (pick b b')), counter)
  | IfThenElse c t e =>
      let* '(t', counter) := StorageFolding t counter in
      let* '(e', counter) := match e with
                             | Some e0 => StorageFolding e0 counter
                             | None => Ok (None, counter)
                             end in
      Ok (rebuild (changed t' || changed e')
            (IfThenElse c (pick t t') (option_map (fun e0 => pick e0 e') e)), counter)
  | AssertStmt _ _ | Provide _ _ _ | Evaluate _ => Ok (None, counter)
  end.

(** [storage_folding(s, env)], run with the counter of [unique_name] at
    [counter]; the result is the statement and the counter it leaves. *)
Definition storage_folding (s : Stmt) (counter : nat) : Outcome (Stmt * nat) :=
  let s := SubstituteInConstants ∅ s in
  let* '(r, counter) := StorageFolding s counter in
  Ok (pick s r, counter).
End StorageFolding.

(** ** The run-time reading of what the pass emits

    Modelled from the spec: the meaning of expressions and of the two
    semaphore operations belongs to the code generator and the run-time
    library, which are not part of the excerpt.  Integer expressions take
    their usual values (comparisons are 0 or 1, [likely] is the identity);
    a semaphore is a counter of free slots: [Acquire] takes its amount
    from the counter before its body runs, [halide_semaphore_release]
    gives its amount back.  The acquire is blocking: it waits until the
    counter holds the amount.  The statements below are run by one thread
    of control, in which nothing is released while an acquire waits, so an
    acquire of more than the counter holds never returns and the run has
    no result. *)

Definition Env : Type := string → Z.

Definition bind_var (x : string) (v : Z) (env : Env) : Env :=
  fun y => if String.eqb y x then v else env y.

Definition Z_of_bool (b : bool) : Z := if b then 1%Z else 0%Z.

Definition eval_binop (op : BinOp) (x y : Z) : Z :=
  match op with
  | OpAdd => x + y
  | OpSub => x - y
  | OpMul => x * y
  | OpDiv => x / y
  | OpMod => x mod y
  | OpMin => Z.min x y
  | OpMax => Z.max x y
  | OpEQ => Z_of_bool (x =? y)
  | OpNE => Z_of_bool (negb (x =? y))
  | OpLT => Z_of_bool (x <? y)
  | OpLE => Z_of_bool (x <=? y)
  | OpGT => Z_of_bool (x >? y)
  | OpGE => Z_of_bool (x >=? y)
  | OpAnd => Z_of_bool (negb (x =? 0) && negb (y =? 0))
  | OpOr => Z_of_bool (negb (x =? 0) || negb (y =? 0))
  end%Z.

Fixpoint eval (env : Env) (e : Expr) : Z :=
  match e with
  | IntImm v => v
  | StringImm _ => 0
  | Variable_ _ n => env n
  | Binary op a b => eval_binop op (eval env a) (eval env b)
  | Not a => Z_of_bool (eval env a =? 0)%Z
  | Select c t f => if (eval env c =? 0)%Z then eval env f else eval env t
  | Call _ n args _ =>
      match args with
      | [a] => if String.eqb n "likely" then eval env a else 0
      | _ => 0
      end
  | Let_ n v b => eval (bind_var n (eval env v) env) b
  end%Z.

(** The ledger of one semaphore: the slots free now, and the totals
    acquired and released so far. *)
Record Ledger : Type := {
  free : Z;
  acquired : Z;
  released : Z
}.

Definition acquire (n : Z) (l : Ledger) : option Ledger :=
  if (n <=? free l)%Z
  then Some {| free := free l - n; acquired := acquired l + n; released := released l |}
  else None.

Definition release (n : Z) (l : Ledger) : Ledger :=
  {| free := free l + n; acquired := acquired l; released := released l + n |}.

Definition is_handle_of (h : string) (e : Expr) : bool :=
  match e with
  | Variable_ _ n => String.eqb n h
  | _ => false
  end.

(** [count] iterations of a loop body from the value [i] of its variable;
    an iteration without a result ends the loop without one. *)
Fixpoint iterate {S : Type} (body : Z → S → option S) (count : nat) (i : Z) (st : S)
    : option S :=
  match count with
  | O => Some st
  | Datatypes.S count' =>
      match body i st with
      | Some st' => iterate body count' (i + 1)%Z st'
      | None => None
      end
  end.

(** What running a statement does to the ledger of the semaphore [h];
    [None] when an acquire of [h] waits for ever. *)
Fixpoint run (h : string) (s : Stmt) (env : Env) (l : Ledger) : option Ledger :=
  match s with
  | LetStmt n v b => run h b (bind_var n (eval env v) env) l
  | AssertStmt _ _ | Provide _ _ _ => Some l
  | ProducerConsumer _ _ b | Realize _ _ _ _ b => run h b env l
  | For n mn ex _ _ b =>
      iterate (fun i l => run h b (bind_var n i env) l)
        (Z.to_nat (eval env ex)) (eval env mn) l
  | Acquire sem cnt b =>
      if is_handle_of h sem
      then match acquire (eval env cnt) l with
           | Some l' => run h b env l'
           | None => None
           end
      else run h b env l
  | Block a b =>
      match run h a env l with
      | Some l' => run h b env l'
      | None => None
      end
  | IfThenElse c t e =>
      if (eval env c =? 0)%Z
      then match e with Some e0 => run h e0 env l | None => Some l end
      else run h t env l
  | Evaluate v =>
      match v with
      | Call _ n [sem; amount] _ =>
          if String.eqb n "halide_semaphore_release" && is_handle_of h sem
          then Some (release (eval env amount) l) else Some l
      | _ => Some l
      end
  end.

(** The statement performs no operation on the semaphore [h]. *)
Fixpoint sema_free (h : string) (s : Stmt) : bool :=
  match s with
  | LetStmt _ _ b | ProducerConsumer _ _ b | Realize _ _ _ _ b | For _ _ _ _ _ b =>
      sema_free h b
  | AssertStmt _ _ | Provide _ _ _ => true
  | Acquire sem _ b => negb (is_handle_of h sem) && sema_free h b
  | Block a b => sema_free h a && sema_free h b
  | IfThenElse _ t e =>
      sema_free h t && match e with Some e0 => sema_free h e0 | None => true end
  | Evaluate v =>
      match v with
      | Call _ n [sem; _] _ =>
          negb (String.eqb n "halide_semaphore_release" && is_handle_of h sem)
      | _ => true
      end
  end.

(** The edge of the window that moves ahead as the loop advances in the
    direction of the fold, and the edge that trails behind it (lines
    253-265): forwards, the maximum provided and the minimum required;
    backwards, the minimum provided and the maximum required. *)
Definition leading_edge (forwards : bool) (b : DimBounds) : Expr :=
  if forwards then max_provided b else min_provided b.

Definition trailing_edge (forwards : bool) (b : DimBounds) : Expr :=
  if forwards then min_required b else max_required b.

(** How far the edge [e] moves, in the direction of the fold, between the
    iterations [i] and [j] of the loop over [name]. *)
Definition advance (forwards : bool) (e : Expr) (name : string) (env : Env) (i j : Z) : Z :=
  ((if forwards then 1 else -1)
   * (eval (bind_var name j env) e - eval (bind_var name i env) e))%Z.

(** The slots of the buffer that hold live values once iteration [i] has
    acquired its amount: the extent of the window in the first iteration
    [first], plus what the leading edge has moved since, minus what the
    trailing edge has moved since. *)
Definition slots_held (forwards : bool) (b : DimBounds) (extent : Expr) (name : string)
    (env : Env) (first i : Z) : Z :=
  (eval (bind_var name first env) extent
   + advance forwards (leading_edge forwards b) name env first i
   - advance forwards (trailing_edge forwards b) name env first i)%Z.

(** The analyses are right about the value of one expression: the
    substitution of a value for [name] in [e] evaluates as [e] does with
    [name] bound to the value, and the simplifier keeps the value of [e]. *)
Definition substitutes_in `{Analyses} (name : string) (e : Expr) : Prop :=
  ∀ (env : Env) (v : Expr),
    eval env (substitute name v e) = eval (bind_var name (eval env v) env) e.

Definition simplifies `{Analyses} (e : Expr) : Prop :=
  ∀ env : Env, eval env (simplify e) = eval env e.

(** ** A concrete pipeline and concrete analyses

    A stage [f] produced and consumed inside a serial loop over [y]: each
    iteration writes [f(y + 2)] and reads [f(y)], [f(y + 1)], [f(y + 2)],
    so the window of [f] along its only dimension is [y, y + 2].  The
    analyses below are simple syntactic ones that are right on it. *)

Fixpoint uses_var (n : string) (e : Expr) : bool :=
  match e with
  | IntImm _ | StringImm _ => false
  | Variable_ _ x => String.eqb x n
  | Binary _ a b => uses_var n a || uses_var n b
  | Not a => uses_var n a
  | Select c t f => uses_var n c || uses_var n t || uses_var n f
  | Call _ _ args _ => existsb (uses_var n) args
  | Let_ x v b => uses_var n v || (negb (String.eqb x n) && uses_var n b)
  end.

Fixpoint subst (n : string) (v : Expr) (e : Expr) : Expr :=
  match e with
  | IntImm _ | StringImm _ => e
  | Variable_ _ x => if String.eqb x n then v else e
  | Binary op a b => Binary op (subst n v a) (subst n v b)
  | Not a => Not (subst n v a)
  | Select c t f => Select (subst n v c) (subst n v t) (subst n v f)
  | Call t x args ct => Call t x (map (subst n v) args) ct
  | Let_ x w b => Let_ x (subst n v w) (if String.eqb x n then b else subst n v b)
  end.

Definition window : Box :=
  [{| imin := Variable_ (Int 32) "y"; imax := Add (Variable_ (Int 32) "y") (IntImm 2) |}].

Definition example_analyses : Analyses := {|
  simplify := fun e => e;
  box_provided := fun _ n => if String.eqb n "f" then window else [];
  box_required := fun _ n => if String.eqb n "f" then window else [];
  box_union := fun a _ => a;
  box_contains := fun _ _ => false;
  is_monotonic := fun e n =>
    match e with
    | Variable_ _ x | Add (Variable_ _ x) (IntImm _) =>
        if String.eqb x n then Increasing else Constant
    | IntImm _ => Constant
    | _ => Unknown
    end;
  expr_uses_var := fun e n => uses_var n e;
  substitute := subst;
  find_constant_bound := fun e _ =>
    match e with
    | Add (Sub (Add a (IntImm k)) a') (IntImm 1) => Some (IntImm (k + 1))
    | _ => None
    end;
  can_prove := fun _ => false
|}.

Definition read_f (index : Expr) : Expr := Call (Int 32) "f" [index] Halide.

Definition example_produce : Stmt :=
  ProducerConsumer "f" true
    (Provide "f" [Variable_ (Int 32) "y"] [Add (Variable_ (Int 32) "y") (IntImm 2)]).

Definition example_consume : Stmt :=
  ProducerConsumer "f" false
    (Provide "g"
       [Add (read_f (Variable_ (Int 32) "y"))
          (Add (read_f (Add (Variable_ (Int 32) "y") (IntImm 1)))
             (read_f (Add (Variable_ (Int 32) "y") (IntImm 2))))]
       [Variable_ (Int 32) "y"]).

Definition example_loop (body : Stmt) : Stmt :=
  For "y" (IntImm 0) (IntImm 8) Serial DeviceNone body.

Definition example_realize (body : Stmt) : Stmt :=
  Realize "f" [Int 32] [(IntImm 0, IntImm 10)] (IntImm 1) (example_loop body).

(** The bounds of the window of [f] at the loop over [y], and its extent
    as line 213 writes it. *)
Definition example_bounds : DimBounds :=
  {| b_min := Variable_ (Int 32) "y";
     b_max := Add (Variable_ (Int 32) "y") (IntImm 2);
     min_provided := Variable_ (Int 32) "y";
     max_provided := Add (Variable_ (Int 32) "y") (IntImm 2);
     min_required := Variable_ (Int 32) "y";
     max_required := Add (Variable_ (Int 32) "y") (IntImm 2) |}.

Definition example_extent : Expr :=
  Add (Sub (Add (Variable_ (Int 32) "y") (IntImm 2)) (Variable_ (Int 32) "y")) (IntImm 1).

(** One production of [f] per iteration, and the same with two. *)
Definition pipeline : Stmt := example_realize (Block example_produce example_consume).

Definition pipeline_two_producers : Stmt :=
  example_realize (Block example_produce (Block example_produce example_consume)).

Definition example_function (factor : option Expr) (is_async : bool) : Function :=
  {| fn_name := "f";
     schedule := {| storage_dims := [{| var := "y"; fold_factor := factor;
                                        fold_forward := true |}];
                    async := is_async |} |}.

Definition example_env (factor : option Expr) (is_async : bool) : gmap string Function :=
  {[ "f" := example_function factor is_async ]}.

(** The same pipeline with the buffer of [f] handed to an extern stage. *)
Definition pipeline_special : Stmt :=
  example_realize
    (Block (Evaluate (Call (Int 32) "extern_stage" [Variable_ Handle "f.buffer"] Extern))
       (Block example_produce example_consume)).

(** A binding of [x] to a constant around a binding of [x] to a value that
    is not constant. *)
Definition shadowing_program : Stmt :=
  LetStmt "x" (IntImm 5)
    (LetStmt "x" (Variable_ (Int 32) "y")
       (Evaluate (Variable_ (Int 32) "x"))).

(** ** Shapes of statements, for the properties of the whole pass *)

(** The statement has no [Realize] node. *)
Fixpoint realize_free (s : Stmt) : bool :=
  match s with
  | Realize _ _ _ _ _ => false
  | LetStmt _ _ b | ProducerConsumer _ _ b | For _ _ _ _ _ b | Acquire _ _ b =>
      realize_free b
  | Block a b => realize_free a && realize_free b
  | IfThenElse _ t e =>
      realize_free t && match e with Some e0 => realize_free e0 | None => true end
  | AssertStmt _ _ | Provide _ _ _ | Evaluate _ => true
  end.

(** The statement has no [LetStmt] node. *)
Fixpoint let_free (s : Stmt) : bool :=
  match s with
  | LetStmt _ _ _ => false
  | ProducerConsumer _ _ b | For _ _ _ _ _ b | Acquire _ _ b | Realize _ _ _ _ b =>
      let_free b
  | Block a b => let_free a && let_free b
  | IfThenElse _ t e =>
      let_free t && match e with Some e0 => let_free e0 | None => true end
  | AssertStmt _ _ | Provide _ _ _ | Evaluate _ => true
  end.

(** What a run of the planner for [func] adds to its state: folds, each on
    a dimension the schedule knows and each with a semaphore exactly when
    the function is asynchronous, and one name drawn per semaphore. *)
Definition planner_step (func : Function) (st st' : PlannerState) (new : list Fold) : Prop :=
  dims_folded st' = dims_folded st ++ new
  ∧ Forall (fun f => is_Some (storage_dims (schedule func) !! dim f)
                     ∧ (is_Some (semaphore f) ↔ async (schedule func) = true)) new
  ∧ name_counter st' =
    name_counter st + (if async (schedule func) then length new else 0).

(** The outcome is a failed [internal_assert] or an undefined operation. *)
Definition fails {A} (m : Outcome A) : Prop :=
  match m with
  | InternalError _ | Undefined _ => True
  | _ => False
  end.

(** The analyses of the example pipeline for a loop that only reads [f]:
    nothing is provided, and the union of an empty box with another box is
    the other box. *)
Definition consumer_analyses : Analyses := {|
  simplify := fun e => e;
  box_provided := fun _ _ => [];
  box_required := fun _ n => if String.eqb n "f" then window else [];
  box_union := fun a b => match a with [] => b | _ => a end;
  box_contains := fun _ _ => false;
  is_monotonic := fun _ _ => Unknown;
  expr_uses_var := fun e n => uses_var n e;
  substitute := subst;
  find_constant_bound := fun _ _ => None;
  can_prove := fun _ => false
|}.

(** ** What the orchestrator and the planner leave in the tree *)

(** The bindings of lines 417-424 as they stand in the tree: the
    statement inside one [LetStmt] per semaphore, each binding the name of
    the semaphore to a call of [halide_make_semaphore] on its initial
    count, the first semaphore innermost. *)
Definition semaphore_bindings (semas : list Semaphore) (stmt : Stmt) : Stmt :=
  foldl (fun s sema =>
           LetStmt (sema_name sema)
             (Call Handle "halide_make_semaphore" [sema_init sema] Extern) s)
    stmt semas.

(** The message of the assertion of lines 203-206 for the function [fn]:
    an extern call of [halide_error_bad_fold] whose first argument is the
    name of the function. *)
Definition is_bad_fold_message (fn : string) (m : Expr) : bool :=
  match m with
  | Call _ n (StringImm f :: _) Extern =>
      String.eqb n "halide_error_bad_fold" && String.eqb f fn
  | _ => false
  end.

(** The conditions of the assertions of a statement that carry that
    message, in the order of the tree. *)
Fixpoint direction_asserts (fn : string) (s : Stmt) : list Expr :=
  match s with
  | AssertStmt c m => if is_bad_fold_message fn m then [c] else []
  | LetStmt _ _ b | ProducerConsumer _ _ b | For _ _ _ _ _ b | Acquire _ _ b
  | Realize _ _ _ _ b => direction_asserts fn b
  | Block a b => direction_asserts fn a ++ direction_asserts fn b
  | IfThenElse _ t e =>
      direction_asserts fn t
      ++ match e with Some e0 => direction_asserts fn e0 | None => [] end
  | Provide _ _ _ | Evaluate _ => []
  end.

(** A condition that asserts the declared direction of a fold: the
    condition of lines 181-201 for some storage dimension of the function
    and some bounds, as the index rewriter of later folds leaves it. *)
Inductive direction_condition `{Analyses} (func : Function) : Expr → Prop :=
| direction_declared (d : nat) (sd : StorageDim) (b : DimBounds) (name : string) :
    storage_dims (schedule func) !! d = Some sd →
    direction_condition func (bad_fold_condition func sd b name)
| direction_rewritten (d : nat) (f c : Expr) :
    direction_condition func c →
    direction_condition func (rewrite_expr (fn_name func) d f c).

(** The folds [new] all have the factor the schedule declares for their
    dimension, the tree [after] holds one assertion of direction more than
    [before] for each of them, and every assertion of direction in it is
    one if every such assertion of [before] is. *)
Definition declared_and_asserted `{Analyses} (func : Function) (before after : Stmt)
    (new : list Fold) : Prop :=
  Forall (explicit_fold func) new
  ∧ length (direction_asserts (fn_name func) after)
    = length (direction_asserts (fn_name func) before) + length new
  ∧ (Forall (direction_condition func) (direction_asserts (fn_name func) before) →
     Forall (direction_condition func) (direction_asserts (fn_name func) after)).

(** The analyses with another classification of monotonicity. *)
Definition with_is_monotonic (m : Expr → string → Monotonic) (H : Analyses) : Analyses :=
  {| simplify := @simplify H;
     box_provided := @box_provided H;
     box_required := @box_required H;
     box_union := @box_union H;
     box_contains := @box_contains H;
     is_monotonic := m;
     expr_uses_var := @expr_uses_var H;
     substitute := @substitute H;
     find_constant_bound := @find_constant_bound H;
     can_prove := @can_prove H |}.

(** * Properties *)

(** One step through a sequence of outcomes: the first computation of the
    hypothesis either returned, and is named, or the hypothesis is absurd. *)
Ltac step_outcome H :=
  match type of H with
  | obind ?m _ = _ =>
      let E := fresh "E" in
      destruct m as [?| | | |] eqn:E; cbn [obind] in H; try discriminate H
  end.

(** ** Rebuilds *)

Lemma pick_rebuild {A} (c : bool) (x y : A) : pick x (rebuild c y) = if c then y else x.
Proof. by destruct c. Qed.

Lemma changed_rebuild {A} (c : bool) (y : A) : changed (rebuild c y) = c.
Proof. by destruct c. Qed.

Lemma list_insert_alter {A} (f : A → A) (l : list A) (i : nat) (a : A) :
  l !! i = Some a → <[i := f a]> l = alter f i l.
Proof.
  revert i. induction l as [|x l IH]; intros [|i] Hl; simplify_eq/=; try done.
  f_equal. by apply IH.
Qed.

Lemma mutate_expr_Call vV vC t n args ct :
  mutate_expr vV vC (Call t n args ct) =
  let* args' := mutate_exprs vV vC args in
  let new_args := merge args args' in
  let* over := vC t n new_args ct in
  match over with
  | Some e' => Ok (Some e')
  | None => Ok (rebuild (any_changed args') (Call t n new_args ct))
  end.
Proof. reflexivity. Qed.

(** ** The index rewriter *)
Section FoldStorageFacts.
Variable func : string.
Variable dim : nat.
Variable factor : Expr.

Local Abbreviation rw := (rewrite_expr func dim factor).
Local Abbreviation result e := (rebuild (reads func e) (rw e)).

Lemma fold_index_folded a : fold_index factor a = folded_index factor a.
Proof. unfold fold_index, folded_index, is_one. by destruct factor as [[|[]|]| | | | | | |]. Qed.

Lemma rewrite_expr_id e : reads func e = false → rw e = e.
Proof.
  induction e as [| | |op a b IHa IHb|a IHa|c t f IHc IHt IHf|t n args ct IH|n v b IHv IHb]
    using Expr_ind'; simpl; intros Hr; try done.
  - apply orb_false_iff in Hr as [??]. by rewrite IHa, IHb.
  - by rewrite IHa.
  - apply orb_false_iff in Hr as [Hr ?]. apply orb_false_iff in Hr as [??].
    by rewrite IHc, IHt, IHf.
  - apply orb_false_iff in Hr as [Hn Hargs]. rewrite Hn. f_equal.
    induction IH as [|a l Ha _ IHl]; simpl in *; [done|].
    apply orb_false_iff in Hargs as [??]. by rewrite Ha, IHl.
  - apply orb_false_iff in Hr as [??]. by rewrite IHv, IHb.
Qed.

Lemma pick_result e : pick e (result e) = rw e.
Proof.
  rewrite pick_rebuild. destruct (reads func e) eqn:E; [done|].
  by rewrite rewrite_expr_id.
Qed.

Lemma merge_results (l : list Expr) :
  merge l (map (fun e => result e) l) = map rw l.
Proof.
  induction l as [|a l IH]; [done|]. unfold merge in *. simpl.
  by rewrite pick_result, IH.
Qed.

Lemma any_changed_results (l : list Expr) :
  any_changed (map (fun e => result e) l) = existsb (reads func) l.
Proof.
  induction l as [|a l IH]; [done|]. unfold any_changed in *. simpl.
  by rewrite changed_rebuild, IH.
Qed.

Lemma FoldStorage_exprs_spec (l : list Expr) :
  Forall (fun e => indexed func dim e = true →
            FoldStorage_expr func dim factor e = Ok (result e)) l →
  forallb (indexed func dim) l = true →
  mutate_exprs (fun _ _ => None) (FoldStorage_visit_Call func dim factor) l
  = Ok (map (fun e => result e) l).
Proof.
  induction 1 as [|a l Ha _ IH]; simpl; intros Hi; [done|].
  apply andb_true_iff in Hi as [Hia Hil].
  unfold FoldStorage_expr in Ha. rewrite (Ha Hia). simpl. by rewrite (IH Hil).
Qed.

Lemma FoldStorage_expr_spec e :
  indexed func dim e = true →
  FoldStorage_expr func dim factor e = Ok (result e).
Proof.
  unfold FoldStorage_expr.
  induction e as [| | |op a b IHa IHb|a IHa|c t f IHc IHt IHf|t n args ct IH|n v b IHv IHb]
    using Expr_ind'; intros Hi; try done.
  - simpl in Hi. apply andb_true_iff in Hi as [??].
    cbn [mutate_expr]. rewrite IHa, IHb by done. simpl.
    by rewrite !changed_rebuild, !pick_result.
  - simpl in Hi. cbn [mutate_expr]. rewrite IHa by done. simpl.
    by rewrite !changed_rebuild, !pick_result.
  - simpl in Hi. apply andb_true_iff in Hi as [Hi ?]. apply andb_true_iff in Hi as [??].
    cbn [mutate_expr]. rewrite IHc, IHt, IHf by done. simpl.
    by rewrite !changed_rebuild, !pick_result.
  - simpl in Hi. apply andb_true_iff in Hi as [Hargs Hd].
    rewrite mutate_expr_Call, FoldStorage_exprs_spec by done.
    cbn [obind]. cbv zeta. rewrite merge_results, any_changed_results.
    unfold FoldStorage_visit_Call. simpl. fold (is_read func n ct).
    destruct (is_read func n ct) eqn:Hr; simpl in *.
    + apply bool_decide_eq_true in Hd.
      destruct (map rw args !! dim) as [a|] eqn:Hl.
      * simpl. by rewrite fold_index_folded, (list_insert_alter _ _ _ _ Hl).
      * apply lookup_ge_None in Hl. rewrite length_map in Hl. lia.
    + done.
  - simpl in Hi. apply andb_true_iff in Hi as [??].
    cbn [mutate_expr]. rewrite IHv, IHb by done. simpl.
    by rewrite !changed_rebuild, !pick_result.
Qed.

Local Abbreviation rws := (rewrite_stmt func dim factor).

Lemma rewrite_exprs_id (l : list Expr) :
  existsb (reads func) l = false → map rw l = l.
Proof.
  induction l as [|a l IH]; simpl; [done|]. intros Hr.
  apply orb_false_iff in Hr as [??]. by rewrite rewrite_expr_id, IH.
Qed.

Lemma rewrite_region_id (l : list Range) :
  existsb (reads_range func) l = false → map (rewrite_range func dim factor) l = l.
Proof.
  induction l as [|[mn ex] l IH]; simpl; [done|]. intros Hr.
  apply orb_false_iff in Hr as [Hr ?]. apply orb_false_iff in Hr as [??].
  rewrite IH by done. unfold rewrite_range. simpl in *. by rewrite !rewrite_expr_id.
Qed.

Lemma rewrite_stmt_id s : accesses func s = false → rws s = s.
Proof.
  induction s as [n v b IHb|c m|n p b IHb|n mn ex ft da b IHb|sem cnt b IHb
                 |n values args|n tys bounds c b IHb|a b IHa IHb|c t e IHt IHe|v]
    using Stmt_ind'; simpl; intros Hr;
    repeat match goal with
           | H : _ || _ = false |- _ => apply orb_false_iff in H as [??]
           end;
    rewrite ?rewrite_expr_id, ?rewrite_exprs_id, ?rewrite_region_id by done;
    rewrite ?IHb, ?IHa, ?IHt by done; try done.
  - by destruct (String.eqb n func).
  - destruct e as [e0|]; simpl; [|done]. by rewrite IHe.
Qed.

Lemma pick_result_stmt s : pick s (rebuild (accesses func s) (rws s)) = rws s.
Proof.
  rewrite pick_rebuild. destruct (accesses func s) eqn:E; [done|].
  by rewrite rewrite_stmt_id.
Qed.

Lemma FoldStorage_region_spec (l : list Range) :
  forallb (indexed_range func dim) l = true →
  mutate_region (fun _ _ => None) (FoldStorage_visit_Call func dim factor) l
  = Ok (map (fun r => rebuild (reads_range func r) (rewrite_range func dim factor r)) l).
Proof.
  induction l as [|[mn ex] l IH]; simpl; intros Hi; [done|].
  apply andb_true_iff in Hi as [Hi Hl]. apply andb_true_iff in Hi as [Hmn Hex].
  simpl in *.
  pose proof (FoldStorage_expr_spec mn Hmn) as E1.
  pose proof (FoldStorage_expr_spec ex Hex) as E2.
  unfold FoldStorage_expr in E1, E2. rewrite E1. simpl. rewrite E2. simpl.
  rewrite (IH Hl). simpl. by rewrite !changed_rebuild, !pick_result.
Qed.

Lemma merge_region_results (l : list Range) :
  merge l (map (fun r => rebuild (reads_range func r) (rewrite_range func dim factor r)) l)
  = map (rewrite_range func dim factor) l.
Proof.
  induction l as [|[mn ex] l IH]; [done|]. unfold merge in *. simpl. rewrite IH.
  f_equal. rewrite pick_rebuild. unfold reads_range, rewrite_range. simpl.
  destruct (reads func mn) eqn:E1, (reads func ex) eqn:E2; simpl; try done.
  by rewrite !rewrite_expr_id.
Qed.

Lemma any_changed_region_results (l : list Range) :
  any_changed (map (fun r => rebuild (reads_range func r) (rewrite_range func dim factor r)) l)
  = existsb (reads_range func) l.
Proof.
  induction l as [|a l IH]; [done|]. unfold any_changed in *. simpl.
  by rewrite changed_rebuild, IH.
Qed.

Lemma FoldStorageOfFunction_spec s :
  well_indexed func dim s = true →
  FoldStorageOfFunction func dim factor s = Ok (rebuild (accesses func s) (rws s)).
Proof.
  unfold FoldStorageOfFunction.
  induction s as [n v b IHb|c m|n p b IHb|n mn ex ft da b IHb|sem cnt b IHb
                 |n values args|n tys bounds c b IHb|a b IHa IHb|c t e IHt IHe|v]
    using Stmt_ind'; cbn [well_indexed mutate_stmt]; intros Hi;
    repeat match goal with
           | H : _ && _ = true |- _ => apply andb_true_iff in H as [??]
           end;
    repeat match goal with
           | H : indexed _ _ ?e = true |- _ =>
               let E := fresh "E" in
               pose proof (FoldStorage_expr_spec e H) as E;
               unfold FoldStorage_expr in E; rewrite E; clear E H
           end;
    rewrite ?IHb, ?IHa, ?IHt by done; cbn [obind];
    rewrite ?changed_rebuild, ?pick_result, ?pick_result_stmt; try done.
  - (* Provide *)
    rewrite !FoldStorage_exprs_spec by (try done; apply Forall_forall; intros;
      by apply FoldStorage_expr_spec).
    cbn [obind]. cbv zeta. rewrite !merge_results, !any_changed_results.
    unfold FoldStorage_visit_Provide. simpl.
    destruct (String.eqb n func) eqn:Hn; simpl in *.
    + match goal with H : bool_decide _ = true |- _ => apply bool_decide_eq_true in H end.
      destruct (map rw args !! dim) as [a|] eqn:Hl.
      * simpl. by rewrite fold_index_folded, (list_insert_alter _ _ _ _ Hl).
      * apply lookup_ge_None in Hl. rewrite length_map in Hl. lia.
    + done.
  - (* Realize *)
    rewrite FoldStorage_region_spec by done. cbn [obind].
    by rewrite merge_region_results, any_changed_region_results.
  - (* IfThenElse *)
    destruct e as [e0|]; simpl.
    + rewrite IHe by done. simpl.
      by rewrite !changed_rebuild, pick_result_stmt.
    + by rewrite orb_false_r.
Qed.
End FoldStorageFacts.

(** ** The contract of the index rewriter *)

(** C3.  On a statement in which every read and every write of the buffer
    has an index at position [dim], the index rewriter returns the tree in
    which every read (call of type Halide) and every write (Provide) of
    the buffer has its index at position [dim] replaced by 0 when the
    factor is the constant one and by the index modulo the factor
    otherwise, every other index and every access to another buffer being
    kept, up to the rewriting of the reads nested in them; and it returns
    the very tree it was given when that tree has no read or write of the
    buffer. *)
Theorem index_rewriter_contract (func : string) (dim : nat) (factor : Expr) (s : Stmt) :
  well_indexed func dim s = true →
  FoldStorageOfFunction func dim factor s
  = Ok (if accesses func s then Some (rewrite_stmt func dim factor s) else None).
Proof. apply FoldStorageOfFunction_spec. Qed.

Lemma index_rewriter_contract_witness :
  FoldStorageOfFunction "f" 0 (IntImm 4) pipeline
  = Ok (if accesses "f" pipeline then Some (rewrite_stmt "f" 0 (IntImm 4) pipeline) else None).
Proof. apply index_rewriter_contract. reflexivity. Defined.

(** C10.  A call node named like the folded buffer whose call type is not
    Halide is handled as the base mutator handles any call: its arguments
    are only visited, none is replaced by 0 or wrapped in a remainder, and
    the node is the old one when no argument contains a read of the buffer.
    A Provide node named like the buffer is always rebuilt with its index at
    position [dim] folded, whatever else it holds. *)
Theorem rewrite_gated_by_call_type (func : string) (dim : nat) (factor : Expr) :
  (∀ t args ct,
     is_Halide ct = false →
     forallb (indexed func dim) args = true →
     FoldStorage_expr func dim factor (Call t func args ct)
     = Ok (if existsb (reads func) args
           then Some (Call t func (map (rewrite_expr func dim factor) args) ct)
           else None))
  ∧ (∀ values args,
       forallb (indexed func dim) args = true →
       forallb (indexed func dim) values = true →
       dim < length args →
       ∃ a, map (rewrite_expr func dim factor) args !! dim = Some a
            ∧ FoldStorageOfFunction func dim factor (Provide func values args)
              = Ok (Some (Provide func (map (rewrite_expr func dim factor) values)
                            (<[dim := folded_index factor a]>
                               (map (rewrite_expr func dim factor) args))))).
Proof.
  split.
  - intros t args ct Hct Hargs.
    rewrite FoldStorage_expr_spec by (simpl; unfold is_read; rewrite Hargs, Hct, andb_false_r; done).
    simpl. unfold is_read. by rewrite Hct, andb_false_r.
  - intros values args Hargs Hvalues Hdim.
    destruct (map (rewrite_expr func dim factor) args !! dim) as [a|] eqn:Hl.
    + exists a. split; [done|].
      rewrite FoldStorageOfFunction_spec
        by (simpl; rewrite Hargs, Hvalues, String.eqb_refl; simpl; by apply bool_decide_eq_true).
      simpl. rewrite String.eqb_refl. simpl.
      by rewrite (list_insert_alter _ _ _ _ Hl).
    + apply lookup_ge_None in Hl. rewrite length_map in Hl. lia.
Qed.

Lemma rewrite_gated_by_call_type_witness :
  FoldStorage_expr "f" 0 (IntImm 4)
    (Call (Int 32) "f" [Variable_ (Int 32) "y"] Extern) = Ok None
  ∧ FoldStorage_expr "f" 0 (IntImm 4)
      (Call (Int 32) "f" [read_f (Variable_ (Int 32) "y")] Extern)
    = Ok (Some (Call (Int 32) "f"
                  [read_f (Mod (Variable_ (Int 32) "y") (IntImm 4))] Extern)).
Proof.
  split.
  - exact (proj1 (rewrite_gated_by_call_type "f" 0 (IntImm 4))
             (Int 32) [Variable_ (Int 32) "y"] Extern eq_refl eq_refl).
  - exact (proj1 (rewrite_gated_by_call_type "f" 0 (IntImm 4))
             (Int 32) [read_f (Variable_ (Int 32) "y")] Extern eq_refl eq_refl).
Defined.

(** ** The planner *)

Lemma next_power_of_two_spec (e p : Z) :
  next_power_of_two e = Ok p → (e ≤ max_fold)%Z →
  ∃ k, (0 ≤ k)%Z ∧ p = (2 ^ k)%Z ∧ (e ≤ p ≤ max_fold)%Z.
Proof.
  unfold next_power_of_two, max_fold. intros Hp He.
  destruct (1 <=? e)%Z eqn:E; [|done]. apply Z.leb_le in E.
  injection Hp as <-. exists (Z.log2_up e).
  pose proof (Z.log2_up_nonneg e) as Hk.
  rewrite Z.shiftl_1_l. split; [done|]. split; [done|]. split.
  - destruct (Z.eq_dec e 1%Z) as [->|Hne]; [done|].
    apply Z.log2_up_spec. lia.
  - change 1024%Z with (2 ^ 10)%Z. apply Z.pow_le_mono_r; [lia|].
    apply Z.log2_up_le_pow2; [lia|]. done.
Qed.

Lemma alter_back {A} (g : A → A) (l : list A) (x : A) :
  alter g (length (l ++ [x]) - 1) (l ++ [x]) = l ++ [g x].
Proof.
  rewrite length_app. simpl. replace (length l + 1 - 1) with (length l + 0) by lia.
  induction l as [|y l IH]; simpl; [done|]. f_equal. apply IH.
Qed.

Section PlannerFacts.
Context `{Analyses}.
Variable func : Function.
Variable explicit_only : bool.

Lemma proved_directions_explicit_only b name :
  explicit_only = true → proved_directions func explicit_only b name = (false, false).
Proof. intros ->. reflexivity. Qed.

Lemma synthesize_semaphore_folds factor extent fwd bwd b name body st body' st' d :
  synthesize_semaphore func factor extent fwd bwd b name body
    (push_back_fold {| dim := d; factor := factor; semaphore := None |} st) = Ok (body', st') →
  ∃ sema, dims_folded st' = dims_folded st ++ [{| dim := d; factor := factor; semaphore := Some sema |}].
Proof.
  unfold synthesize_semaphore. simpl.
  destruct (semaphore_amounts fwd bwd b name) as [[acq rel]| | | |]; simpl; try done.
  intros [= <- <-]. simpl. rewrite alter_back. eauto.
Qed.

Lemma fold_dimension_inv name op_min op_extent ft da provided required box d body chg st r st' :
  fold_dimension func explicit_only name op_min op_extent ft da provided required box
    d body chg st = Ok (r, st') →
  ∃ b sd,
    dim_bounds box provided required d = Ok b ∧ storage_dim func d = Ok sd ∧
    ((r = Continue body chg ∧ st' = st ∧ explicit_factor_of sd b name = None
      ∧ (proved_directions func explicit_only b name = (false, false)
         ∨ automatic_factor (extent_of b) name = Ok None))
     ∨ ∃ factor sem,
         chosen_factor explicit_only b sd name factor
         ∧ dims_folded st' = dims_folded st ++ [{| dim := d; factor := factor; semaphore := sem |}]).
Proof.
  unfold fold_dimension.
  destruct (dim_bounds box provided required d) as [b| | | |]; cbn [obind]; try done.
  destruct (storage_dim func d) as [sd| | | |]; cbn [obind]; try done.
  intros Hrun. exists b, sd. split; [done|]. split; [done|].
  unfold chosen_factor. fold (extent_of b) in Hrun.
  destruct (proved_directions func explicit_only b name) as [pf pb] eqn:Hpd.
  destruct (explicit_factor_of sd b name) as [ef|] eqn:Hef; cbn [changed] in Hrun.
  - (* a declared factor: whatever the directions, the fold is made *)
    right.
    set (dirs := if negb pf && negb pb && true then _ else _) in Hrun.
    assert (∃ fwd bwd body0 chg0, dirs = (fwd, bwd, body0, chg0) ∧ fwd || bwd = true)
      as (fwd & bwd & body0 & chg0 & -> & Hdir).
    { subst dirs. destruct pf, pb, (fold_forward sd); cbn; eauto 10. }
    rewrite Hdir in Hrun. cbn [obind] in Hrun.
    destruct (FoldStorageOfFunction _ _ _ _) as [rr| | | |]; cbn [obind] in Hrun; try done.
    destruct (async (schedule func)).
    + destruct (synthesize_semaphore _ _ _ _ _ _ _ _ _) as [[body1 st1]| | | |] eqn:Hs;
        cbn [obind] in Hrun; try done.
      apply synthesize_semaphore_folds in Hs as [sema Hs].
      exists ef, (Some sema). split; [by left|].
      destruct (can_prove _); by injection Hrun as <- <-.
    + exists ef, None. split; [by left|].
      cbn [obind] in Hrun. destruct (can_prove _); by injection Hrun as <- <-.
  - (* no factor declared for this loop *)
    rewrite andb_false_r in Hrun.
    destruct (pf || pb) eqn:Hdir.
    + destruct (automatic_factor (extent_of b) name) as [[f|]| | | |] eqn:Haf;
        cbn [obind] in Hrun; try done.
      * right.
        assert (explicit_only = false) as Heo.
        { destruct explicit_only; [|done]. unfold proved_directions in Hpd. simpl in Hpd.
          injection Hpd as <- <-. done. }
        destruct (FoldStorageOfFunction _ _ _ _) as [rr| | | |]; cbn [obind] in Hrun; try done.
        destruct (async (schedule func)).
        -- destruct (synthesize_semaphore _ _ _ _ _ _ _ _ _) as [[body1 st1]| | | |] eqn:Hs;
             cbn [obind] in Hrun; try done.
           apply synthesize_semaphore_folds in Hs as [sema Hs].
           exists f, (Some sema). split; [by right|].
           destruct (can_prove _); by injection Hrun as <- <-.
        -- exists f, None. split; [by right|].
           cbn [obind] in Hrun. destruct (can_prove _); by injection Hrun as <- <-.
      * left. injection Hrun as <- <-. by eauto.
    + left. injection Hrun as <- <-. apply orb_false_iff in Hdir as [-> ->]. by eauto.
Qed.
End PlannerFacts.

Lemma automatic_factor_spec `{Analyses} (extent : Expr) (name : string) (f : Expr) :
  automatic_factor extent name = Ok (Some f) →
  ∃ e k,
    as_const_int (find_constant_bound extent
                    (name, {| imin := loop_min name; imax := loop_max name |})) = Some e
    ∧ (0 ≤ k)%Z ∧ f = IntImm (2 ^ k) ∧ (e ≤ 2 ^ k ≤ 1024)%Z.
Proof.
  unfold automatic_factor.
  destruct (as_const_int _) as [e|]; [|done].
  destruct (e <=? max_fold)%Z eqn:He; [|done]. apply Z.leb_le in He.
  destruct (next_power_of_two e) as [p| | | |] eqn:Hp; cbn [obind]; try done.
  intros [= <-]. destruct (next_power_of_two_spec e p Hp He) as (k & Hk & -> & Hle).
  by exists e, k.
Qed.

Lemma automatic_factor_none `{Analyses} (extent : Expr) (name : string) :
  (∀ e, as_const_int (find_constant_bound extent
                        (name, {| imin := loop_min name; imax := loop_max name |})) = Some e →
        (1024 < e)%Z) →
  automatic_factor extent name = Ok None.
Proof.
  unfold automatic_factor. intros Hb.
  destruct (as_const_int _) as [e|]; [|done].
  specialize (Hb e eq_refl).
  destruct (e <=? max_fold)%Z eqn:He; [|done]. apply Z.leb_le in He.
  unfold max_fold in He. lia.
Qed.

(** C1.  In a round of the planner over a dimension for which the schedule
    declares no factor at this loop, every fold recorded has a factor
    [2 ^ k] with [e <= 2 ^ k <= 1024], where [e] is the constant upper bound
    found for the extent over the scope [loop_min, loop_max] of the loop
    variable; and when no constant bound of at most 1024 is found, the
    round records no fold and leaves the body as it was. *)
Theorem automatic_factor_power_of_two `{Analyses} (func : Function) (explicit_only : bool)
    (name : string) (op_min op_extent : Expr) (ft : ForType) (da : DeviceAPI)
    (provided required box : Box) (d : nat) (body : Stmt) (chg : bool)
    (st : PlannerState) (r : DimResult) (st' : PlannerState)
    (b : DimBounds) (sd : StorageDim) :
  dim_bounds box provided required d = Ok b →
  storage_dim func d = Ok sd →
  explicit_factor_of sd b name = None →
  fold_dimension func explicit_only name op_min op_extent ft da provided required box
    d body chg st = Ok (r, st') →
  let bound :=
    as_const_int (find_constant_bound (extent_of b)
                    (name, {| imin := loop_min name; imax := loop_max name |})) in
  adds_folds
    (fun f => dim f = d
              ∧ ∃ e k, bound = Some e ∧ (0 ≤ k)%Z ∧ factor f = IntImm (2 ^ k)
                       ∧ (e ≤ 2 ^ k ≤ 1024)%Z) st st'
  ∧ ((∀ e, bound = Some e → (1024 < e)%Z) → r = Continue body chg ∧ st' = st).
Proof.
  intros Hb Hsd Hef Hrun bound.
  apply fold_dimension_inv in Hrun as (b' & sd' & Hb' & Hsd' & Hcases).
  rewrite Hb in Hb'. rewrite Hsd in Hsd'. injection Hb' as <-. injection Hsd' as <-.
  destruct Hcases as [(-> & -> & _)|(f & sem & Hch & Hfolds)].
  - split; [|done]. exists []. by rewrite app_nil_r.
  - destruct Hch as [Hex|(_ & _ & Haf)]; [congruence|].
    split.
    + exists [{| dim := d; factor := f; semaphore := sem |}]. split; [done|].
      apply Forall_singleton. split; [done|]. simpl.
      apply automatic_factor_spec in Haf as (e & k & ? & ? & ? & ?). by exists e, k.
    + intros Hnone. apply automatic_factor_none in Hnone. congruence.
Qed.

Lemma automatic_factor_power_of_two_witness :
  ∃ r st',
    fold_dimension (H := example_analyses) (example_function None false) false
      "y" (IntImm 0) (IntImm 8) Serial DeviceNone window window window 0
      (Block example_produce example_consume) false
      {| dims_folded := []; name_counter := 0 |} = Ok (r, st')
    ∧ adds_folds
        (fun f => dim f = 0
                  ∧ ∃ e k, Some 3%Z = Some e ∧ (0 ≤ k)%Z ∧ factor f = IntImm (2 ^ k)
                           ∧ (e ≤ 2 ^ k ≤ 1024)%Z)
        {| dims_folded := []; name_counter := 0 |} st'.
Proof.
  eexists _, _. split.
  - vm_compute. reflexivity.
  - refine (proj1 (automatic_factor_power_of_two (H := example_analyses)
             (example_function None false) false
             "y" (IntImm 0) (IntImm 8) Serial DeviceNone window window window 0
             (Block example_produce example_consume) false
             {| dims_folded := []; name_counter := 0 |} _ _
             {| b_min := Variable_ (Int 32) "y";
                b_max := Add (Variable_ (Int 32) "y") (IntImm 2);
                min_provided := Variable_ (Int 32) "y";
                max_provided := Add (Variable_ (Int 32) "y") (IntImm 2);
                min_required := Variable_ (Int 32) "y";
                max_required := Add (Variable_ (Int 32) "y") (IntImm 2) |}
             {| var := "y"; fold_factor := None; fold_forward := true |}
             _ _ _ _)); reflexivity.
Defined.

(** C9.  The planner returns a loop that is neither serial nor unrolled as
    the node it was given: the body is not visited, so nothing nested in
    it is considered, and the planner's state, with the folds recorded so
    far, is unchanged. *)
Theorem parallel_loop_untouched `{Analyses} (func : Function) (explicit_only : bool)
    (name : string) (op_min op_extent : Expr) (ft : ForType) (da : DeviceAPI)
    (body : Stmt) (st : PlannerState) :
  ft ≠ Serial → ft ≠ Unrolled →
  AttemptStorageFoldingOfFunction func explicit_only
    (For name op_min op_extent ft da body) st = Ok (None, st).
Proof. intros Hs Hu. by destruct ft. Qed.

Lemma parallel_loop_untouched_witness :
  AttemptStorageFoldingOfFunction (H := example_analyses) (example_function None false) false
    (For "y" (IntImm 0) (IntImm 8) Parallel DeviceNone (Block example_produce example_consume))
    {| dims_folded := []; name_counter := 0 |}
  = Ok (None, {| dims_folded := []; name_counter := 0 |}).
Proof. apply parallel_loop_untouched; discriminate. Defined.

Lemma adds_folds_refl (P : Fold → Prop) st : adds_folds P st st.
Proof. exists []. by rewrite app_nil_r. Qed.

Lemma adds_folds_trans (P : Fold → Prop) st1 st2 st3 :
  adds_folds P st1 st2 → adds_folds P st2 st3 → adds_folds P st1 st3.
Proof.
  intros (n1 & E1 & F1) (n2 & E2 & F2). exists (n1 ++ n2).
  split; [by rewrite E2, E1, app_assoc|]. by apply Forall_app.
Qed.

Create HintDb planner.
#[local] Hint Resolve adds_folds_refl adds_folds_trans : planner.

Section PlannerEquations.
Context `{Analyses}.
Variable func : Function.
Variable explicit_only : bool.

Local Abbreviation att := (attempt func explicit_only).

Lemma attempt_LetStmt n nm v b st :
  att n (LetStmt nm v b) st =
  let* '(b', st) := att n b st in Ok (rebuild (changed b') (LetStmt nm v (pick b b')), st).
Proof. by destruct n. Qed.

Lemma attempt_ProducerConsumer n nm p b st :
  att n (ProducerConsumer nm p b) st =
  if String.eqb nm (fn_name func) then Ok (None, st)
  else let* '(b', st) := att n b st in
       Ok (rebuild (changed b') (ProducerConsumer nm p (pick b b')), st).
Proof. by destruct n. Qed.

Lemma attempt_For n nm mn ex ft da b st :
  att (S n) (For nm mn ex ft da b) st
  = visit_For func explicit_only (att n) nm mn ex ft da b st.
Proof. reflexivity. Qed.

Lemma attempt_Acquire n sem cnt b st :
  att n (Acquire sem cnt b) st =
  let* '(b', st) := att n b st in Ok (rebuild (changed b') (Acquire sem cnt (pick b b')), st).
Proof. by destruct n. Qed.

Lemma attempt_Realize n nm tys bounds c b st :
  att n (Realize nm tys bounds c b) st =
  let* '(b', st) := att n b st in
  Ok (rebuild (changed b') (Realize nm tys bounds c (pick b b')), st).
Proof. by destruct n. Qed.

Lemma attempt_Block n a b st :
  att n (Block a b) st =
  let* '(a', st) := att n a st in
  let* '(b', st) := att n b st in
  Ok (rebuild (changed a' || changed b') (Block (pick a a') (pick b b')), st).
Proof. by destruct n. Qed.

Lemma attempt_IfThenElse n c t e st :
  att n (IfThenElse c t e) st =
  let* '(t', st) := att n t st in
  let* '(e', st) := match e with
                    | Some e0 => att n e0 st
                    | None => Ok (None, st)
                    end in
  Ok (rebuild (changed t' || changed e')
        (IfThenElse c (pick t t') (option_map (fun e0 => pick e0 e') e)), st).
Proof. by destruct n. Qed.

Lemma attempt_leaf n s st :
  match s with AssertStmt _ _ | Provide _ _ _ | Evaluate _ => True | _ => False end →
  att n s st = Ok (None, st).
Proof. by destruct n, s. Qed.
End PlannerEquations.

(** ** Folds made when only declared factors are honoured *)
Section ExplicitOnly.
Context `{Analyses}.
Variable func : Function.

Lemma fold_dimension_explicit_only name op_min op_extent ft da provided required box d
    body chg st r st' :
  fold_dimension func true name op_min op_extent ft da provided required box d body chg st
  = Ok (r, st') →
  adds_folds (explicit_fold func) st st'.
Proof.
  intros Hrun.
  apply fold_dimension_inv in Hrun as (b & sd & Hb & Hsd & Hcases).
  destruct Hcases as [(_ & -> & _)|(f & sem & Hch & Hfolds)]; [apply adds_folds_refl|].
  destruct Hch as [Hex|(_ & ? & _)]; [|done].
  exists [{| dim := d; factor := f; semaphore := sem |}]. split; [done|].
  apply Forall_singleton. exists sd. simpl. split.
  - unfold storage_dim in Hsd. by destruct (storage_dims (schedule func) !! d); simplify_eq.
  - unfold explicit_factor_of in Hex. by destruct (_ || _).
Qed.

Lemma fold_dimensions_explicit_only name op_min op_extent ft da provided required box i :
  ∀ body chg st r st',
  fold_dimensions func true name op_min op_extent ft da provided required box i body chg st
  = Ok (r, st') →
  adds_folds (explicit_fold func) st st'.
Proof.
  induction i as [|d IH]; intros body chg st r st'; cbn [fold_dimensions].
  - intros [= <- <-]. apply adds_folds_refl.
  - destruct (fold_dimension _ _ _ _ _ _ _ _ _ _ _ _ _ _) as [[r1 st1]| | | |] eqn:E;
      cbn [obind]; try done.
    apply fold_dimension_explicit_only in E.
    destruct r1 as [body1 chg1|stmt].
    + intros Hrest. apply IH in Hrest. eauto with planner.
    + by intros [= <- <-].
Qed.

Lemma attempt_explicit_only n :
  ∀ s st r st',
  attempt func true n s st = Ok (r, st') → adds_folds (explicit_fold func) st st'.
Proof.
  induction n as [|n IHn]; intros s;
    induction s as [nm v b IHb|c m|nm p b IHb|nm mn ex ft da b IHb|sem cnt b IHb
                   |nm values args|nm tys bounds c b IHb|a b IHa IHb|c t e IHt IHe|v]
      using Stmt_ind'; intros st r st';
    rewrite ?attempt_LetStmt, ?attempt_ProducerConsumer, ?attempt_Acquire,
      ?attempt_Realize, ?attempt_Block, ?attempt_IfThenElse, ?attempt_For;
    try (rewrite attempt_leaf by done; intros [= <- <-]; apply adds_folds_refl);
    try (destruct (String.eqb nm (fn_name func));
         [intros [= <- <-]; apply adds_folds_refl|]);
    try done;
    try (destruct (attempt func true _ b st) as [[b' st1]| | | |] eqn:Eb;
         cbn [obind]; try done; intros [= <- <-]; by eapply IHb).
  (* Block, IfThenElse, twice; For at depth S n *)
  all: try (destruct (attempt func true _ a st) as [[a' st1]| | | |] eqn:Ea;
            cbn [obind]; try done;
            destruct (attempt func true _ b st1) as [[b' st2]| | | |] eqn:Eb;
            cbn [obind]; try done; intros [= <- <-];
            eapply adds_folds_trans; [by eapply IHa|by eapply IHb]).
  all: try (destruct (attempt func true _ t st) as [[t' st1]| | | |] eqn:Et;
            cbn [obind]; try done;
            destruct e as [e0|]; cbn [obind];
            [destruct (attempt func true _ e0 st1) as [[e' st2]| | | |] eqn:Ee;
             cbn [obind]; try done; intros [= <- <-];
             eapply adds_folds_trans; [by eapply IHt|by eapply IHe]
            |intros [= <- <-]; by eapply IHt]).
  unfold visit_For. destruct ft; try (intros [= <- <-]; apply adds_folds_refl).
  all: destruct (fold_dimensions _ _ _ _ _ _ _ _ _ _ _ _ _ _) as [[r1 st1]| | | |] eqn:E;
    cbn [obind]; try done;
    apply fold_dimensions_explicit_only in E;
    (destruct r1 as [body1 chg1|stmt]; [|by intros [= <- <-]]);
    (destruct (box_contains _ _); cbn [obind];
     [destruct (attempt func true n body1 st1) as [[r2 st2]| | | |] eqn:E2;
      cbn [obind]; try done; intros [= <- <-];
      eapply adds_folds_trans; [done|by eapply IHn]
     |by intros [= <- <-]]).
Qed.
End ExplicitOnly.

(** ** The fuel of the planner is enough *)

Lemma FoldStorageOfFunction_loop_depth func dim factor s r :
  FoldStorageOfFunction func dim factor s = Ok r → loop_depth (pick s r) = loop_depth s.
Proof.
  unfold FoldStorageOfFunction. revert r.
  induction s as [nm v b IHb|c m|nm p b IHb|nm mn ex ft da b IHb|sem cnt b IHb
                 |nm values args|nm tys bounds c b IHb|a b IHa IHb|c t e IHt IHe|v]
    using Stmt_ind'; intros r Hr; cbn [mutate_stmt] in Hr;
    repeat step_outcome Hr.
  all: try (injection Hr as <-; rewrite pick_rebuild;
            match goal with |- context [if ?c then _ else _] => destruct c end;
            cbn [loop_depth]; erewrite ?IHb, ?IHa by done; done).
  - (* Provide *)
    unfold FoldStorage_visit_Provide in E1.
    destruct (String.eqb nm func).
    + destruct (_ !! dim); [|done]. injection E1 as <-. by injection Hr as <-.
    + injection E1 as <-. injection Hr as <-. rewrite pick_rebuild. by destruct (_ || _).
  - (* IfThenElse *)
    injection Hr as <-. rewrite pick_rebuild.
    destruct (_ || _); [|done]. cbn [loop_depth]. erewrite IHt by done.
    destruct e as [e0|]; [|done]. simpl. by erewrite IHe.
Qed.

Lemma fueled_bind {A B} (m : Outcome A) (f : A → Outcome B) :
  m ≠ OutOfFuel → (∀ a, m = Ok a → f a ≠ OutOfFuel) → obind m f ≠ OutOfFuel.
Proof. destruct m; simpl; eauto. Qed.

Section MutatorFuel.
Variable vV : Type_ → string → option Expr.
Variable vC : Type_ → string → list Expr → CallType → Outcome (option Expr).
Variable vP : string → list Expr → list Expr → Outcome (option Stmt).
Hypothesis vC_fueled : ∀ t n args ct, vC t n args ct ≠ OutOfFuel.
Hypothesis vP_fueled : ∀ n values args, vP n values args ≠ OutOfFuel.

Lemma mutate_exprs_fueled l :
  Forall (fun e => mutate_expr vV vC e ≠ OutOfFuel) l → mutate_exprs vV vC l ≠ OutOfFuel.
Proof.
  induction 1 as [|a l Ha _ IH]; simpl; [done|].
  apply fueled_bind; [done|intros ? _]. by apply fueled_bind.
Qed.

Lemma mutate_expr_fueled e : mutate_expr vV vC e ≠ OutOfFuel.
Proof.
  induction e as [| | |op a b IHa IHb|a IHa|c t f IHc IHt IHf|t n args ct IH|n v b IHv IHb]
    using Expr_ind'; try done; try rewrite mutate_expr_Call; cbn [mutate_expr];
    repeat (apply fueled_bind; [by auto using mutate_exprs_fueled|intros ? _]);
    try done.
  by case_match.
Qed.

Lemma mutate_region_fueled l : mutate_region vV vC l ≠ OutOfFuel.
Proof.
  induction l as [|[mn ex] l IH]; simpl; [done|].
  repeat (apply fueled_bind; [by auto using mutate_expr_fueled|intros ? _]). done.
Qed.

Lemma mutate_stmt_fueled s : mutate_stmt vV vC vP s ≠ OutOfFuel.
Proof.
  induction s as [nm v b IHb|c m|nm p b IHb|nm mn ex ft da b IHb|sem cnt b IHb
                 |nm values args|nm tys bounds c b IHb|a b IHa IHb|c t e IHt IHe|v]
    using Stmt_ind'; cbn [mutate_stmt];
    repeat (apply fueled_bind;
            [by auto using mutate_expr_fueled, mutate_region_fueled, mutate_exprs_fueled,
               Forall_true|intros ? _]);
    try done.
  - by case_match.
  - apply fueled_bind; [by destruct e|by intros ? _].
Qed.
End MutatorFuel.

Lemma FoldStorageOfFunction_fueled func dim factor s :
  FoldStorageOfFunction func dim factor s ≠ OutOfFuel.
Proof.
  apply mutate_stmt_fueled.
  - intros. unfold FoldStorage_visit_Call. by repeat case_match.
  - intros. unfold FoldStorage_visit_Provide. by repeat case_match.
Qed.

Section Fuel.
Context `{Analyses}.
Variable func : Function.
Variable explicit_only : bool.

Lemma synthesize_semaphore_loop_depth factor extent fwd bwd b name body st body' st' :
  synthesize_semaphore func factor extent fwd bwd b name body st = Ok (body', st') →
  loop_depth body' = loop_depth body.
Proof.
  unfold synthesize_semaphore. simpl. intros Hs. step_outcome Hs.
  destruct a as [acq rel]. injection Hs as <- <-. simpl. lia.
Qed.

Lemma fold_dimension_loop_depth name op_min op_extent ft da provided required box d
    body chg st body' chg' st' :
  fold_dimension func explicit_only name op_min op_extent ft da provided required box
    d body chg st = Ok (Continue body' chg', st') →
  loop_depth body' = loop_depth body.
Proof.
  unfold fold_dimension. intros Hrun. do 2 step_outcome Hrun.
  destruct (proved_directions _ _ _ _) as [pf pb].
  assert (∀ fwd bwd body0 chg0,
    loop_depth body0 = loop_depth body →
    (if fwd || bwd
     then
       let* '(factor, body, chg) :=
         match explicit_factor_of a0 a name with
         | Some ef =>
             Ok (Some ef,
                 Block (factor_too_small_assert func a0 ef (extent_of a) name) body0, true)
         | None => let* f := automatic_factor (extent_of a) name in Ok (f, body0, chg0)
         end in
       match factor with
       | Some factor =>
           let st := push_back_fold {| dim := d; factor := factor; semaphore := None |} st in
           let* r := FoldStorageOfFunction (fn_name func) d factor body in
           let chg := chg || changed r in
           let body := pick body r in
           let* '(body, chg, st) :=
             if async (schedule func)
             then let* '(body, st) :=
                    synthesize_semaphore func factor (extent_of a) fwd bwd a name body st in
                  Ok (body, true, st)
             else Ok (body, chg, st) in
           if can_prove (LT (b_max a)
                           (substitute name (Add (loop_var name) (IntImm 1)) (b_min a)))
           then Ok (Continue body chg, st)
           else Ok (Return (rebuild chg (For name op_min op_extent ft da body)), st)
       | None => Ok (Continue body chg, st)
       end
     else Ok (Continue body0 chg0, st)) = Ok (Continue body' chg', st') →
    loop_depth body' = loop_depth body) as Hgen.
  { clear Hrun. intros fwd bwd body0 chg0 Hd Hrun.
    destruct (fwd || bwd); [|injection Hrun as <- <- <-; done].
    destruct (explicit_factor_of a0 a name) as [ef|]; cbn [obind] in Hrun.
    - step_outcome Hrun. apply FoldStorageOfFunction_loop_depth in E1.
      change (loop_depth (Block _ body0)) with (loop_depth body0) in E1.
      destruct (async (schedule func)).
      + step_outcome Hrun. step_outcome E2. destruct a3 as [body2 st2].
        injection E2 as <-. apply synthesize_semaphore_loop_depth in E3.
        destruct (can_prove _); [|done]. injection Hrun as <- <- <-. lia.
      + cbn [obind] in Hrun.
        destruct (can_prove _); [|done]. injection Hrun as <- <- <-. lia.
    - step_outcome Hrun. step_outcome E1. injection E1 as <-.
      destruct a2 as [f|]; [|injection Hrun as <- <- <-; done].
      step_outcome Hrun. apply FoldStorageOfFunction_loop_depth in E1.
      destruct (async (schedule func)).
      + step_outcome Hrun. step_outcome E3. destruct a3 as [body2 st2].
        injection E3 as <-. apply synthesize_semaphore_loop_depth in E4.
        destruct (can_prove _); [|done]. injection Hrun as <- <- <-. lia.
      + cbn [obind] in Hrun.
        destruct (can_prove _); [|done]. injection Hrun as <- <- <-. lia. }
  destruct (negb pf && negb pb && changed (explicit_factor_of a0 a name)).
  - eapply Hgen; [|exact Hrun]. simpl. lia.
  - eapply Hgen; [|exact Hrun]. done.
Qed.

Lemma fold_dimensions_loop_depth name op_min op_extent ft da provided required box i :
  ∀ body chg st body' chg' st',
  fold_dimensions func explicit_only name op_min op_extent ft da provided required box
    i body chg st = Ok (Continue body' chg', st') →
  loop_depth body' = loop_depth body.
Proof.
  induction i as [|d IH]; intros body chg st body' chg' st'; cbn [fold_dimensions].
  - by intros [= <- <- <-].
  - intros Hrun. step_outcome Hrun. destruct a as [[body1 chg1|stmt] st1]; [|done].
    apply fold_dimension_loop_depth in E. apply IH in Hrun. congruence.
Qed.

Lemma fold_dimension_fueled name op_min op_extent ft da provided required box d body chg st :
  fold_dimension func explicit_only name op_min op_extent ft da provided required box
    d body chg st ≠ OutOfFuel.
Proof.
  unfold fold_dimension.
  apply fueled_bind; [unfold dim_bounds; by repeat case_match|intros b _].
  apply fueled_bind; [unfold storage_dim; by repeat case_match|intros sd _].
  destruct (proved_directions _ _ _ _) as [pf pb].
  destruct (if negb pf && negb pb && _ then _ else _) as [[[fwd bwd] body0] chg0].
  destruct (fwd || bwd); [|done].
  apply fueled_bind.
  { destruct (explicit_factor_of sd b name); [done|].
    apply fueled_bind; [|done]. unfold automatic_factor.
    repeat case_match; try done. apply fueled_bind; [|done].
    unfold next_power_of_two. by case_match. }
  intros [[[f|] body1] chg1] _; [|done].
  apply fueled_bind; [apply FoldStorageOfFunction_fueled|intros rr _].
  apply fueled_bind; [|intros [[body2 chg2] st2] _; by case_match].
  destruct (async (schedule func)); [|done].
  apply fueled_bind; [|by intros [??] _].
  unfold synthesize_semaphore. simpl. apply fueled_bind; [|by intros [??] _].
  unfold semaphore_amounts. by repeat case_match.
Qed.

Lemma fold_dimensions_fueled name op_min op_extent ft da provided required box i :
  ∀ body chg st,
  fold_dimensions func explicit_only name op_min op_extent ft da provided required box
    i body chg st ≠ OutOfFuel.
Proof.
  induction i as [|d IH]; intros body chg st; cbn [fold_dimensions]; [done|].
  apply fueled_bind; [apply fold_dimension_fueled|].
  intros [[body1 chg1|stmt] st1] _; [apply IH|done].
Qed.

Lemma attempt_fuel n :
  ∀ s st, loop_depth s ≤ n → attempt func explicit_only n s st ≠ OutOfFuel.
Proof.
  induction n as [|n IHn]; intros s;
    induction s as [nm v b IHb|c m|nm p b IHb|nm mn ex ft da b IHb|sem cnt b IHb
                   |nm values args|nm tys bounds c b IHb|a b IHa IHb|c t e IHt IHe|v]
      using Stmt_ind'; intros st; cbn [loop_depth]; intros Hn;
    rewrite ?attempt_LetStmt, ?attempt_ProducerConsumer, ?attempt_Acquire,
      ?attempt_Realize, ?attempt_Block, ?attempt_IfThenElse, ?attempt_For;
    try (by rewrite attempt_leaf);
    try (destruct (String.eqb nm (fn_name func)); [done|]);
    try lia;
    try (apply fueled_bind; [by apply IHb|by intros [??] _]).
  all: try (apply fueled_bind; [apply IHa; lia|intros [??] _];
            apply fueled_bind; [apply IHb; lia|by intros [??] _]).
  all: try (apply fueled_bind; [apply IHt; lia|intros [??] _];
            apply fueled_bind; [|by intros [??] _];
            destruct e as [e0|]; [apply IHe; lia|done]).
  unfold visit_For. destruct ft; try done.
  all: apply fueled_bind; [apply fold_dimensions_fueled|];
    intros [[body1 chg1|stmt] st1] E; [|done];
    apply fold_dimensions_loop_depth in E;
    (apply fueled_bind; [|by intros [[??]?] _]);
    (destruct (box_contains _ _); [|done]);
    (apply fueled_bind; [apply IHn; lia|by intros [??] _]).
Qed.

(** The planner never runs out of the fuel it is started with. *)
Lemma AttemptStorageFoldingOfFunction_fueled s st :
  AttemptStorageFoldingOfFunction func explicit_only s st ≠ OutOfFuel.
Proof. by apply attempt_fuel. Qed.
End Fuel.

(** ** The semaphore of an asynchronous fold *)

Lemma eval_clamped (env : Env) (name : string) (to_acquire extent : Expr) :
  let clamped := Select (GT (loop_var name) (loop_min name)) (likely to_acquire) extent in
  ((env name ≤ env (name +:+ ".loop_min"))%Z → eval env clamped = eval env extent)
  ∧ ((env (name +:+ ".loop_min") < env name)%Z → eval env clamped = eval env to_acquire).
Proof.
  simpl. unfold Z.gtb.
  destruct (Z.compare_spec (env name) (env (name +:+ ".loop_min"))); simpl; split; intros;
    try done; lia.
Qed.

(** C8.  The semaphore synthesized for an asynchronous fold: with [fudge]
    the simplified substitution of the loop's [loop_min] for the loop
    variable in [extent - to_acquire], the initial count is
    [factor - fudge] and the amount acquired is [to_acquire] when [fudge]
    is a constant; otherwise the initial count is [factor] and the amount
    acquired is the conditional that is worth [extent] in the first
    iteration and [to_acquire] in every later one. *)
Theorem semaphore_initial_count `{Analyses} (func : Function) (factor extent : Expr)
    (can_fold_forwards can_fold_backwards : bool) (b : DimBounds) (name : string)
    (body : Stmt) (st : PlannerState) (to_acquire to_release : Expr) :
  semaphore_amounts can_fold_forwards can_fold_backwards b name
  = Ok (to_acquire, to_release) →
  let fudge := simplify (substitute name (loop_min name) (Sub extent to_acquire)) in
  ∃ sema amount,
    synthesize_semaphore func factor extent can_fold_forwards can_fold_backwards b name
      body st
    = Ok (Acquire (sema_var sema) amount
            (Block body
               (Evaluate (Call (Int 32) "halide_semaphore_release"
                            [sema_var sema; to_release] Extern))),
          set_back_semaphore sema
            {| dims_folded := dims_folded st; name_counter := S (name_counter st) |})
    ∧ if is_const fudge
      then sema_init sema = Sub factor fudge ∧ amount = to_acquire
      else sema_init sema = factor
           ∧ amount = Select (GT (loop_var name) (loop_min name)) (likely to_acquire) extent
           ∧ ∀ env : Env,
               ((env name ≤ env (name +:+ ".loop_min"))%Z →
                eval env amount = eval env extent)
               ∧ ((env (name +:+ ".loop_min") < env name)%Z →
                  eval env amount = eval env to_acquire).
Proof.
  intros Ham fudge. unfold synthesize_semaphore. cbn [unique_name]. rewrite Ham.
  cbn [obind].
  eexists {| sema_name := _; sema_var := _; sema_init := _ |}, _.
  split; [reflexivity|].
  cbn [sema_init]. unfold initial_count, acquired_amount, fudge_of. fold fudge.
  destruct (is_const fudge); [done|].
  split; [done|]. split; [done|]. intros env. apply eval_clamped.
Qed.

Lemma semaphore_initial_count_witness :
  ∃ sema amount,
    synthesize_semaphore (H := example_analyses) (example_function None true)
      (IntImm 4) (IntImm 3) true false
      {| b_min := Variable_ (Int 32) "y";
         b_max := Add (Variable_ (Int 32) "y") (IntImm 2);
         min_provided := Variable_ (Int 32) "y";
         max_provided := Add (Variable_ (Int 32) "y") (IntImm 2);
         min_required := Variable_ (Int 32) "y";
         max_required := Add (Variable_ (Int 32) "y") (IntImm 2) |}
      "y" (Block example_produce example_consume)
      {| dims_folded := [{| dim := 0; factor := IntImm 4; semaphore := None |}];
         name_counter := 0 |}
    = Ok (Acquire (sema_var sema) amount
            (Block (Block example_produce example_consume)
               (Evaluate (Call (Int 32) "halide_semaphore_release"
                            [sema_var sema;
                             Sub (Add (Variable_ (Int 32) "y") (IntImm 1))
                               (Variable_ (Int 32) "y")] Extern))),
          set_back_semaphore sema
            {| dims_folded := [{| dim := 0; factor := IntImm 4; semaphore := None |}];
               name_counter := 1 |})
    ∧ sema_init sema = IntImm 4.
Proof.
  destruct (semaphore_initial_count (H := example_analyses) (example_function None true)
              (IntImm 4) (IntImm 3) true false
              {| b_min := Variable_ (Int 32) "y";
                 b_max := Add (Variable_ (Int 32) "y") (IntImm 2);
                 min_provided := Variable_ (Int 32) "y";
                 max_provided := Add (Variable_ (Int 32) "y") (IntImm 2);
                 min_required := Variable_ (Int 32) "y";
                 max_required := Add (Variable_ (Int 32) "y") (IntImm 2) |}
              "y" (Block example_produce example_consume)
              {| dims_folded := [{| dim := 0; factor := IntImm 4; semaphore := None |}];
                 name_counter := 0 |}
              (Sub (Add (Variable_ (Int 32) "y") (IntImm 2))
                 (Add (Sub (Variable_ (Int 32) "y") (IntImm 1)) (IntImm 2)))
              (Sub (Add (Variable_ (Int 32) "y") (IntImm 1)) (Variable_ (Int 32) "y"))
              eq_refl) as (sema & amount & Hrun & Hinit).
  exists sema, amount. split; [exact Hrun|]. exact (proj1 Hinit).
Defined.

(** ** Special buffers *)

Lemma check_no_fold_factor_spec (name : string) (dims : list StorageDim) :
  ((∃ msg, check_no_fold_factor name dims = UserError msg)
   ↔ Exists (fun sd => is_Some (fold_factor sd)) dims)
  ∧ (Forall (fun sd => fold_factor sd = None) dims → check_no_fold_factor name dims = Ok tt).
Proof.
  induction dims as [|sd dims [IH1 IH2]]; simpl.
  - split; [|done]. split; [by intros [? ?]|by intros ?%Exists_nil].
  - destruct (fold_factor sd) as [f|] eqn:Hf.
    + split.
      * split; [intros _; left; by rewrite Hf|eauto].
      * intros Hall. apply Forall_cons_1 in Hall as [Hsd _]. congruence.
    + split.
      * rewrite IH1. split; [by right|].
        intros Hex. apply Exists_cons in Hex as [Hsd|?]; [|done].
        rewrite Hf in Hsd. by destruct Hsd.
      * intros Hall. apply Forall_cons_1 in Hall as [_ ?]. auto.
Qed.

(** C7.  For a realization whose buffer handle occurs in it (a handle-typed
    variable named after the buffer), once its body has been visited: the
    visit fails with a user error exactly when some storage dimension of
    the function declares a fold factor, and otherwise it returns the
    realization with the bounds it had and with the body its visit
    returned, the planner not being run on it. *)
Theorem special_buffer_never_folded `{Analyses} (env : gmap string Function)
    (nm : string) (tys : list Type_) (bounds : list Range) (c : Expr) (b : Stmt)
    (counter : nat) (b' : option Stmt) (counter' : nat) :
  IsBufferSpecial nm (Realize nm tys bounds c b) = true →
  StorageFolding env b counter = Ok (b', counter') →
  let dims := storage_dims (schedule (default default_Function (env !! nm))) in
  ((∃ msg, StorageFolding env (Realize nm tys bounds c b) counter = UserError msg)
   ↔ Exists (fun sd => is_Some (fold_factor sd)) dims)
  ∧ (Forall (fun sd => fold_factor sd = None) dims →
     StorageFolding env (Realize nm tys bounds c b) counter
     = Ok (if b' is Some body then Some (Realize nm tys bounds c body) else None, counter')).
Proof.
  intros Hspecial Hbody dims. cbn [StorageFolding]. rewrite Hbody. cbn [obind].
  unfold visit_Realize. rewrite Hspecial. fold dims.
  destruct (check_no_fold_factor_spec nm dims) as [Herr Hok]. split.
  - rewrite <- Herr. destruct (check_no_fold_factor nm dims); cbn [obind];
      split; intros [msg ?]; try done; eauto.
  - intros Hnone. rewrite (Hok Hnone). cbn [obind]. by destruct b'.
Qed.

Lemma special_buffer_never_folded_witness :
  StorageFolding (H := example_analyses) (example_env None false) pipeline_special 0
  = Ok (None, 0).
Proof.
  refine (proj2 (special_buffer_never_folded (H := example_analyses) (example_env None false)
                   "f" [Int 32] [(IntImm 0, IntImm 10)] (IntImm 1)
                   (example_loop
                      (Block (Evaluate (Call (Int 32) "extern_stage"
                                          [Variable_ Handle "f.buffer"] Extern))
                         (Block example_produce example_consume)))
                   0 None 0 _ _) _).
  - reflexivity.
  - reflexivity.
  - vm_compute. repeat constructor.
Defined.

(** ** Conservation of semaphore slots *)

Lemma eval_ext (e : Expr) :
  ∀ env env' : Env, (∀ x, env x = env' x) → eval env e = eval env' e.
Proof.
  induction e as [| | |op a b IHa IHb|a IHa|c t f IHc IHt IHf|t n args ct IH|n v b IHv IHb]
    using Expr_ind'; intros env env' Hext; cbn [eval]; try done.
  - by rewrite (IHa env env'), (IHb env env').
  - by rewrite (IHa env env').
  - by rewrite (IHc env env'), (IHt env env'), (IHf env env').
  - destruct args as [|a [|]]; try done.
    apply Forall_cons_1 in IH as [Ha _]. by rewrite (Ha env env').
  - rewrite (IHv env env') by done. apply IHb. intros x. unfold bind_var.
    by destruct (String.eqb x n).
Qed.

Lemma eval_rebind (e : Expr) (name : string) (i j : Z) (env : Env) :
  eval (bind_var name i (bind_var name j env)) e = eval (bind_var name i env) e.
Proof. apply eval_ext. intros x. unfold bind_var. by destruct (String.eqb x name). Qed.

Lemma eval_const (e : Expr) (env env' : Env) :
  is_const e = true → eval env e = eval env' e.
Proof. by destruct e. Qed.

Lemma append_other (s t : string) : t ≠ EmptyString → s +:+ t ≠ s.
Proof.
  intros Ht. induction s as [|c s IH]; simpl; [done|]. intros [= E]. by apply IH.
Qed.

Lemma loop_min_other (name : string) (i : Z) (env : Env) :
  bind_var name i env (name +:+ ".loop_min") = env (name +:+ ".loop_min").
Proof.
  unfold bind_var. destruct (String.eqb_spec (name +:+ ".loop_min") name) as [E|]; [|done].
  by apply append_other in E.
Qed.

Lemma bind_var_same (name : string) (i : Z) (env : Env) : bind_var name i env name = i.
Proof. unfold bind_var. by rewrite String.eqb_refl. Qed.

Lemma advance_chain (forwards : bool) (e : Expr) (name : string) (env : Env) (i j k : Z) :
  (advance forwards e name env i j + advance forwards e name env j k
   = advance forwards e name env i k)%Z.
Proof. unfold advance. destruct forwards; lia. Qed.

Lemma advance_none (forwards : bool) (e : Expr) (name : string) (env : Env) (i : Z) :
  advance forwards e name env i i = 0%Z.
Proof. unfold advance. destruct forwards; lia. Qed.

Lemma run_sema_free (h : string) (s : Stmt) :
  sema_free h s = true → ∀ env l, run h s env l = Some l.
Proof.
  induction s as [nm v b IHb|c m|nm p b IHb|nm mn ex ft da b IHb|sem cnt b IHb
                 |nm values args|nm tys bounds c b IHb|a b IHa IHb|c t e IHt IHe|v]
    using Stmt_ind'; cbn [sema_free run]; intros Hf env l; try done;
    repeat match goal with
           | H : _ && _ = true |- _ => apply andb_true_iff in H as [??]
           end; auto.
  - (* For *)
    generalize (eval env mn). revert l.
    induction (Z.to_nat (eval env ex)) as [|k IHk]; intros l i;
      cbn [iterate]; [done|]. by rewrite IHb, IHk.
  - (* Acquire *)
    destruct (is_handle_of h sem); [done|]. by apply IHb.
  - (* Block *)
    by rewrite IHa, IHb.
  - (* IfThenElse *)
    destruct (eval env c =? 0)%Z; [|auto]. destruct e as [e0|]; auto.
  - (* Evaluate *)
    destruct v as [| | | | | |t nm args ct|]; try done.
    destruct args as [|sem [|amount [|]]]; try done.
    by destruct (_ && _).
Qed.

(** The amounts of lines 253-265, evaluated in an iteration: what the
    leading edge has moved since the iteration before, and what the
    trailing edge will have moved by the next. *)
Lemma semaphore_amounts_eval `{Analyses} (forwards backwards : bool) (b : DimBounds)
    (name : string) (to_acquire to_release : Expr) :
  semaphore_amounts forwards backwards b name = Ok (to_acquire, to_release) →
  substitutes_in name (leading_edge forwards b) →
  substitutes_in name (trailing_edge forwards b) →
  ∀ (env : Env) (i : Z),
    eval (bind_var name i env) to_acquire
    = advance forwards (leading_edge forwards b) name env (i - 1) i
    ∧ eval (bind_var name i env) to_release
      = advance forwards (trailing_edge forwards b) name env i (i + 1).
Proof.
  unfold semaphore_amounts, substitutes_in, advance.
  destruct forwards; [|destruct backwards; [|done]];
    cbn [leading_edge trailing_edge]; intros [= <- <-] Hlead Htrail env i;
    cbn [eval eval_binop]; rewrite Hlead, Htrail; cbn [eval eval_binop loop_var];
    rewrite !bind_var_same, !eval_rebind; split; lia.
Qed.

(** One iteration of the bracket around a body that leaves the semaphore
    alone. *)
Lemma run_bracket (h : string) (amount to_release : Expr) (body : Stmt) (env : Env)
    (l : Ledger) :
  sema_free h body = true →
  (eval env amount ≤ free l)%Z →
  run h (semaphore_bracket (Variable_ Handle h) amount to_release body) env l
  = Some {| free := free l - eval env amount + eval env to_release;
            acquired := acquired l + eval env amount;
            released := released l + eval env to_release |}.
Proof.
  intros Hf Hle. unfold semaphore_bracket. cbn [run is_handle_of].
  rewrite String.eqb_refl. unfold acquire.
  destruct (Z.leb_spec (eval env amount) (free l)) as [_|?]; [|lia].
  rewrite (run_sema_free h body Hf). cbn [andb]. rewrite !String.eqb_refl. done.
Qed.

(** The iterations after the first, from one that finds free what the
    factor leaves beside the slots held. *)
Lemma run_later_iterations (h name : string) (forwards : bool) (b : DimBounds)
    (extent amount to_release : Expr) (body : Stmt) (env : Env) (first F : Z) :
  sema_free h body = true →
  (∀ i, (first < i)%Z →
     eval (bind_var name i env) amount
     = advance forwards (leading_edge forwards b) name env (i - 1) i) →
  (∀ i, eval (bind_var name i env) to_release
        = advance forwards (trailing_edge forwards b) name env i (i + 1)) →
  ∀ (count : nat) (i : Z) (l : Ledger),
    (first < i)%Z →
    (∀ j, (i ≤ j < i + Z.of_nat count)%Z →
       (slots_held forwards b extent name env first j ≤ F)%Z) →
    free l = (F - slots_held forwards b extent name env first (i - 1)
              + advance forwards (trailing_edge forwards b) name env (i - 1) i)%Z →
    ∃ final,
      iterate (fun i l =>
                 run h (semaphore_bracket (Variable_ Handle h) amount to_release body)
                   (bind_var name i env) l) count i l = Some final
      ∧ free final
        = (F - slots_held forwards b extent name env first (i + Z.of_nat count - 1)
           + advance forwards (trailing_edge forwards b) name env
               (i + Z.of_nat count - 1) (i + Z.of_nat count))%Z
      ∧ released final
        = (released l
           + advance forwards (trailing_edge forwards b) name env i (i + Z.of_nat count))%Z
      ∧ (acquired final - released final + free final
         = acquired l - released l + free l)%Z.
Proof.
  intros Hf Hacq Hrel. induction count as [|k IH]; intros i l Hi Hfit Hfree.
  - exists l. cbn [iterate]. split; [done|].
    replace (i + Z.of_nat 0 - 1)%Z with (i - 1)%Z by lia.
    replace (i + Z.of_nat 0)%Z with i by lia. rewrite advance_none.
    repeat split; try done; lia.
  - cbn [iterate].
    pose proof (advance_chain forwards (leading_edge forwards b) name env first (i - 1) i)
      as Hlead.
    pose proof (advance_chain forwards (trailing_edge forwards b) name env first (i - 1) i)
      as Htrail.
    pose proof (advance_chain forwards (trailing_edge forwards b) name env first i (i + 1))
      as Htrail'.
    assert (slots_held forwards b extent name env first i ≤ F)%Z as Hfit_i
      by (apply Hfit; lia).
    unfold slots_held in Hfree, Hfit_i.
    rewrite run_bracket; [|done|rewrite Hacq by done; lia].
    rewrite Hacq, Hrel by done.
    match goal with
    | |- context [iterate _ k _ ?l'] =>
        destruct (IH (i + 1)%Z l') as (final & Hrun & Hfinal & Hreleased & Hbalance)
    end; [lia|intros j Hj; apply Hfit; lia| |].
    { cbn [free]. unfold slots_held. replace (i + 1 - 1)%Z with i by lia. lia. }
    exists final. split; [exact Hrun|].
    replace (i + Z.of_nat (S k))%Z with (i + 1 + Z.of_nat k)%Z by lia.
    split; [exact Hfinal|]. cbn [released acquired free] in Hreleased, Hbalance.
    pose proof (advance_chain forwards (trailing_edge forwards b) name env i (i + 1)
                  (i + 1 + Z.of_nat k)) as Hrest.
    split; lia.
Qed.

(** The initial count and the amount of the first iteration (lines
    277-282): whichever way the first iteration is accounted for, it finds
    the amount it asks for when the extent fits the factor, and it leaves
    free what the factor leaves beside the extent. *)
Lemma first_iteration_amount `{Analyses} (factor extent to_acquire : Expr) (name : string)
    (env : Env) (first : Z) :
  substitutes_in name (Sub extent to_acquire) →
  simplifies (substitute name (loop_min name) (Sub extent to_acquire)) →
  env (name +:+ ".loop_min") = first →
  (eval env (initial_count factor extent to_acquire name)
   - eval (bind_var name first env) (acquired_amount extent to_acquire name)
   = eval env factor - eval (bind_var name first env) extent)%Z.
Proof.
  intros Hsub Hsimp Hmin. unfold initial_count, acquired_amount.
  destruct (is_const (fudge_of extent to_acquire name)) eqn:Hconst.
  - cbn [eval eval_binop].
    rewrite (eval_const _ env (bind_var name first env) Hconst).
    unfold fudge_of. rewrite Hsimp, Hsub. cbn [eval loop_min].
    rewrite loop_min_other, Hmin. cbn [eval eval_binop]. rewrite !eval_rebind. lia.
  - destruct (eval_clamped (bind_var name first env) name to_acquire extent) as [Hclamped _].
    rewrite Hclamped; [lia|]. rewrite bind_var_same, loop_min_other. lia.
Qed.

Lemma later_iteration_amount `{Analyses} (extent to_acquire : Expr) (name : string)
    (env : Env) (first i : Z) :
  env (name +:+ ".loop_min") = first →
  (first < i)%Z →
  eval (bind_var name i env) (acquired_amount extent to_acquire name)
  = eval (bind_var name i env) to_acquire.
Proof.
  intros Hmin Hi. unfold acquired_amount.
  destruct (is_const (fudge_of extent to_acquire name)); [done|].
  apply eval_clamped. rewrite bind_var_same, loop_min_other. lia.
Qed.

(** C2.  The semaphore synthesized for an asynchronous fold keeps the
    account of the slots of the folded buffer.  Take the amounts of lines
    253-265 and the initial count of lines 277-282, and run the loop, of
    at least one iteration, around the bracket the synthesis puts around
    the body (which itself leaves the new semaphore alone), from the
    semaphore at its initial count.  Where the analyses are right about
    the values of the bounds, and the slots held fit the factor in every
    iteration, no acquire waits; all that is released is what the trailing
    edge of the window has moved, the semaphore is left with the factor
    less the slots the last iteration held plus what that iteration
    released, and the total acquired is the total released plus the
    initial count minus the count that is left. *)
Theorem semaphore_slots_conserved `{Analyses} (func : Function) (factor extent : Expr)
    (can_fold_forwards can_fold_backwards : bool) (b : DimBounds) (name : string)
    (body : Stmt) (st : PlannerState) (body' : Stmt) (st' : PlannerState)
    (to_acquire to_release op_min op_extent : Expr) (ft : ForType) (da : DeviceAPI)
    (env : Env) (k : nat) :
  let h := fn_name func +:+ ".folding_semaphore." +:+ (unique_name "_" (name_counter st)).1 in
  let init := initial_count factor extent to_acquire name in
  let first := eval env op_min in
  let last := (first + Z.of_nat k)%Z in
  let trailing := trailing_edge can_fold_forwards b in
  synthesize_semaphore func factor extent can_fold_forwards can_fold_backwards b name
    body st = Ok (body', st') →
  semaphore_amounts can_fold_forwards can_fold_backwards b name
  = Ok (to_acquire, to_release) →
  sema_free h body = true →
  substitutes_in name (leading_edge can_fold_forwards b) →
  substitutes_in name trailing →
  substitutes_in name (Sub extent to_acquire) →
  simplifies (substitute name (loop_min name) (Sub extent to_acquire)) →
  env (name +:+ ".loop_min") = first →
  eval env op_extent = Z.of_nat (S k) →
  (∀ i, (first ≤ i ≤ last)%Z →
     (slots_held can_fold_forwards b extent name env first i ≤ eval env factor)%Z) →
  st' = set_back_semaphore
          {| sema_name := h; sema_var := Variable_ Handle h; sema_init := init |}
          {| dims_folded := dims_folded st; name_counter := S (name_counter st) |}
  ∧ ∃ final,
      run h (For name op_min op_extent ft da body') env
        {| free := eval env init; acquired := 0; released := 0 |} = Some final
      ∧ free final
        = (eval env factor - slots_held can_fold_forwards b extent name env first last
           + advance can_fold_forwards trailing name env last (last + 1))%Z
      ∧ released final = advance can_fold_forwards trailing name env first (last + 1)
      ∧ acquired final = (released final + eval env init - free final)%Z.
Proof.
  intros h init first last trailing Hsyn Hamounts Hfree Hlead Htrail Hsub Hsimp Hmin
    Hextent Hfit.
  unfold synthesize_semaphore in Hsyn. cbn [unique_name] in Hsyn.
  rewrite Hamounts in Hsyn. cbn [obind] in Hsyn. injection Hsyn as <- <-.
  split; [reflexivity|].
  cbn [run]. rewrite Hextent, Nat2Z.id. cbn [iterate]. fold first.
  pose proof (first_iteration_amount factor extent to_acquire name env first
                Hsub Hsimp Hmin) as Hfirst.
  fold init in Hfirst.
  assert (slots_held can_fold_forwards b extent name env first first ≤ eval env factor)%Z
    as Hfit0 by (apply Hfit; lia).
  unfold slots_held in Hfit0. rewrite !advance_none in Hfit0.
  rewrite run_bracket; [|exact Hfree|cbn [free]; lia].
  destruct (semaphore_amounts_eval _ _ _ _ _ _ Hamounts Hlead Htrail env first)
    as [_ Hrel0].
  rewrite Hrel0. cbn [free acquired released].
  match goal with
  | |- context [iterate _ k _ ?l'] =>
      destruct (run_later_iterations h name can_fold_forwards b extent
                  (acquired_amount extent to_acquire name) to_release body env first
                  (eval env factor) Hfree) with (count := k) (i := (first + 1)%Z) (l := l')
        as (final & Hrun & Hfinal & Hreleased & Hbalance)
  end.
  - intros i Hi. rewrite (later_iteration_amount extent to_acquire name env first i) by done.
    apply (semaphore_amounts_eval _ _ _ _ _ _ Hamounts Hlead Htrail env i).
  - intros i. apply (semaphore_amounts_eval _ _ _ _ _ _ Hamounts Hlead Htrail env i).
  - lia.
  - intros j Hj. apply Hfit. unfold last. lia.
  - cbn [free]. replace (first + 1 - 1)%Z with first by lia.
    unfold slots_held. rewrite !advance_none. fold trailing. lia.
  - exists final. split; [exact Hrun|].
    replace (first + 1 + Z.of_nat k - 1)%Z with last in Hfinal by (unfold last; lia).
    replace (first + 1 + Z.of_nat k)%Z with (last + 1)%Z in Hfinal, Hreleased
      by (unfold last; lia).
    split; [exact Hfinal|]. cbn [free acquired released] in Hreleased, Hbalance.
    pose proof (advance_chain can_fold_forwards trailing name env first (first + 1)
                  (last + 1)) as Hchain.
    fold trailing in Hreleased. split; lia.
Qed.

Lemma semaphore_slots_conserved_witness :
  ∃ body' st' final,
    synthesize_semaphore (H := example_analyses) (example_function None true)
      (IntImm 4) example_extent true false example_bounds
      "y" (Block example_produce example_consume)
      {| dims_folded := [{| dim := 0; factor := IntImm 4; semaphore := None |}];
         name_counter := 0 |}
    = Ok (body', st')
    ∧ run "f.folding_semaphore._0" (For "y" (IntImm 0) (IntImm 8) Serial DeviceNone body')
        (fun _ => 0%Z) {| free := 4; acquired := 0; released := 0 |} = Some final
    ∧ free final = 2%Z ∧ released final = 8%Z ∧ acquired final = 10%Z.
Proof.
  destruct (synthesize_semaphore (H := example_analyses) _ _ _ _ _ _ _ _ _)
    as [[body' st']| | | |] eqn:Hsyn; try (vm_compute in Hsyn; discriminate Hsyn).
  destruct (semaphore_slots_conserved (H := example_analyses) (example_function None true)
              (IntImm 4) example_extent true false example_bounds
              "y" (Block example_produce example_consume)
              {| dims_folded := [{| dim := 0; factor := IntImm 4; semaphore := None |}];
                 name_counter := 0 |}
              body' st'
              (Sub (Add (Variable_ (Int 32) "y") (IntImm 2))
                 (Add (Sub (Variable_ (Int 32) "y") (IntImm 1)) (IntImm 2)))
              (Sub (Add (Variable_ (Int 32) "y") (IntImm 1)) (Variable_ (Int 32) "y"))
              (IntImm 0) (IntImm 8) Serial DeviceNone (fun _ => 0%Z) 7)
    as [Hst (final & Hrun & Hfree & Hreleased & Hacquired)].
  - exact Hsyn.
  - vm_compute. reflexivity.
  - vm_compute. reflexivity.
  - intros env v. reflexivity.
  - intros env v. reflexivity.
  - intros env v. reflexivity.
  - intros env. reflexivity.
  - reflexivity.
  - reflexivity.
  - intros i Hi. unfold slots_held, advance. simpl. lia.
  - exists body', st', final. split; [reflexivity|].
    split; [exact Hrun|]. rewrite Hacquired, Hreleased, Hfree. vm_compute. done.
Defined.

(** ** The constant-propagation prepass *)

(** C4, at the failing input.  The inner binding of [x] is not a constant,
    and the use of [x] in its body is nevertheless replaced by the constant
    of the outer binding. *)
Theorem shadowed_use_replaced_by_outer_constant :
  SubstituteInConstants (H := example_analyses) ∅ shadowing_program
  = LetStmt "x" (IntImm 5)
      (LetStmt "x" (Variable_ (Int 32) "y") (Evaluate (IntImm 5))).
Proof. vm_compute. reflexivity. Qed.

(** ** Names drawn from the counter *)
Section CounterIndependence.
Context `{Analyses}.
Variable func : Function.
Variable explicit_only : bool.
Hypothesis not_async : async (schedule func) = false.

Lemma fold_dimension_counter name op_min op_extent ft da provided required box d
    body chg st r st' c :
  fold_dimension func explicit_only name op_min op_extent ft da provided required box
    d body chg st = Ok (r, st') →
  fold_dimension func explicit_only name op_min op_extent ft da provided required box
    d body chg (with_counter c st) = Ok (r, with_counter c st').
Proof.
  unfold fold_dimension. rewrite not_async. intros Hrun.
  do 2 (step_outcome Hrun; cbn [obind]).
  destruct (proved_directions _ _ _ _) as [pf pb].
  destruct (if negb pf && negb pb && _ then _ else _) as [[[fwd bwd] body0] chg0].
  destruct (fwd || bwd); [|by injection Hrun as <- <-].
  step_outcome Hrun; cbn [obind].
  destruct a1 as [[[f|] body1] chg1]; [|by injection Hrun as <- <-].
  step_outcome Hrun; cbn [obind] in *.
  destruct (can_prove _); by injection Hrun as <- <-.
Qed.

Lemma fold_dimensions_counter name op_min op_extent ft da provided required box i c :
  ∀ body chg st r st',
  fold_dimensions func explicit_only name op_min op_extent ft da provided required box
    i body chg st = Ok (r, st') →
  fold_dimensions func explicit_only name op_min op_extent ft da provided required box
    i body chg (with_counter c st) = Ok (r, with_counter c st').
Proof.
  induction i as [|d IH]; intros body chg st r st'; cbn [fold_dimensions].
  - by intros [= <- <-].
  - intros Hrun. step_outcome Hrun. destruct a as [r1 st1].
    rewrite (fold_dimension_counter _ _ _ _ _ _ _ _ _ _ _ _ _ _ c E). cbn [obind].
    destruct r1 as [body1 chg1|stmt]; [by apply IH|by injection Hrun as <- <-].
Qed.

Lemma attempt_counter n c :
  ∀ s st r st',
  attempt func explicit_only n s st = Ok (r, st') →
  attempt func explicit_only n s (with_counter c st) = Ok (r, with_counter c st').
Proof.
  induction n as [|n IHn]; intros s;
    induction s as [nm v b IHb|cd m|nm p b IHb|nm mn ex ft da b IHb|sem cnt b IHb
                   |nm values args|nm tys bounds cd b IHb|a b IHa IHb|cd t e IHt IHe|v]
      using Stmt_ind'; intros st r st';
    rewrite ?attempt_LetStmt, ?attempt_ProducerConsumer, ?attempt_Acquire,
      ?attempt_Realize, ?attempt_Block, ?attempt_IfThenElse, ?attempt_For;
    try (rewrite !attempt_leaf by done; by intros [= <- <-]);
    try (destruct (String.eqb nm (fn_name func)); [by intros [= <- <-]|]);
    try done;
    try (intros Hrun; step_outcome Hrun; destruct a as [b' st1];
         rewrite (IHb _ _ _ E); cbn [obind]; by injection Hrun as <- <-).
  all: try (intros Hrun; step_outcome Hrun; destruct a0 as [a' st1];
            rewrite (IHa _ _ _ E); cbn [obind];
            step_outcome Hrun; destruct a0 as [b' st2];
            rewrite (IHb _ _ _ E0); cbn [obind]; by injection Hrun as <- <-).
  all: try (intros Hrun; step_outcome Hrun; destruct a as [t' st1];
            rewrite (IHt _ _ _ E); cbn [obind];
            destruct e as [e0|];
            [step_outcome Hrun; destruct a as [e' st2];
             rewrite (IHe _ _ _ E0); cbn [obind]; by injection Hrun as <- <-
            |cbn [obind] in *; by injection Hrun as <- <-]).
  unfold visit_For. destruct ft; try (by intros [= <- <-]).
  all: intros Hrun; step_outcome Hrun; destruct a as [r1 st1];
    rewrite (fold_dimensions_counter _ _ _ _ _ _ _ _ _ c _ _ _ _ _ E); cbn [obind];
    (destruct r1 as [body1 chg1|stmt]; [|by injection Hrun as <- <-]);
    (destruct (box_contains _ _); cbn [obind] in *;
     [step_outcome Hrun; destruct a as [[body2 chg2] st2];
      step_outcome E0; destruct a as [r2 st3];
      rewrite (IHn _ _ _ _ E1); cbn [obind]; injection E0 as <- <- <-;
      by injection Hrun as <- <-
     |by injection Hrun as <- <-]).
Qed.
End CounterIndependence.

Section PassCounterIndependence.
Context `{Analyses}.
Variable env : gmap string Function.
Hypothesis no_async : ∀ nm f, env !! nm = Some f → async (schedule f) = false.

Lemma visit_Realize_counter nm tys bounds c b b' c1 r k1 c2 :
  visit_Realize env nm tys bounds c b b' c1 = Ok (r, k1) →
  visit_Realize env nm tys bounds c b b' c2 = Ok (r, c2).
Proof.
  unfold visit_Realize.
  assert (async (schedule (default default_Function (env !! nm))) = false) as Hasync.
  { destruct (env !! nm) as [f|] eqn:Hf; [by eapply no_async|done]. }
  destruct (IsBufferSpecial nm _).
  - intros Hrun. step_outcome Hrun; cbn [obind]. by injection Hrun as <- <-.
  - unfold AttemptStorageFoldingOfFunction. intros Hrun. step_outcome Hrun.
    destruct a as [r1 st1].
    apply (attempt_counter _ _ Hasync _ c2) in E. unfold with_counter in E at 1.
    cbn [dims_folded] in E. rewrite E. cbn [obind with_counter dims_folded name_counter].
    destruct (negb (changed b' || changed r1)); [by injection Hrun as <- <-|].
    destruct (dims_folded st1) as [|f folds]; [by injection Hrun as <- <-|].
    step_outcome Hrun; cbn [obind]. by injection Hrun as <- <-.
Qed.

Lemma StorageFolding_counter s :
  ∀ c1 r k1 c2,
  StorageFolding env s c1 = Ok (r, k1) → StorageFolding env s c2 = Ok (r, c2).
Proof.
  induction s as [nm v b IHb|cd m|nm p b IHb|nm mn ex ft da b IHb|sem cnt b IHb
                 |nm values args|nm tys bounds cd b IHb|a b IHa IHb|cd t e IHt IHe|v]
    using Stmt_ind'; intros c1 r k1 c2; cbn [StorageFolding];
    try (by intros [= <- <-]);
    try (intros Hrun; step_outcome Hrun; destruct a as [b' k];
         rewrite (IHb _ _ _ c2 E); cbn [obind];
         first [by injection Hrun as <- <-|by eapply visit_Realize_counter]).
  - intros Hrun. step_outcome Hrun. destruct a0 as [a' k].
    rewrite (IHa _ _ _ c2 E). cbn [obind].
    step_outcome Hrun. destruct a0 as [b' k'].
    rewrite (IHb _ _ _ c2 E0). cbn [obind]. by injection Hrun as <- <-.
  - intros Hrun. step_outcome Hrun. destruct a as [t' k].
    rewrite (IHt _ _ _ c2 E). cbn [obind].
    destruct e as [e0|].
    + step_outcome Hrun. destruct a as [e' k'].
      rewrite (IHe _ _ _ c2 E0). cbn [obind]. by injection Hrun as <- <-.
    + cbn [obind] in *. by injection Hrun as <- <-.
Qed.
End PassCounterIndependence.

(** C5, as amended.  When no function of the schedule metadata is
    asynchronous, a run of the pass from any state of the counter behind
    [unique_name] returns the tree that a run on the same statement and
    metadata from any other state of the counter returns. *)
Theorem runs_agree_without_async `{Analyses} (env : gmap string Function) (s : Stmt)
    (c1 c2 : nat) (r : Stmt) (k : nat) :
  (∀ nm f, env !! nm = Some f → async (schedule f) = false) →
  storage_folding env s c1 = Ok (r, k) →
  storage_folding env s c2 = Ok (r, c2).
Proof.
  unfold storage_folding. intros Hasync Hrun. step_outcome Hrun. destruct a as [r1 k1].
  rewrite (StorageFolding_counter env Hasync _ _ _ _ c2 E). cbn [obind].
  by injection Hrun as <- <-.
Qed.

Lemma runs_agree_without_async_witness :
  ∃ r k,
    storage_folding (H := example_analyses) (example_env None false) pipeline 0 = Ok (r, k)
    ∧ storage_folding (H := example_analyses) (example_env None false) pipeline 7 = Ok (r, 7).
Proof.
  eexists _, _. split.
  - vm_compute. reflexivity.
  - eapply (runs_agree_without_async (H := example_analyses) (example_env None false)
              pipeline 0 7).
    + intros nm f Hf. unfold example_env in Hf.
      apply lookup_singleton_Some in Hf as [_ <-]. reflexivity.
    + vm_compute. reflexivity.
Defined.

(** C5, as stated, fails: two runs of the pass in one process, the second
    from the counter the first has left, on the same pipeline with an
    asynchronous stage, return trees that differ in the name of the
    semaphore. *)
Lemma semaphore_name_differs_between_runs :
  ∃ v1 b1 v2 b2,
    storage_folding (H := example_analyses) (example_env None true) pipeline 0
    = Ok (LetStmt "f.folding_semaphore._0" v1 b1, 1)
    ∧ storage_folding (H := example_analyses) (example_env None true) pipeline 1
      = Ok (LetStmt "f.folding_semaphore._1" v2 b2, 2)
    ∧ LetStmt "f.folding_semaphore._0" v1 b1 ≠ LetStmt "f.folding_semaphore._1" v2 b2.
Proof.
  eexists _, _, _, _. split; [vm_compute; reflexivity|].
  split; [vm_compute; reflexivity|]. discriminate.
Qed.

(** ** The pass never runs out of fuel *)

Lemma StorageFolding_fueled `{Analyses} (env : gmap string Function) (s : Stmt) :
  ∀ counter, StorageFolding env s counter ≠ OutOfFuel.
Proof.
  induction s as [nm v b IHb|cd m|nm p b IHb|nm mn ex ft da b IHb|sem cnt b IHb
                 |nm values args|nm tys bounds cd b IHb|a b IHa IHb|cd t e IHt IHe|v]
    using Stmt_ind'; intros counter; cbn [StorageFolding]; try done;
    try (apply fueled_bind; [by apply IHb|intros [b' k] _; try done]).
  - (* Realize *)
    unfold visit_Realize. destruct (IsBufferSpecial nm _).
    + apply fueled_bind; [|done].
      induction (storage_dims _) as [|sd dims IH]; simpl; [done|]. by case_match.
    + apply fueled_bind; [apply AttemptStorageFoldingOfFunction_fueled|].
      intros [r st] _. destruct (negb _); [done|].
      destruct (dims_folded st) as [|f folds]; [done|].
      apply fueled_bind; [|done].
      generalize (f :: folds). intros l. revert bounds.
      induction l as [|x l IH]; intros bounds; simpl; [done|]. by case_match.
  - apply fueled_bind; [by apply IHa|intros [a' k] _].
    apply fueled_bind; [by apply IHb|by intros [b' k'] _].
  - apply fueled_bind; [by apply IHt|intros [t' k] _].
    apply fueled_bind; [|by intros [e' k'] _].
    destruct e as [e0|]; [by apply IHe|done].
Qed.

Lemma storage_folding_fueled `{Analyses} (env : gmap string Function) (s : Stmt)
    (counter : nat) :
  storage_folding env s counter ≠ OutOfFuel.
Proof.
  unfold storage_folding. apply fueled_bind; [apply StorageFolding_fueled|by intros [??] _].
Qed.

(** ** The scenarios of the specification, run *)

(** Scenario A: a window [y, y + 2] in a serial loop is folded by the
    factor 4, the next power of two from 3. *)
Example scenario_A :
  ∃ body,
    storage_folding (H := example_analyses) (example_env None false) pipeline 0
    = Ok (Realize "f" [Int 32] [(IntImm 0, IntImm 4)] (IntImm 1) body, 0)
    ∧ FoldStorageOfFunction "f" 0 (IntImm 4) (example_loop (Block example_produce example_consume))
      = Ok (Some body).
Proof. eexists. split; vm_compute; reflexivity. Qed.

(** Scenario B: with two productions of the buffer nothing is folded,
    unless the schedule declares a factor. *)
Example scenario_B :
  StorageFolding (H := example_analyses) (example_env None false) pipeline_two_producers 0
  = Ok (None, 0)
  ∧ ∃ body,
      StorageFolding (H := example_analyses) (example_env (Some (IntImm 8)) false)
        pipeline_two_producers 0
      = Ok (Some (Realize "f" [Int 32] [(IntImm 0, IntImm 8)] (IntImm 1) body), 0).
Proof. split; [|eexists]; vm_compute; reflexivity. Qed.

(** Scenario D: a buffer handed to an extern stage and scheduled with a
    fold factor is a user error. *)
Example scenario_D :
  ∃ msg,
    storage_folding (H := example_analyses) (example_env (Some (IntImm 8)) false)
      pipeline_special 0 = UserError msg.
Proof. eexists. vm_compute. reflexivity. Qed.

(** * Further properties of the pass *)

(** ** next_power_of_two *)

(** X1.  On an argument from 1 to 1024, [next_power_of_two] returns the
    least power of two that is not below its argument: a power of two that
    is at least the argument and less than twice the argument. *)
Theorem next_power_of_two_least (x : Z) :
  (1 ≤ x ≤ max_fold)%Z →
  ∃ k, (0 ≤ k)%Z ∧ next_power_of_two x = Ok (2 ^ k)%Z
       ∧ (x ≤ 2 ^ k)%Z ∧ (2 ^ k < 2 * x)%Z.
Proof.
  intros [Hx _]. unfold next_power_of_two.
  destruct (1 <=? x)%Z eqn:E; [|apply Z.leb_gt in E; lia].
  exists (Z.log2_up x). pose proof (Z.log2_up_nonneg x) as Hk.
  rewrite Z.shiftl_1_l. split; [done|]. split; [done|].
  destruct (Z.eq_dec x 1%Z) as [->|Hne]; [by compute|].
  destruct (Z.log2_up_spec x) as [Hlo Hhi]; [lia|]. split; [done|].
  replace (Z.log2_up x) with (Z.succ (Z.pred (Z.log2_up x))) by lia.
  rewrite Z.pow_succ_r; [lia|].
  assert (0 < Z.log2_up x)%Z by (apply Z.log2_up_pos; lia). lia.
Qed.

Lemma next_power_of_two_least_witness :
  ∃ k, (0 ≤ k)%Z ∧ next_power_of_two 3 = Ok (2 ^ k)%Z
       ∧ (3 ≤ 2 ^ k)%Z ∧ (2 ^ k < 2 * 3)%Z.
Proof. apply next_power_of_two_least. unfold max_fold. lia. Defined.


(** ** The index rewriter: when it fails *)

Lemma fails_bind {A B} (m : Outcome A) (f : A → Outcome B) :
  fails m → fails (obind m f).
Proof. by destruct m. Qed.

Section FoldStorageFailure.
Variable func : string.
Variable dim : nat.
Variable factor : Expr.

Local Abbreviation fe := (FoldStorage_expr func dim factor).
Local Abbreviation fes :=
  (mutate_exprs (fun _ _ => None) (FoldStorage_visit_Call func dim factor)).

Lemma FoldStorage_exprs_ok (l : list Expr) :
  forallb (indexed func dim) l = true →
  fes l = Ok (map (fun e => rebuild (reads func e) (rewrite_expr func dim factor e)) l).
Proof.
  intros Hl. apply FoldStorage_exprs_spec; [|done].
  apply Forall_forall. intros e _. apply FoldStorage_expr_spec.
Qed.

Lemma FoldStorage_exprs_fails (l : list Expr) :
  Forall (fun e => indexed func dim e = false → fails (fe e)) l →
  forallb (indexed func dim) l = false → fails (fes l).
Proof.
  induction 1 as [|a l Ha _ IH]; simpl; [done|]. intros Hl.
  destruct (indexed func dim a) eqn:Ea.
  - pose proof (FoldStorage_expr_spec func dim factor a Ea) as E.
    unfold FoldStorage_expr in E. rewrite E. cbn [obind].
    apply fails_bind, IH. by rewrite andb_true_l in Hl.
  - apply fails_bind. by apply Ha.
Qed.

Lemma FoldStorage_expr_fails e : indexed func dim e = false → fails (fe e).
Proof.
  unfold FoldStorage_expr.
  induction e as [| | |op a b IHa IHb|a IHa|c t f IHc IHt IHf|t n args ct IH|n v b IHv IHb]
    using Expr_ind'; cbn [indexed]; intros Hi; try done;
    try rewrite mutate_expr_Call; cbn [mutate_expr];
    repeat match goal with
           | |- fails (obind (mutate_expr _ _ ?e) _) =>
               destruct (indexed func dim e) eqn:?;
               [let E := fresh "E" in
                pose proof (FoldStorage_expr_spec func dim factor e ltac:(done)) as E;
                unfold FoldStorage_expr in E; rewrite E; clear E; cbn [obind]
               |apply fails_bind; auto]
           end; try done.
  destruct (forallb (indexed func dim) args) eqn:Hargs.
  - rewrite FoldStorage_exprs_ok by done. cbn [obind]. cbv zeta.
    rewrite merge_results. simpl in Hi.
    apply orb_false_iff in Hi as [Hr Hd]. apply negb_false_iff in Hr.
    apply bool_decide_eq_false in Hd.
    unfold FoldStorage_visit_Call. unfold is_read in Hr. rewrite Hr.
    destruct (_ !! dim) eqn:Hl; [|done].
    apply lookup_lt_Some in Hl. rewrite length_map in Hl. lia.
  - apply fails_bind. by apply FoldStorage_exprs_fails.
Qed.

Lemma FoldStorage_exprs_fails' (l : list Expr) :
  forallb (indexed func dim) l = false → fails (fes l).
Proof.
  apply FoldStorage_exprs_fails, Forall_forall. intros e _. apply FoldStorage_expr_fails.
Qed.

Lemma FoldStorage_region_fails (l : list Range) :
  forallb (indexed_range func dim) l = false →
  fails (mutate_region (fun _ _ => None) (FoldStorage_visit_Call func dim factor) l).
Proof.
  induction l as [|[mn ex] l IH]; simpl; [done|]. unfold indexed_range at 1. simpl.
  intros Hl.
  destruct (indexed func dim mn) eqn:Emn;
    [|apply fails_bind; by apply FoldStorage_expr_fails].
  pose proof (FoldStorage_expr_spec func dim factor mn Emn) as E.
  unfold FoldStorage_expr in E. rewrite E. clear E. cbn [obind].
  destruct (indexed func dim ex) eqn:Eex;
    [|apply fails_bind; by apply FoldStorage_expr_fails].
  pose proof (FoldStorage_expr_spec func dim factor ex Eex) as E.
  unfold FoldStorage_expr in E. rewrite E. clear E. cbn [obind].
  apply fails_bind, IH. done.
Qed.

Lemma FoldStorageOfFunction_fails s :
  well_indexed func dim s = false → fails (FoldStorageOfFunction func dim factor s).
Proof.
  unfold FoldStorageOfFunction.
  induction s as [nm v b IHb|c m|nm p b IHb|nm mn ex ft da b IHb|sem cnt b IHb
                 |nm values args|nm tys bounds c b IHb|a b IHa IHb|c t e IHt IHe|v]
    using Stmt_ind'; cbn [well_indexed mutate_stmt]; intros Hi;
    repeat first
      [ match goal with
        | |- fails (obind (mutate_expr _ _ ?e) _) =>
            destruct (indexed func dim e) eqn:?;
            [let E := fresh "E" in
             pose proof (FoldStorage_expr_spec func dim factor e ltac:(done)) as E;
             unfold FoldStorage_expr in E; rewrite E; clear E; cbn [obind]
            |apply fails_bind; by apply FoldStorage_expr_fails]
        | |- fails (obind (mutate_stmt _ _ _ ?s) _) =>
            destruct (well_indexed func dim s) eqn:?;
            [let E := fresh "E" in
             pose proof (FoldStorageOfFunction_spec func dim factor s ltac:(done)) as E;
             unfold FoldStorageOfFunction in E; rewrite E; clear E; cbn [obind]
            |apply fails_bind; auto]
        | |- fails (obind (mutate_exprs _ _ ?l) _) =>
            destruct (forallb (indexed func dim) l) eqn:?;
            [rewrite FoldStorage_exprs_ok by done; cbn [obind]
            |apply fails_bind; by apply FoldStorage_exprs_fails']
        | |- fails (obind (mutate_region _ _ ?l) _) =>
            destruct (forallb (indexed_range func dim) l) eqn:?;
            [rewrite FoldStorage_region_spec by done; cbn [obind]
            |apply fails_bind; by apply FoldStorage_region_fails]
        end ];
    try done.
  - (* Provide *)
    cbv zeta. rewrite !merge_results. simpl in Hi.
    apply orb_false_iff in Hi as [Hn Hd]. apply negb_false_iff in Hn.
    apply bool_decide_eq_false in Hd.
    unfold FoldStorage_visit_Provide. rewrite Hn.
    destruct (_ !! dim) eqn:Hl; [|done].
    apply lookup_lt_Some in Hl. rewrite length_map in Hl. lia.
  - (* IfThenElse *)
    destruct e as [e0|]; [|done].
    apply fails_bind. simpl in Hi. auto.
Qed.
End FoldStorageFailure.

(** X2.  The index rewriter returns a tree exactly when every read and
    every write of the buffer in the statement has an index at position
    [dim]; otherwise it stops on its failed assertion (a read) or on the
    unchecked index (a write), and never returns a partly rewritten tree. *)
Theorem index_rewriter_fails_out_of_range (func : string) (dim : nat) (factor : Expr)
    (s : Stmt) :
  ((∃ r, FoldStorageOfFunction func dim factor s = Ok r) ↔ well_indexed func dim s = true)
  ∧ (fails (FoldStorageOfFunction func dim factor s) ↔ well_indexed func dim s = false).
Proof.
  destruct (well_indexed func dim s) eqn:Hw.
  - rewrite FoldStorageOfFunction_spec by done. split; split; try done; eauto.
  - pose proof (FoldStorageOfFunction_fails func dim factor s Hw) as Hf.
    split; split; try done. intros [r Hr]. rewrite Hr in Hf. done.
Qed.

(** ** The producer count under the rewrites *)

Lemma FoldStorageOfFunction_count func dim factor s r nm :
  FoldStorageOfFunction func dim factor s = Ok r →
  count_producers (pick s r) nm = count_producers s nm.
Proof.
  unfold FoldStorageOfFunction. revert r.
  induction s as [n v b IHb|c m|n p b IHb|n mn ex ft da b IHb|sem cnt b IHb
                 |n values args|n tys bounds c b IHb|a b IHa IHb|c t e IHt IHe|v]
    using Stmt_ind'; intros r Hr; cbn [mutate_stmt] in Hr;
    repeat step_outcome Hr.
  all: try (injection Hr as <-; rewrite pick_rebuild;
            match goal with |- context [if ?c then _ else _] => destruct c end;
            cbn [count_producers]; erewrite ?IHb, ?IHa by done; done).
  - (* Provide *)
    unfold FoldStorage_visit_Provide in E1.
    destruct (String.eqb n func).
    + destruct (_ !! dim); [|done]. injection E1 as <-. by injection Hr as <-.
    + injection E1 as <-. injection Hr as <-. rewrite pick_rebuild. by destruct (_ || _).
  - (* IfThenElse *)
    injection Hr as <-. rewrite pick_rebuild.
    destruct (_ || _); [|done]. cbn [count_producers]. erewrite IHt by done.
    destruct e as [e0|]; [|done]. simpl. by erewrite IHe.
Qed.

(** X3.  The index rewriter leaves the producer count of every buffer as
    it was: rewriting indices never adds, removes or renames a production. *)
Theorem index_rewriter_keeps_producer_count (func : string) (dim : nat) (factor : Expr)
    (s : Stmt) (r : option Stmt) (name : string) :
  FoldStorageOfFunction func dim factor s = Ok r →
  count_producers (pick s r) name = count_producers s name.
Proof. apply FoldStorageOfFunction_count. Qed.

Lemma index_rewriter_keeps_producer_count_witness :
  ∃ r, FoldStorageOfFunction "f" 0 (IntImm 4) pipeline_two_producers = Ok r
       ∧ count_producers (pick pipeline_two_producers r) "f"
         = count_producers pipeline_two_producers "f".
Proof.
  eexists. split.
  - vm_compute. reflexivity.
  - apply (index_rewriter_keeps_producer_count "f" 0 (IntImm 4)). vm_compute. reflexivity.
Defined.

Lemma SubstituteInConstants_skeleton `{Analyses} (scope : gmap string (list Expr))
    (s : Stmt) :
  (∀ name, count_producers (SubstituteInConstants scope s) name = count_producers s name)
  ∧ loop_depth (SubstituteInConstants scope s) = loop_depth s
  ∧ realize_free (SubstituteInConstants scope s) = realize_free s.
Proof.
  revert scope.
  induction s as [nm v b IHb|c m|nm p b IHb|nm mn ex ft da b IHb|sem cnt b IHb
                 |nm values args|nm tys bounds c b IHb|a b IHa IHb|c t e IHt IHe|v]
    using Stmt_ind'; intros scope;
    cbn [SubstituteInConstants count_producers loop_depth realize_free]; try done.
  - destruct (is_const _); apply IHb.
  - destruct (IHb scope) as (Hc & Hl & Hr). repeat split; [|done|done].
    intros name. by rewrite Hc.
  - destruct (IHb scope) as (Hc & Hl & Hr). split; [done|]. split; [by rewrite Hl|done].
  - destruct (IHb scope) as (Hc & Hl & Hr). done.
  - destruct (IHa scope) as (Hca & Hla & Hra), (IHb scope) as (Hcb & Hlb & Hrb).
    split; [|split].
    + intros name. by rewrite Hca, Hcb.
    + by rewrite Hla, Hlb.
    + by rewrite Hra, Hrb.
  - destruct (IHt scope) as (Hct & Hlt & Hrt).
    destruct e as [e0|]; simpl.
    + destruct (IHe scope) as (Hce & Hle & Hre). split; [|split].
      * intros name. by rewrite Hct, Hce.
      * by rewrite Hlt, Hle.
      * by rewrite Hrt, Hre.
    + split; [|split].
      * intros name. by rewrite Hct.
      * by rewrite Hlt.
      * by rewrite Hrt.
Qed.

(** X4.  The constant-propagation prepass keeps the skeleton the later
    stages look at: the producer count of every buffer, the nesting depth
    of the loops and the absence of realizations are those of its input,
    whatever the scope and the simplifier. *)
Theorem prepass_keeps_skeleton `{Analyses} (scope : gmap string (list Expr)) (s : Stmt) :
  (∀ name, count_producers (SubstituteInConstants scope s) name = count_producers s name)
  ∧ loop_depth (SubstituteInConstants scope s) = loop_depth s
  ∧ realize_free (SubstituteInConstants scope s) = realize_free s.
Proof. apply SubstituteInConstants_skeleton. Qed.

(** ** The prepass and the walker where there is nothing for them *)

Lemma Substitute_expr_empty `{Analyses} (e : Expr) : Substitute_expr ∅ e = e.
Proof.
  unfold Substitute_expr.
  assert (mutate_expr (Substitute_visit_Variable ∅) (fun _ _ _ _ => Ok None) e = Ok None)
    as ->; [|done].
  induction e as [| | |op a b IHa IHb|a IHa|c t f IHc IHt IHf|t n args ct IH|n v b IHv IHb]
    using Expr_ind'; try done; try rewrite mutate_expr_Call; cbn [mutate_expr];
    rewrite ?IHa, ?IHb, ?IHc, ?IHt, ?IHf, ?IHv; try done.
  assert (mutate_exprs (Substitute_visit_Variable ∅) (fun _ _ _ _ => Ok None) args
          = Ok (map (fun _ => None) args)) as ->.
  { induction IH as [|a l Ha _ IHl]; simpl; [done|]. by rewrite Ha, IHl. }
  cbn [obind]. replace (any_changed _) with false; [done|].
  clear. unfold any_changed. by induction args.
Qed.

(** X5.  On a statement without [LetStmt] the prepass, started as the pass
    starts it, returns its input unchanged: it substitutes nothing that no
    binding has put in scope, and it simplifies only the values of
    bindings. *)
Theorem prepass_identity_without_bindings `{Analyses} (s : Stmt) :
  let_free s = true → SubstituteInConstants ∅ s = s.
Proof.
  assert (∀ l : list Expr, map (Substitute_expr ∅) l = l) as Hmap.
  { intros l. induction l as [|a l IH]; simpl; [done|].
    by rewrite Substitute_expr_empty, IH. }
  induction s as [nm v b IHb|c m|nm p b IHb|nm mn ex ft da b IHb|sem cnt b IHb
                 |nm values args|nm tys bounds c b IHb|a b IHa IHb|c t e IHt IHe|v]
    using Stmt_ind'; cbn [let_free SubstituteInConstants]; intros Hf; try done;
    repeat match goal with
           | H : _ && _ = true |- _ => apply andb_true_iff in H as [??]
           end;
    rewrite ?Substitute_expr_empty, ?Hmap, ?IHb, ?IHa, ?IHt by done; try done.
  - f_equal. induction bounds as [|[mn ex] l IH]; simpl; [done|].
    by rewrite !Substitute_expr_empty, IH.
  - destruct e as [e0|]; simpl; [|done]. by rewrite IHe.
Qed.

Lemma prepass_identity_without_bindings_witness :
  SubstituteInConstants (H := example_analyses) ∅ pipeline = pipeline.
Proof. apply prepass_identity_without_bindings. reflexivity. Defined.

Lemma StorageFolding_realize_free `{Analyses} (env : gmap string Function) (s : Stmt) :
  realize_free s = true → ∀ counter, StorageFolding env s counter = Ok (None, counter).
Proof.
  induction s as [nm v b IHb|c m|nm p b IHb|nm mn ex ft da b IHb|sem cnt b IHb
                 |nm values args|nm tys bounds c b IHb|a b IHa IHb|c t e IHt IHe|v]
    using Stmt_ind'; cbn [realize_free StorageFolding]; intros Hf counter; try done;
    repeat match goal with
           | H : _ && _ = true |- _ => apply andb_true_iff in H as [??]
           end;
    rewrite ?IHb, ?IHa, ?IHt by done; cbn [obind]; rewrite ?IHb by done; try done.
  destruct e as [e0|]; [|done]. by rewrite IHe.
Qed.

(** X6.  On a statement without a realization the pass does no more than
    its prepass: the walker returns the node it was given, no name is drawn
    from the counter, and the result is the input with its constants
    propagated. *)
Theorem pass_is_prepass_without_realizations `{Analyses} (env : gmap string Function)
    (s : Stmt) (counter : nat) :
  realize_free s = true →
  StorageFolding env s counter = Ok (None, counter)
  ∧ storage_folding env s counter = Ok (SubstituteInConstants ∅ s, counter).
Proof.
  intros Hf. split; [by apply StorageFolding_realize_free|].
  unfold storage_folding. rewrite StorageFolding_realize_free; [done|].
  by rewrite (proj2 (proj2 (SubstituteInConstants_skeleton ∅ s))).
Qed.

Lemma pass_is_prepass_without_realizations_witness :
  storage_folding (H := example_analyses) (example_env None true) shadowing_program 0
  = Ok (SubstituteInConstants (H := example_analyses) ∅ shadowing_program, 0).
Proof.
  exact (proj2 (pass_is_prepass_without_realizations (H := example_analyses)
                  (example_env None true) shadowing_program 0 eq_refl)).
Defined.

(** ** The bounds of a folded realization *)

Lemma fold_bounds_ok (folds : list Fold) :
  ∀ bounds : list Range,
  Forall (fun f => dim f < length bounds) folds →
  ∃ bounds',
    fold_bounds folds bounds = Ok bounds'
    ∧ length bounds' = length bounds
    ∧ (∀ d, d ∉ map dim folds → bounds' !! d = bounds !! d)
    ∧ (∀ f, f ∈ folds →
         ∃ g, g ∈ folds ∧ dim g = dim f ∧ bounds' !! dim f = Some (IntImm 0, factor g)).
Proof.
  induction folds as [|f folds IH]; intros bounds Hall; cbn [fold_bounds].
  - exists bounds. repeat split; try done. intros f Hf. by apply elem_of_nil in Hf.
  - apply Forall_cons_1 in Hall as [Hf Hall].
    rewrite bool_decide_eq_true_2 by done.
    destruct (IH (<[dim f := (IntImm 0, factor f)]> bounds)) as (bounds' & Hrun & Hlen & Hout & Hin).
    { by rewrite length_insert. }
    exists bounds'. split; [done|]. split; [by rewrite Hlen, length_insert|]. split.
    + intros d Hd. simpl in Hd. apply not_elem_of_cons in Hd as [Hne Hd].
      etrans; [by apply Hout|]. by apply list_lookup_insert_ne.
    + intros g Hg. apply elem_of_cons in Hg as [->|Hg].
      * destruct (decide (dim f ∈ map dim folds)) as [Hlater|Hlast].
        -- apply list_elem_of_fmap in Hlater as (g & Hdim & Hg).
           destruct (Hin g Hg) as (g' & Hg' & Hd' & Hl).
           exists g'. split; [by right|]. split; [congruence|]. by rewrite Hdim.
        -- exists f. split; [by left|]. split; [done|].
           etrans; [by apply Hout|]. by apply list_lookup_insert_eq.
      * destruct (Hin g Hg) as (g' & Hg' & Hd' & Hl).
        exists g'. split; [by right|]. done.
Qed.

Lemma fold_bounds_error (folds : list Fold) :
  ∀ bounds : list Range,
  Exists (fun f => length bounds ≤ dim f) folds →
  ∃ w, fold_bounds folds bounds = InternalError w.
Proof.
  induction folds as [|f folds IH]; intros bounds Hex; cbn [fold_bounds].
  - by apply Exists_nil in Hex.
  - destruct (decide (dim f < length bounds)) as [Hf|Hf].
    + rewrite bool_decide_eq_true_2 by done. apply IH.
      apply Exists_cons in Hex as [?|Hex]; [lia|]. by rewrite length_insert.
    + rewrite bool_decide_eq_false_2 by done. eauto.
Qed.

(** X7.  Rewriting the bounds of a realization for its folds: when every
    fold names a dimension the realization has, the result has as many
    dimensions as before, keeps the bounds of every dimension no fold
    names, and gives a folded dimension the range from 0 with the factor of
    a fold of that dimension as extent; when some fold names a dimension
    the realization does not have, the internal assertion fails. *)
Theorem fold_bounds_spec (folds : list Fold) (bounds : list Range) :
  (Forall (fun f => dim f < length bounds) folds →
   ∃ bounds',
     fold_bounds folds bounds = Ok bounds'
     ∧ length bounds' = length bounds
     ∧ (∀ d, d ∉ map dim folds → bounds' !! d = bounds !! d)
     ∧ (∀ f, f ∈ folds →
          ∃ g, g ∈ folds ∧ dim g = dim f
               ∧ bounds' !! dim f = Some (IntImm 0, factor g)))
  ∧ (Exists (fun f => length bounds ≤ dim f) folds →
     ∃ w, fold_bounds folds bounds = InternalError w).
Proof. split; [apply fold_bounds_ok|apply fold_bounds_error]. Qed.

Lemma fold_bounds_spec_witness :
  ∃ bounds',
    fold_bounds [{| dim := 1; factor := IntImm 4; semaphore := None |}]
      [(IntImm 0, IntImm 10); (IntImm 0, IntImm 20)] = Ok bounds'
    ∧ length bounds' = 2
    ∧ bounds' !! 0 = Some (IntImm 0, IntImm 10)
    ∧ bounds' !! 1 = Some (IntImm 0, IntImm 4).
Proof.
  destruct (proj1 (fold_bounds_spec [{| dim := 1; factor := IntImm 4; semaphore := None |}]
                     [(IntImm 0, IntImm 10); (IntImm 0, IntImm 20)]))
    as (bounds' & Hrun & Hlen & Hout & Hin).
  { repeat constructor. }
  exists bounds'. split; [exact Hrun|]. split; [exact Hlen|]. split.
  - etrans; [apply (Hout 0)|reflexivity]. simpl. intros Hd.
    apply list_elem_of_singleton in Hd. lia.
  - destruct (Hin _ (list_elem_of_here _ _)) as (g & Hg & _ & Hl).
    apply list_elem_of_singleton in Hg as ->. exact Hl.
Defined.

(** ** What the planner keeps *)

Lemma planner_step_nil func st : planner_step func st st [].
Proof.
  unfold planner_step. rewrite app_nil_r. split; [done|]. split; [done|].
  simpl. destruct (async _); lia.
Qed.

Lemma planner_step_app func st1 st2 st3 new1 new2 :
  planner_step func st1 st2 new1 → planner_step func st2 st3 new2 →
  planner_step func st1 st3 (new1 ++ new2).
Proof.
  intros (E1 & F1 & C1) (E2 & F2 & C2). split; [by rewrite E2, E1, app_assoc|].
  split; [by apply Forall_app|].
  rewrite C2, C1, length_app. destruct (async _); lia.
Qed.

Lemma planner_step_same func st st' :
  planner_step func st st' [] → st' = st.
Proof.
  intros (E & _ & C). rewrite app_nil_r in E. simpl in C.
  destruct st, st'. simpl in *. subst. f_equal. destruct (async _); lia.
Qed.

Section PlannerInvariants.
Context `{Analyses}.
Variable func : Function.
Variable explicit_only : bool.

Lemma synthesize_semaphore_state factor extent fwd bwd b name body st body' st' d :
  synthesize_semaphore func factor extent fwd bwd b name body
    (push_back_fold {| dim := d; factor := factor; semaphore := None |} st) = Ok (body', st') →
  ∃ sema,
    dims_folded st' = dims_folded st ++ [{| dim := d; factor := factor; semaphore := Some sema |}]
    ∧ name_counter st' = S (name_counter st).
Proof.
  unfold synthesize_semaphore. cbn [unique_name]. intros Hs. step_outcome Hs.
  destruct a as [acq rel]. injection Hs as <- <-. cbn. rewrite alter_back. eauto.
Qed.

Lemma record_fold_cases name op_min op_extent ft da d (b : DimBounds) factor
    fwd bwd body chg st r st' :
  (let st := push_back_fold {| dim := d; factor := factor; semaphore := None |} st in
   let* rr := FoldStorageOfFunction (fn_name func) d factor body in
   let chg := chg || changed rr in
   let body := pick body rr in
   let* '(body, chg, st) :=
     if async (schedule func) then
       let* '(body, st) :=
         synthesize_semaphore func factor (extent_of b) fwd bwd b name body st in
       Ok (body, true, st)
     else Ok (body, chg, st) in
   let min_next := substitute name (Add (loop_var name) (IntImm 1)) (b_min b) in
   if can_prove (LT (b_max b) min_next) then Ok (Continue body chg, st)
   else Ok (Return (rebuild chg (For name op_min op_extent ft da body)), st))
  = Ok (r, st') →
  is_Some (storage_dims (schedule func) !! d) →
  ∃ f body' chg',
    dim f = d
    ∧ planner_step func st st' [f]
    ∧ (r = Continue body' chg'
       ∨ r = Return (rebuild chg' (For name op_min op_extent ft da body'))).
Proof.
  cbv zeta. intros Hrun Hsd. step_outcome Hrun. unfold planner_step.
  destruct (async (schedule func)) eqn:Hasync.
  - step_outcome Hrun. step_outcome E0. destruct a1 as [body2 st2]. injection E0 as <-.
    apply synthesize_semaphore_state in E1 as (sema & Hfolds & Hcounter).
    exists {| dim := d; factor := factor; semaphore := Some sema |}, body2, true.
    split; [done|]. split.
    + assert (st' = st2) as -> by (destruct (can_prove _); by injection Hrun as <- <-).
      split; [done|]. split; [|simpl; lia].
      apply Forall_singleton. simpl. split; [done|]. split; eauto.
    + destruct (can_prove _); injection Hrun as <- <-; eauto.
  - cbn [obind] in Hrun.
    exists {| dim := d; factor := factor; semaphore := None |}, (pick body a),
      (chg || changed a).
    split; [done|]. split.
    + assert (st' = push_back_fold {| dim := d; factor := factor; semaphore := None |} st)
        as -> by (destruct (can_prove _); by injection Hrun as <- <-).
      split; [done|]. split; [|simpl; lia].
      apply Forall_singleton. simpl. split; [done|]. split; [by intros [??]|done].
    + destruct (can_prove _); injection Hrun as <- <-; eauto.
Qed.

(** One round either leaves everything as it was or records one fold of
    the dimension of the round. *)
Lemma fold_dimension_cases name op_min op_extent ft da provided required box d
    body chg st r st' :
  fold_dimension func explicit_only name op_min op_extent ft da provided required box
    d body chg st = Ok (r, st') →
  (r = Continue body chg ∧ st' = st)
  ∨ ∃ f body' chg',
      dim f = d
      ∧ planner_step func st st' [f]
      ∧ (r = Continue body' chg'
         ∨ r = Return (rebuild chg' (For name op_min op_extent ft da body'))).
Proof.
  unfold fold_dimension. intros Hrun. do 2 step_outcome Hrun.
  assert (is_Some (storage_dims (schedule func) !! d)) as Hsd.
  { unfold storage_dim in E0. destruct (_ !! d); [eauto|done]. }
  destruct (proved_directions _ _ _ _) as [pf pb].
  destruct (explicit_factor_of a0 a name) as [ef|] eqn:Hef; cbn [changed] in Hrun.
  - right.
    destruct pf, pb; cbn [negb andb orb] in Hrun;
      try (cbn [obind] in Hrun;
           exact (record_fold_cases name op_min op_extent ft da d a ef _ _ _ true
                    st r st' Hrun Hsd)).
    destruct (fold_forward a0); cbn [negb andb orb obind] in Hrun;
      exact (record_fold_cases name op_min op_extent ft da d a ef _ _ _ true
               st r st' Hrun Hsd).
  - rewrite andb_false_r in Hrun.
    destruct (pf || pb); [|left; by injection Hrun as <- <-].
    step_outcome Hrun. step_outcome E1. injection E1 as <-.
    destruct a2 as [f|]; [|left; by injection Hrun as <- <-].
    right. exact (record_fold_cases name op_min op_extent ft da d a f _ _ _ chg
                    st r st' Hrun Hsd).
Qed.

(** The rounds of one loop record their folds from the outermost
    dimension inwards, each dimension at most once. *)
Lemma fold_dimensions_cases name op_min op_extent ft da provided required box i :
  ∀ body chg st r st',
  fold_dimensions func explicit_only name op_min op_extent ft da provided required box
    i body chg st = Ok (r, st') →
  ∃ new,
    planner_step func st st' new
    ∧ Forall (fun f => dim f < i) new
    ∧ StronglySorted (fun f g => dim g < dim f) new
    ∧ (new = [] → r = Continue body chg)
    ∧ (∀ s', r = Return (Some s') → ∃ body', s' = For name op_min op_extent ft da body').
Proof.
  induction i as [|d IH]; intros body chg st r st'; cbn [fold_dimensions].
  - intros [= <- <-]. exists []. split; [apply planner_step_nil|].
    repeat split; try done. constructor.
  - intros Hrun. step_outcome Hrun. destruct a as [r1 st1].
    apply fold_dimension_cases in E as [[-> ->]|(f & body1 & chg1 & Hd & Hstep & Hr)].
    + apply IH in Hrun as (new & Hstep & Hlt & Hsorted & Hnil & Hret).
      exists new. split; [done|]. split; [|done].
      eapply Forall_impl; [done|]. simpl. lia.
    + destruct Hr as [->| ->].
      * apply IH in Hrun as (new & Hstep' & Hlt & Hsorted & Hnil & Hret).
        exists (f :: new). split; [by apply (planner_step_app func st st1 st' [f] new)|].
        split; [|split; [|split; [done|done]]].
        -- constructor; [lia|]. eapply Forall_impl; [done|]. simpl. lia.
        -- constructor; [done|]. eapply Forall_impl; [done|]. simpl. lia.
      * injection Hrun as <- <-. exists [f]. split; [done|].
        split; [apply Forall_singleton; lia|].
        split; [repeat constructor|]. split; [done|].
        intros s' [= Hs']. destruct chg1; [|done]. injection Hs' as <-. eauto.
Qed.

Lemma attempt_cases n :
  ∀ s st r st',
  attempt func explicit_only n s st = Ok (r, st') →
  ∃ new, planner_step func st st' new ∧ (new = [] → r = None).
Proof.
  induction n as [|n IHn]; intros s;
    induction s as [nm v b IHb|c m|nm p b IHb|nm mn ex ft da b IHb|sem cnt b IHb
                   |nm values args|nm tys bounds c b IHb|a b IHa IHb|c t e IHt IHe|v]
      using Stmt_ind'; intros st r st';
    rewrite ?attempt_LetStmt, ?attempt_ProducerConsumer, ?attempt_Acquire,
      ?attempt_Realize, ?attempt_Block, ?attempt_IfThenElse, ?attempt_For;
    try (rewrite attempt_leaf by done; intros [= <- <-]; exists [];
         split; [apply planner_step_nil|done]);
    try (destruct (String.eqb nm (fn_name func));
         [intros [= <- <-]; exists []; split; [apply planner_step_nil|done]|]);
    try done;
    try (intros Hrun; step_outcome Hrun; destruct a as [b' st1];
         injection Hrun as <- <-;
         apply IHb in E as (new & Hstep & Hnil); exists new; split; [done|];
         intros Hn; by rewrite (Hnil Hn)).
  (* Block *)
  all: try (intros Hrun; step_outcome Hrun; destruct a0 as [a' st1];
            step_outcome Hrun; destruct a0 as [b' st2]; injection Hrun as <- <-;
            apply IHa in E as (new1 & Hstep1 & Hnil1);
            apply IHb in E0 as (new2 & Hstep2 & Hnil2);
            exists (new1 ++ new2); split; [by eapply planner_step_app|];
            intros [-> ->]%app_eq_nil; by rewrite Hnil1, Hnil2).
  (* IfThenElse *)
  all: try (intros Hrun; step_outcome Hrun; destruct a as [t' st1];
            apply IHt in E as (new1 & Hstep1 & Hnil1);
            destruct e as [e0|];
            [step_outcome Hrun; destruct a as [e' st2]; injection Hrun as <- <-;
             apply IHe in E as (new2 & Hstep2 & Hnil2);
             exists (new1 ++ new2); split; [by eapply planner_step_app|];
             intros [-> ->]%app_eq_nil; by rewrite Hnil1, Hnil2
            |cbn [obind] in Hrun; injection Hrun as <- <-;
             exists new1; split; [done|]; intros Hn; by rewrite (Hnil1 Hn)]).
  (* For *)
  unfold visit_For. destruct ft;
    try (intros [= <- <-]; exists []; split; [apply planner_step_nil|done]).
  all: intros Hrun; step_outcome Hrun; destruct a as [r1 st1];
    apply fold_dimensions_cases in E as (new1 & Hstep1 & _ & _ & Hnil1 & _);
    (destruct r1 as [body1 chg1|stmt];
     [|injection Hrun as <- <-; exists new1; split; [done|];
       intros Hn; by specialize (Hnil1 Hn)]);
    (destruct (box_contains _ _); cbn [obind] in Hrun;
     [step_outcome Hrun; destruct a as [[body2 chg2] st2];
      step_outcome E; destruct a as [r2 st3]; injection E as <- <- <-;
      injection Hrun as <- <-;
      apply IHn in E0 as (new2 & Hstep2 & Hnil2);
      exists (new1 ++ new2); split; [by eapply planner_step_app|];
      intros [Hn1 Hn2]%app_eq_nil; specialize (Hnil1 Hn1); injection Hnil1 as -> ->;
      by rewrite (Hnil2 Hn2)
     |injection Hrun as <- <-; exists new1; split; [done|];
      intros Hn; specialize (Hnil1 Hn); by injection Hnil1 as -> ->]).
Qed.
End PlannerInvariants.

(** X8.  A run of the planner only appends to its list of folds; every
    fold it appends names a storage dimension the schedule has and carries
    a semaphore exactly when the function is asynchronous, and the counter
    of names advances by one per semaphore. *)
Theorem planner_records_well_formed_folds `{Analyses} (func : Function)
    (explicit_only : bool) (s : Stmt) (st : PlannerState) (r : option Stmt)
    (st' : PlannerState) :
  AttemptStorageFoldingOfFunction func explicit_only s st = Ok (r, st') →
  ∃ new, planner_step func st st' new.
Proof.
  intros Hrun. apply attempt_cases in Hrun as (new & Hstep & _). eauto.
Qed.

Lemma planner_records_well_formed_folds_witness :
  ∃ r st' new,
    AttemptStorageFoldingOfFunction (H := example_analyses) (example_function None true)
      false (example_loop (Block example_produce example_consume))
      {| dims_folded := []; name_counter := 5 |} = Ok (r, st')
    ∧ planner_step (example_function None true)
        {| dims_folded := []; name_counter := 5 |} st' new.
Proof.
  destruct (AttemptStorageFoldingOfFunction (H := example_analyses) _ _ _ _)
    as [[r st']| | | |] eqn:E; try (vm_compute in E; discriminate E).
  destruct (planner_records_well_formed_folds (H := example_analyses) _ _ _ _ _ _ E)
    as [new Hnew].
  by exists r, st', new.
Defined.

Lemma attempt_no_fold `{Analyses} (func : Function) (explicit_only : bool) (n : nat)
    (s : Stmt) (st : PlannerState) (r : option Stmt) (st' : PlannerState) :
  attempt func explicit_only n s st = Ok (r, st') →
  dims_folded st' = dims_folded st →
  r = None ∧ st' = st.
Proof.
  intros Hrun Hsame. apply attempt_cases in Hrun as (new & Hstep & Hnil).
  assert (new = []) as ->.
  { destruct Hstep as (E & _). rewrite Hsame in E.
    rewrite <- (app_nil_r (dims_folded st)) in E at 1. by apply app_inv_head in E. }
  split; [by apply Hnil|]. by eapply planner_step_same.
Qed.

(** X9.  The planner never changes the tree without recording a fold: a
    run that leaves the list of folds as it was returns the node it was
    given and leaves its whole state as it was. *)
Theorem planner_changes_only_with_a_fold `{Analyses} (func : Function)
    (explicit_only : bool) (s : Stmt) (st : PlannerState) (r : option Stmt)
    (st' : PlannerState) :
  AttemptStorageFoldingOfFunction func explicit_only s st = Ok (r, st') →
  dims_folded st' = dims_folded st →
  r = None ∧ st' = st.
Proof.
  apply attempt_no_fold.
Qed.

Lemma planner_changes_only_with_a_fold_witness :
  ∃ r st',
    AttemptStorageFoldingOfFunction (H := example_analyses) (example_function None false)
      true (example_loop (Block example_produce example_consume))
      {| dims_folded := []; name_counter := 0 |} = Ok (r, st')
    ∧ r = None ∧ st' = {| dims_folded := []; name_counter := 0 |}.
Proof.
  eexists _, _. split.
  - vm_compute. reflexivity.
  - refine (planner_changes_only_with_a_fold (H := example_analyses)
              (example_function None false) true
              (example_loop (Block example_produce example_consume))
              {| dims_folded := []; name_counter := 0 |} _ _ _ _).
    + vm_compute. reflexivity.
    + reflexivity.
Defined.

(** X10.  At one loop the planner tries the dimensions from the outermost
    inwards and records at most one fold per dimension: the folds the
    rounds add are of dimensions below the starting round, in strictly
    decreasing order. *)
Theorem one_fold_per_dimension_at_a_loop `{Analyses} (func : Function)
    (explicit_only : bool) (name : string) (op_min op_extent : Expr) (ft : ForType)
    (da : DeviceAPI) (provided required box : Box) (i : nat) (body : Stmt) (chg : bool)
    (st : PlannerState) (r : DimResult) (st' : PlannerState) :
  fold_dimensions func explicit_only name op_min op_extent ft da provided required box
    i body chg st = Ok (r, st') →
  ∃ new,
    dims_folded st' = dims_folded st ++ new
    ∧ Forall (fun f => dim f < i) new
    ∧ StronglySorted (fun f g => dim g < dim f) new.
Proof.
  intros Hrun.
  apply fold_dimensions_cases in Hrun as (new & (E & _) & Hlt & Hsorted & _).
  eauto.
Qed.

Lemma one_fold_per_dimension_at_a_loop_witness :
  ∃ r st' new,
    fold_dimensions (H := example_analyses) (example_function None false) false
      "y" (IntImm 0) (IntImm 8) Serial DeviceNone window window window 1
      (Block example_produce example_consume) false
      {| dims_folded := []; name_counter := 0 |} = Ok (r, st')
    ∧ dims_folded st' = [] ++ new
    ∧ Forall (fun f => dim f < 1) new
    ∧ StronglySorted (fun f g => dim g < dim f) new.
Proof.
  destruct (fold_dimensions (H := example_analyses) _ _ _ _ _ _ _ _ _ _ _ _ _ _)
    as [[r st']| | | |] eqn:E; try (vm_compute in E; discriminate E).
  destruct (one_fold_per_dimension_at_a_loop (H := example_analyses)
              _ _ _ _ _ _ _ _ _ _ _ _ _ _ _ _ E) as (new & Hnew).
  by exists r, st', new.
Defined.

(** X11.  A loop the planner rebuilds keeps its variable, its bounds, its
    kind and its device: only the body is replaced. *)
Theorem planner_keeps_loop_header `{Analyses} (func : Function) (explicit_only : bool)
    (name : string) (op_min op_extent : Expr) (ft : ForType) (da : DeviceAPI)
    (body : Stmt) (st : PlannerState) (s' : Stmt) (st' : PlannerState) :
  AttemptStorageFoldingOfFunction func explicit_only
    (For name op_min op_extent ft da body) st = Ok (Some s', st') →
  ∃ body', s' = For name op_min op_extent ft da body'.
Proof.
  unfold AttemptStorageFoldingOfFunction. cbn [loop_depth]. rewrite attempt_For.
  unfold visit_For. destruct ft; try done.
  all: intros Hrun; step_outcome Hrun; destruct a as [r1 st1];
    apply fold_dimensions_cases in E as (new1 & _ & _ & _ & _ & Hret);
    (destruct r1 as [body1 chg1|stmt];
     [|injection Hrun as -> <-; by apply Hret]);
    step_outcome Hrun; destruct a as [[body2 chg2] st2];
    injection Hrun as Hs <-; destruct chg2; [|done]; injection Hs as <-; eauto.
Qed.

Lemma planner_keeps_loop_header_witness :
  ∃ s' st',
    AttemptStorageFoldingOfFunction (H := example_analyses) (example_function None false)
      false (example_loop (Block example_produce example_consume))
      {| dims_folded := []; name_counter := 0 |} = Ok (Some s', st')
    ∧ ∃ body', s' = For "y" (IntImm 0) (IntImm 8) Serial DeviceNone body'.
Proof.
  eexists _, _. split.
  - vm_compute. reflexivity.
  - refine (planner_keeps_loop_header (H := example_analyses) (example_function None false)
              false "y" (IntImm 0) (IntImm 8) Serial DeviceNone
              (Block example_produce example_consume)
              {| dims_folded := []; name_counter := 0 |} _ _ _).
    vm_compute. reflexivity.
Defined.

(** ** Realizations *)

Lemma fold_bounds_length (folds : list Fold) :
  ∀ bounds bounds' : list Range,
  fold_bounds folds bounds = Ok bounds' → length bounds' = length bounds.
Proof.
  induction folds as [|f folds IH]; intros bounds bounds'; cbn [fold_bounds].
  - by intros [= <-].
  - destruct (bool_decide _); [|done]. intros Hrun. apply IH in Hrun.
    by rewrite Hrun, length_insert.
Qed.

(** X12.  A realization whose function declares no fold factor and whose
    body, once visited, holds a number of productions of the buffer other
    than one is left as it is: when the visit returns, it returns the
    realization with the bounds it had around the visited body, the very
    node if the body is the old one, and draws no name. *)
Theorem unscheduled_multi_producer_buffer_untouched `{Analyses}
    (env : gmap string Function) (nm : string) (tys : list Type_) (bounds : list Range)
    (c : Expr) (b : Stmt) (b' : option Stmt) (counter : nat)
    (r : option Stmt) (counter' : nat) :
  Forall (fun sd => fold_factor sd = None)
    (storage_dims (schedule (default default_Function (env !! nm)))) →
  count_producers (pick b b') nm ≠ 1 →
  visit_Realize env nm tys bounds c b b' counter = Ok (r, counter') →
  r = (if b' is Some body then Some (Realize nm tys bounds c body) else None)
  ∧ counter' = counter.
Proof.
  intros Hnone Hcount. unfold visit_Realize.
  destruct (IsBufferSpecial nm _).
  - intros Hrun. step_outcome Hrun. injection Hrun as <- <-. by destruct b'.
  - replace (negb (count_producers (pick b b') nm =? 1)) with true
      by (symmetry; by apply negb_true_iff, Nat.eqb_neq).
    intros Hrun. step_outcome Hrun. destruct a as [r1 st1].
    assert (r1 = None ∧ st1 = {| dims_folded := []; name_counter := counter |}) as [-> ->].
    { eapply attempt_no_fold; [exact E|].
      apply attempt_explicit_only in E as (new & Hfolds & Hexp).
      destruct new as [|f new]; [by rewrite Hfolds|].
      apply Forall_cons_1 in Hexp as [(sd & Hsd & Hf) _].
      rewrite Forall_lookup in Hnone. specialize (Hnone _ _ Hsd). congruence. }
    cbn [changed pick default dims_folded name_counter] in Hrun.
    rewrite orb_false_r in Hrun. destruct b' as [body|]; by injection Hrun as <- <-.
Qed.

Lemma unscheduled_multi_producer_buffer_untouched_witness :
  visit_Realize (H := example_analyses) (example_env None false) "f" [Int 32]
    [(IntImm 0, IntImm 10)] (IntImm 1)
    (example_loop (Block example_produce (Block example_produce example_consume))) None 0
  = Ok (None, 0).
Proof.
  destruct (visit_Realize (H := example_analyses) _ _ _ _ _ _ _ _) as [[r k]| | | |] eqn:E;
    try (vm_compute in E; discriminate E).
  destruct (unscheduled_multi_producer_buffer_untouched (H := example_analyses)
              (example_env None false) "f" [Int 32] [(IntImm 0, IntImm 10)] (IntImm 1)
              (example_loop (Block example_produce (Block example_produce example_consume)))
              None 0 r k) as [-> ->].
  - vm_compute. repeat constructor.
  - vm_compute. lia.
  - exact E.
  - reflexivity.
Defined.

Lemma init_semaphores_bindings (folds : list Fold) :
  ∀ stmt, init_semaphores folds stmt = semaphore_bindings (omap semaphore folds) stmt.
Proof.
  induction folds as [|f folds IH]; intros stmt; [done|].
  cbn [init_semaphores]. rewrite IH. simpl. by destruct (semaphore f).
Qed.

Lemma semaphores_of_folds (is_async : bool) (folds : list Fold) :
  Forall (fun f => is_Some (semaphore f) ↔ is_async = true) folds →
  length (omap semaphore folds) = (if is_async then length folds else 0)
  ∧ (is_async = false → omap semaphore folds = []).
Proof.
  induction 1 as [|f folds Hf _ [IHlen IHnil]]; [by destruct is_async|].
  change (omap semaphore (f :: folds))
    with (match semaphore f with
          | Some sema => sema :: omap semaphore folds
          | None => omap semaphore folds
          end).
  destruct (semaphore f) as [sema|].
  - assert (is_async = true) as -> by (apply Hf; eauto).
    cbn [length]. split; [by rewrite IHlen|done].
  - destruct is_async; [|auto]. destruct Hf as [_ Hf]. by destruct (Hf eq_refl).
Qed.

(** X13.  What a realization is rebuilt into: the realization of the same
    name, types and condition, with as many dimensions as before, inside
    one binding of a semaphore to a call of [halide_make_semaphore] for
    each name drawn from the counter, and nothing else.  When the function
    is not asynchronous there is no binding and no name is drawn. *)
Theorem rebuilt_realization_shape `{Analyses} (env : gmap string Function) (nm : string)
    (tys : list Type_) (bounds : list Range) (c : Expr) (b : Stmt) (b' : option Stmt)
    (counter : nat) (stmt : Stmt) (counter' : nat) :
  visit_Realize env nm tys bounds c b b' counter = Ok (Some stmt, counter') →
  let is_async := async (schedule (default default_Function (env !! nm))) in
  ∃ semas bounds' body',
    stmt = semaphore_bindings semas (Realize nm tys bounds' c body')
    ∧ length bounds' = length bounds
    ∧ counter' = counter + length semas
    ∧ (is_async = false → semas = []).
Proof.
  intros Hrun is_async. unfold visit_Realize in Hrun.
  destruct (IsBufferSpecial nm _).
  - step_outcome Hrun. injection Hrun as Hr <-. destruct b' as [body|]; [|done].
    injection Hr as <-. exists [], bounds, body. repeat split; try done.
  - step_outcome Hrun. destruct a as [r1 st1].
    apply attempt_cases in E as (new & (Hfolds & Hall & Hcounter) & _).
    cbn [dims_folded name_counter app] in Hfolds, Hcounter. fold is_async in Hall, Hcounter.
    destruct (semaphores_of_folds is_async new) as [Hlen Hnil].
    { eapply Forall_impl; [exact Hall|]. by intros f [_ ?]. }
    rewrite <- Hlen in Hcounter.
    destruct (negb _); [done|]. rewrite Hfolds in Hrun.
    destruct new as [|f folds].
    + injection Hrun as <- <-. exists [], bounds, (pick (pick b b') r1).
      repeat split; done.
    + step_outcome Hrun. injection Hrun as <- <-.
      apply fold_bounds_length in E.
      exists (omap semaphore (f :: folds)), a, (pick (pick b b') r1).
      split; [exact (init_semaphores_bindings (f :: folds) _)|]. repeat split; done.
Qed.

Lemma rebuilt_realization_shape_witness :
  ∃ stmt counter' semas bounds' body',
    visit_Realize (H := example_analyses) (example_env None true) "f" [Int 32]
      [(IntImm 0, IntImm 10)] (IntImm 1)
      (example_loop (Block example_produce example_consume)) None 3
    = Ok (Some stmt, counter')
    ∧ stmt = semaphore_bindings semas (Realize "f" [Int 32] bounds' (IntImm 1) body')
    ∧ length bounds' = 1
    ∧ counter' = 3 + length semas.
Proof.
  destruct (visit_Realize (H := example_analyses) _ _ _ _ _ _ _ _) as [[[stmt|] k]| | | |]
    eqn:E; try (vm_compute in E; discriminate E).
  destruct (rebuilt_realization_shape (H := example_analyses) _ _ _ _ _ _ _ _ _ _ E)
    as (semas & bounds' & body' & Hstmt & Hlen & Hcounter & _).
  exists stmt, k, semas, bounds', body'. split; [reflexivity|]. split; [exact Hstmt|].
  split; [exact Hlen|]. exact Hcounter.
Defined.

(** ** A loop that only reads the buffer *)

Lemma dim_bounds_empty_provided `{Analyses} (box required : Box) (d : nat) :
  dim_bounds box [] required d = Undefined "box[i-1]".
Proof. unfold dim_bounds. destruct (box !! d); reflexivity. Qed.

(** X14.  At a serial or unrolled loop whose body provides nothing of the
    function, so that the box of provided values is empty, while the union
    of the boxes has a dimension, the planner indexes the empty box without
    a check: the visit has no defined result, whatever the schedule and the
    other analyses say. *)
Theorem planner_undefined_on_empty_provided_box `{Analyses} (func : Function)
    (explicit_only : bool) (name : string) (op_min op_extent : Expr) (ft : ForType)
    (da : DeviceAPI) (body : Stmt) (st : PlannerState) :
  ft = Serial ∨ ft = Unrolled →
  box_provided body (fn_name func) = [] →
  box_union [] (box_required body (fn_name func)) ≠ [] →
  AttemptStorageFoldingOfFunction func explicit_only
    (For name op_min op_extent ft da body) st = Undefined "box[i-1]".
Proof.
  intros Hft Hprovided Hbox. unfold AttemptStorageFoldingOfFunction.
  cbn [loop_depth]. rewrite attempt_For. unfold visit_For. rewrite Hprovided.
  destruct (box_union [] _) as [|iv box] eqn:Hu; [done|].
  assert (fold_dimensions func explicit_only name op_min op_extent ft da []
            (box_required body (fn_name func)) (iv :: box) (length (iv :: box)) body false st
          = Undefined "box[i-1]") as Hrun.
  { cbn [length fold_dimensions]. unfold fold_dimension.
    by rewrite dim_bounds_empty_provided. }
  destruct Hft as [-> | ->]; by rewrite Hrun.
Qed.

Lemma planner_undefined_on_empty_provided_box_witness :
  AttemptStorageFoldingOfFunction (H := consumer_analyses) (example_function None false)
    false (example_loop example_consume) {| dims_folded := []; name_counter := 0 |}
  = Undefined "box[i-1]".
Proof.
  refine (planner_undefined_on_empty_provided_box (H := consumer_analyses)
            (example_function None false) false "y" (IntImm 0) (IntImm 8) Serial
            DeviceNone example_consume {| dims_folded := []; name_counter := 0 |} _ _ _).
  - left. reflexivity.
  - reflexivity.
  - vm_compute. discriminate.
Defined.

(** ** The productions survive the whole pass *)

Section PlannerCount.
Context `{Analyses}.
Variable func : Function.
Variable explicit_only : bool.
Variable nm : string.

Lemma synthesize_semaphore_count factor extent fwd bwd b name body st body' st' :
  synthesize_semaphore func factor extent fwd bwd b name body st = Ok (body', st') →
  count_producers body' nm = count_producers body nm.
Proof.
  unfold synthesize_semaphore. simpl. intros Hs. step_outcome Hs.
  destruct a as [acq rel]. injection Hs as <- <-. simpl. lia.
Qed.

Lemma record_fold_count name op_min op_extent ft da d (b : DimBounds) factor
    fwd bwd body chg st r st' :
  (let st := push_back_fold {| dim := d; factor := factor; semaphore := None |} st in
   let* rr := FoldStorageOfFunction (fn_name func) d factor body in
   let chg := chg || changed rr in
   let body := pick body rr in
   let* '(body, chg, st) :=
     if async (schedule func) then
       let* '(body, st) :=
         synthesize_semaphore func factor (extent_of b) fwd bwd b name body st in
       Ok (body, true, st)
     else Ok (body, chg, st) in
   let min_next := substitute name (Add (loop_var name) (IntImm 1)) (b_min b) in
   if can_prove (LT (b_max b) min_next) then Ok (Continue body chg, st)
   else Ok (Return (rebuild chg (For name op_min op_extent ft da body)), st))
  = Ok (r, st') →
  match r with
  | Continue body' _ | Return (Some body') =>
      count_producers body' nm = count_producers body nm
  | Return None => True
  end.
Proof.
  cbv zeta. intros Hrun. step_outcome Hrun.
  apply (FoldStorageOfFunction_count _ _ _ _ _ nm) in E.
  destruct (async (schedule func)).
  - step_outcome Hrun. step_outcome E0. destruct a1 as [body2 st2]. injection E0 as <-.
    apply synthesize_semaphore_count in E1.
    destruct (can_prove _); injection Hrun as <- <-; simpl; congruence.
  - cbn [obind] in Hrun.
    destruct (can_prove _); injection Hrun as <- <-; [done|].
    destruct (chg || changed a); simpl; done.
Qed.

Lemma fold_dimension_count name op_min op_extent ft da provided required box d
    body chg st r st' :
  fold_dimension func explicit_only name op_min op_extent ft da provided required box
    d body chg st = Ok (r, st') →
  match r with
  | Continue body' _ | Return (Some body') =>
      count_producers body' nm = count_producers body nm
  | Return None => True
  end.
Proof.
  unfold fold_dimension. intros Hrun. do 2 step_outcome Hrun.
  destruct (proved_directions _ _ _ _) as [pf pb].
  destruct (explicit_factor_of a0 a name) as [ef|] eqn:Hef; cbn [changed] in Hrun.
  - destruct pf, pb; cbn [negb andb orb] in Hrun;
      try (cbn [obind] in Hrun;
           exact (record_fold_count name op_min op_extent ft da d a ef _ _
                    (Block (factor_too_small_assert func a0 ef (extent_of a) name) body)
                    true st r st' Hrun)).
    destruct (fold_forward a0); cbn [negb andb orb obind] in Hrun;
      exact (record_fold_count name op_min op_extent ft da d a ef _ _
               (Block (factor_too_small_assert func a0 ef (extent_of a) name)
                  (Block (bad_fold_assert func a0 a name) body))
               true st r st' Hrun).
  - rewrite andb_false_r in Hrun.
    destruct (pf || pb); [|by injection Hrun as <- <-].
    step_outcome Hrun. step_outcome E1. injection E1 as <-.
    destruct a2 as [f|]; [|by injection Hrun as <- <-].
    exact (record_fold_count name op_min op_extent ft da d a f _ _ _ chg
             st r st' Hrun).
Qed.

Lemma fold_dimensions_count name op_min op_extent ft da provided required box i :
  ∀ body chg st r st',
  fold_dimensions func explicit_only name op_min op_extent ft da provided required box
    i body chg st = Ok (r, st') →
  match r with
  | Continue body' _ | Return (Some body') =>
      count_producers body' nm = count_producers body nm
  | Return None => True
  end.
Proof.
  induction i as [|d IH]; intros body chg st r st'; cbn [fold_dimensions].
  - by intros [= <- <-].
  - intros Hrun. step_outcome Hrun. destruct a as [[body1 chg1|stmt] st1].
    + apply fold_dimension_count in E. apply IH in Hrun.
      destruct r as [?|[?|]]; congruence.
    + injection Hrun as <- <-. by apply fold_dimension_count in E.
Qed.

Lemma attempt_count n :
  ∀ s st r st',
  attempt func explicit_only n s st = Ok (r, st') →
  count_producers (pick s r) nm = count_producers s nm.
Proof.
  induction n as [|n IHn]; intros s;
    induction s as [x v b IHb|c m|x p b IHb|x mn ex ft da b IHb|sem cnt b IHb
                   |x values args|x tys bounds c b IHb|a b IHa IHb|c t e IHt IHe|v]
      using Stmt_ind'; intros st r st';
    rewrite ?attempt_LetStmt, ?attempt_ProducerConsumer, ?attempt_Acquire,
      ?attempt_Realize, ?attempt_Block, ?attempt_IfThenElse, ?attempt_For;
    try (rewrite attempt_leaf by done; by intros [= <- <-]);
    try (destruct (String.eqb x (fn_name func)); [by intros [= <- <-]|]);
    try done;
    try (intros Hrun; step_outcome Hrun; destruct a as [b' st1];
         injection Hrun as <- <-; apply IHb in E; rewrite pick_rebuild;
         destruct (changed b'); cbn [count_producers]; by rewrite ?E).
  (* Block *)
  all: try (intros Hrun; step_outcome Hrun; destruct a0 as [a' st1];
            step_outcome Hrun; destruct a0 as [b' st2]; injection Hrun as <- <-;
            apply IHa in E; apply IHb in E0; rewrite pick_rebuild;
            destruct (_ || _); cbn [count_producers]; by rewrite ?E, ?E0).
  (* IfThenElse *)
  all: try (intros Hrun; step_outcome Hrun; destruct a as [t' st1];
            apply IHt in E;
            destruct e as [e0|];
            [step_outcome Hrun; destruct a as [e' st2]; injection Hrun as <- <-;
             apply IHe in E0; rewrite pick_rebuild;
             destruct (_ || _); cbn [count_producers option_map]; by rewrite ?E, ?E0
            |cbn [obind] in Hrun; injection Hrun as <- <-; rewrite pick_rebuild;
             destruct (_ || _); cbn [count_producers option_map]; by rewrite ?E]).
  (* For *)
  unfold visit_For. destruct ft; try by intros [= <- <-].
  all: intros Hrun; step_outcome Hrun; destruct a as [r1 st1];
    apply fold_dimensions_count in E;
    (destruct r1 as [body1 chg1|stmt];
     [|injection Hrun as <- <-; by destruct stmt]);
    (destruct (box_contains _ _); cbn [obind] in Hrun;
     [step_outcome Hrun; destruct a as [[body2 chg2] st2];
      step_outcome E0; destruct a as [r2 st3]; injection E0 as <- <- <-;
      injection Hrun as <- <-;
      apply IHn in E1; rewrite pick_rebuild; destruct (_ || _);
      cbn [count_producers]; congruence
     |injection Hrun as <- <-; rewrite pick_rebuild; destruct chg1;
      cbn [count_producers]; congruence]).
Qed.
End PlannerCount.

(** X15.  The planner never adds, removes or renames a production: the
    statement it returns has, for every name, the producer count of the
    statement it was given. *)
Theorem planner_keeps_producer_count `{Analyses} (func : Function)
    (explicit_only : bool) (s : Stmt) (st : PlannerState) (r : option Stmt)
    (st' : PlannerState) (name : string) :
  AttemptStorageFoldingOfFunction func explicit_only s st = Ok (r, st') →
  count_producers (pick s r) name = count_producers s name.
Proof. apply attempt_count. Qed.

Lemma planner_keeps_producer_count_witness :
  ∃ r st',
    AttemptStorageFoldingOfFunction (H := example_analyses) (example_function None true)
      false (example_loop (Block example_produce example_consume))
      {| dims_folded := []; name_counter := 5 |} = Ok (Some r, st')
    ∧ count_producers r "f" = 1.
Proof.
  eexists _, _. split; [vm_compute; reflexivity|].
  refine (planner_keeps_producer_count (H := example_analyses) (example_function None true)
            false (example_loop (Block example_produce example_consume))
            {| dims_folded := []; name_counter := 5 |} (Some _) _ "f" _).
  vm_compute. reflexivity.
Defined.

Lemma init_semaphores_count folds : ∀ stmt nm,
  count_producers (init_semaphores folds stmt) nm = count_producers stmt nm.
Proof.
  induction folds as [|f folds IH]; intros stmt nm; cbn [init_semaphores]; [done|].
  rewrite IH. by destruct (semaphore f).
Qed.

Section PassCount.
Context `{Analyses}.
Variable env : gmap string Function.

Lemma visit_Realize_count nm tys bounds c b b' counter r counter' name :
  count_producers (pick b b') name = count_producers b name →
  visit_Realize env nm tys bounds c b b' counter = Ok (r, counter') →
  count_producers (pick (Realize nm tys bounds c b) r) name = count_producers b name.
Proof.
  unfold visit_Realize. intros Hb Hrun. destruct (IsBufferSpecial _ _).
  - step_outcome Hrun. injection Hrun as <- <-. rewrite pick_rebuild.
    by destruct (changed b').
  - step_outcome Hrun. destruct a as [r1 st1].
    apply (attempt_count _ _ name) in E.
    destruct (negb _); [by injection Hrun as <- <-|].
    destruct (dims_folded st1) as [|f folds].
    + injection Hrun as <- <-. simpl. congruence.
    + step_outcome Hrun. injection Hrun as <- <-.
      etrans; [exact (init_semaphores_count folds _ name)|].
      destruct (semaphore f); simpl; congruence.
Qed.

Lemma StorageFolding_count s : ∀ counter r counter' name,
  StorageFolding env s counter = Ok (r, counter') →
  count_producers (pick s r) name = count_producers s name.
Proof.
  induction s as [x v b IHb|c m|x p b IHb|x mn ex ft da b IHb|sem cnt b IHb
                 |x values args|x tys bounds c b IHb|a b IHa IHb|c t e IHt IHe|v]
    using Stmt_ind'; intros counter r counter' name; cbn [StorageFolding];
    try (by intros [= <- <-]);
    try (intros Hrun; step_outcome Hrun; destruct a as [b' c1];
         injection Hrun as <- <-; eapply IHb in E; rewrite pick_rebuild;
         destruct (changed b'); cbn [count_producers]; by rewrite ?E).
  - (* Realize *)
    intros Hrun. step_outcome Hrun. destruct a as [b' c1].
    apply (IHb _ _ _ name) in E.
    exact (visit_Realize_count x tys bounds c b b' c1 r counter' name E Hrun).
  - (* Block *)
    intros Hrun. step_outcome Hrun. destruct a0 as [a' c1].
    step_outcome Hrun. destruct a0 as [b' c2]. injection Hrun as <- <-.
    eapply IHa in E. eapply IHb in E0. rewrite pick_rebuild.
    destruct (_ || _); cbn [count_producers]; by rewrite ?E, ?E0.
  - (* IfThenElse *)
    intros Hrun. step_outcome Hrun. destruct a as [t' c1]. eapply IHt in E.
    destruct e as [e0|].
    + step_outcome Hrun. destruct a as [e' c2]. injection Hrun as <- <-.
      eapply IHe in E0. rewrite pick_rebuild.
      destruct (_ || _); cbn [count_producers option_map]; by rewrite ?E, ?E0.
    + cbn [obind] in Hrun. injection Hrun as <- <-. rewrite pick_rebuild.
      destruct (_ || _); cbn [count_producers option_map]; by rewrite ?E.
Qed.
End PassCount.

(** X16.  The whole pass keeps the producer count of every buffer: the
    statement it returns produces each name as often as its input did. *)
Theorem pass_keeps_producer_count `{Analyses} (env : gmap string Function) (s : Stmt)
    (counter : nat) (s' : Stmt) (counter' : nat) (name : string) :
  storage_folding env s counter = Ok (s', counter') →
  count_producers s' name = count_producers s name.
Proof.
  unfold storage_folding. intros Hrun. step_outcome Hrun. destruct a as [r c1].
  injection Hrun as <- <-. eapply StorageFolding_count in E. rewrite E.
  apply SubstituteInConstants_skeleton.
Qed.

Lemma pass_keeps_producer_count_witness :
  ∃ s' counter',
    storage_folding (H := example_analyses) (example_env None true) pipeline 0
      = Ok (s', counter')
    ∧ count_producers s' "f" = 1.
Proof.
  eexists _, _. split; [vm_compute; reflexivity|].
  refine (pass_keeps_producer_count (H := example_analyses) (example_env None true)
            pipeline 0 _ _ "f" _).
  vm_compute. reflexivity.
Defined.

(** ** A buffer with several productions: declared folds, asserted *)

Lemma FoldStorageOfFunction_pick (func : string) (dim : nat) (factor : Expr) (s : Stmt)
    (r : option Stmt) :
  FoldStorageOfFunction func dim factor s = Ok r →
  pick s r = rewrite_stmt func dim factor s.
Proof.
  intros Hr. destruct (well_indexed func dim s) eqn:Hw.
  - rewrite FoldStorageOfFunction_spec in Hr by done. injection Hr as <-.
    apply pick_result_stmt.
  - pose proof (FoldStorageOfFunction_fails func dim factor s Hw) as Hf.
    by rewrite Hr in Hf.
Qed.

Lemma is_bad_fold_message_rewrite (fn func : string) (dim : nat) (factor m : Expr) :
  is_bad_fold_message fn (rewrite_expr func dim factor m) = is_bad_fold_message fn m.
Proof.
  assert (∀ t n args ct, ct ≠ Extern → is_bad_fold_message fn (Call t n args ct) = false)
    as Hother.
  { intros t n args ct Hct. destruct args as [|[] args], ct; done. }
  destruct m as [| | | | | |t n args ct|]; try done. cbn [rewrite_expr].
  destruct ct; try (by rewrite !Hother).
  unfold is_read. cbn [is_Halide]. rewrite andb_false_r.
  destruct args as [|[] args]; done.
Qed.

Lemma direction_asserts_rewrite (fn func : string) (dim : nat) (factor : Expr) (s : Stmt) :
  direction_asserts fn (rewrite_stmt func dim factor s)
  = map (rewrite_expr func dim factor) (direction_asserts fn s).
Proof.
  induction s as [n v b IHb|c m|n p b IHb|n mn ex ft da b IHb|sem cnt b IHb
                 |n values args|n tys bounds c b IHb|a b IHa IHb|c t e IHt IHe|v]
    using Stmt_ind'; cbn [rewrite_stmt direction_asserts]; try done.
  - rewrite is_bad_fold_message_rewrite. by destruct (is_bad_fold_message fn m).
  - by rewrite map_app, IHa, IHb.
  - rewrite map_app, IHt. destruct e as [e0|]; simpl; [by rewrite IHe|done].
Qed.

Section DeclaredAndAsserted.
Context `{Analyses}.
Variable func : Function.

Local Abbreviation asserts := (direction_asserts (fn_name func)).

Lemma declared_and_asserted_same (s : Stmt) : declared_and_asserted func s s [].
Proof. split; [constructor|]. split; [simpl; lia|done]. Qed.

Lemma declared_and_asserted_then (s1 s2 s3 : Stmt) (new1 new2 : list Fold) :
  declared_and_asserted func s1 s2 new1 →
  declared_and_asserted func s2 s3 new2 →
  declared_and_asserted func s1 s3 (new1 ++ new2).
Proof.
  intros (E1 & L1 & C1) (E2 & L2 & C2). split; [by apply Forall_app|].
  split; [rewrite length_app; lia|auto].
Qed.

Lemma declared_and_asserted_ext (s1 s2 t1 t2 : Stmt) (new : list Fold) :
  asserts t1 = asserts s1 → asserts t2 = asserts s2 →
  declared_and_asserted func s1 s2 new → declared_and_asserted func t1 t2 new.
Proof. unfold declared_and_asserted. by intros -> ->. Qed.

Lemma declared_and_asserted_both (a a' b b' : Stmt) (new1 new2 : list Fold) :
  declared_and_asserted func a a' new1 →
  declared_and_asserted func b b' new2 →
  ∀ s s' : Stmt,
    asserts s = asserts a ++ asserts b → asserts s' = asserts a' ++ asserts b' →
    declared_and_asserted func s s' (new1 ++ new2).
Proof.
  intros (E1 & L1 & C1) (E2 & L2 & C2) s s' Hs Hs'. unfold declared_and_asserted.
  rewrite Hs, Hs'. split; [by apply Forall_app|].
  split; [rewrite !length_app; lia|].
  rewrite !Forall_app. intros [??]. auto.
Qed.

Lemma synthesize_semaphore_asserts factor extent fwd bwd b name body st body' st' :
  synthesize_semaphore func factor extent fwd bwd b name body st = Ok (body', st') →
  asserts body' = asserts body.
Proof.
  unfold synthesize_semaphore. simpl. intros Hs. step_outcome Hs.
  destruct a as [acq rel]. injection Hs as <- <-. simpl. by rewrite app_nil_r.
Qed.

Lemma record_fold_asserted name op_min op_extent ft da d (b : DimBounds) factor
    fwd bwd body st r st' :
  (let st := push_back_fold {| dim := d; factor := factor; semaphore := None |} st in
   let* rr := FoldStorageOfFunction (fn_name func) d factor body in
   let chg := true || changed rr in
   let body := pick body rr in
   let* '(body, chg, st) :=
     if async (schedule func) then
       let* '(body, st) :=
         synthesize_semaphore func factor (extent_of b) fwd bwd b name body st in
       Ok (body, true, st)
     else Ok (body, chg, st) in
   let min_next := substitute name (Add (loop_var name) (IntImm 1)) (b_min b) in
   if can_prove (LT (b_max b) min_next) then Ok (Continue body chg, st)
   else Ok (Return (rebuild chg (For name op_min op_extent ft da body)), st))
  = Ok (r, st') →
  ∃ body' sem,
    dims_folded st' = dims_folded st ++ [{| dim := d; factor := factor; semaphore := sem |}]
    ∧ (r = Continue body' true
       ∨ r = Return (Some (For name op_min op_extent ft da body')))
    ∧ asserts body' = map (rewrite_expr (fn_name func) d factor) (asserts body).
Proof.
  cbv zeta. cbn [orb]. intros Hrun. step_outcome Hrun.
  apply FoldStorageOfFunction_pick in E. rewrite E in Hrun.
  destruct (async (schedule func)).
  - step_outcome Hrun. step_outcome E0. destruct a1 as [body2 st2]. injection E0 as <-.
    pose proof (synthesize_semaphore_asserts _ _ _ _ _ _ _ _ _ _ E1) as Hsame.
    apply synthesize_semaphore_state in E1 as (sema & Hfolds & _).
    exists body2, (Some sema). rewrite Hsame, direction_asserts_rewrite.
    destruct (can_prove _); injection Hrun as <- <-; eauto.
  - cbn [obind] in Hrun. exists (rewrite_stmt (fn_name func) d factor body), None.
    rewrite direction_asserts_rewrite.
    destruct (can_prove _); injection Hrun as <- <-; eauto.
Qed.

(** One round in the mode that honours declared factors only: nothing
    happens, or the declared factor is recorded and the body goes on behind
    the assertion of the declared direction. *)
Lemma fold_dimension_declared name op_min op_extent ft da provided required box d
    body chg st r st' :
  fold_dimension func true name op_min op_extent ft da provided required box d body chg st
  = Ok (r, st') →
  (r = Continue body chg ∧ st' = st)
  ∨ ∃ sd b ef body' sem,
      storage_dims (schedule func) !! d = Some sd
      ∧ fold_factor sd = Some ef
      ∧ dims_folded st' = dims_folded st ++ [{| dim := d; factor := ef; semaphore := sem |}]
      ∧ (r = Continue body' true
         ∨ r = Return (Some (For name op_min op_extent ft da body')))
      ∧ asserts body'
        = map (rewrite_expr (fn_name func) d ef)
            (bad_fold_condition func sd b name :: asserts body).
Proof.
  unfold fold_dimension. intros Hrun. do 2 step_outcome Hrun.
  rewrite proved_directions_explicit_only in Hrun by done.
  assert (storage_dims (schedule func) !! d = Some a0) as Hsd.
  { unfold storage_dim in E0. by destruct (_ !! d); simplify_eq. }
  destruct (explicit_factor_of a0 a name) as [ef|] eqn:Hef.
  - right. cbn [negb andb changed] in Hrun.
    replace (fold_forward a0 || negb (fold_forward a0)) with true in Hrun
      by (by destruct (fold_forward a0)).
    cbn [obind] in Hrun.
    destruct (record_fold_asserted name op_min op_extent ft da d a ef _ _
                (Block (factor_too_small_assert func a0 ef (extent_of a) name)
                   (Block (bad_fold_assert func a0 a name) body))
                st r st' Hrun) as (body' & sem & Hfolds & Hr & Hasserts).
    exists a0, a, ef, body', sem. split; [done|].
    split; [unfold explicit_factor_of in Hef; by destruct (_ || _)|].
    split; [done|]. split; [done|]. rewrite Hasserts. f_equal.
    cbn [direction_asserts factor_too_small_assert bad_fold_assert is_bad_fold_message].
    rewrite !String.eqb_refl. done.
  - left. cbn in Hrun. by injection Hrun as <- <-.
Qed.

Lemma fold_dimension_declared_folds name op_min op_extent ft da provided required box d
    body chg st r st' :
  fold_dimension func true name op_min op_extent ft da provided required box d body chg st
  = Ok (r, st') →
  ∃ new body',
    dims_folded st' = dims_folded st ++ new
    ∧ declared_and_asserted func body body' new
    ∧ ((r = Continue body chg ∧ body' = body ∧ new = [])
       ∨ r = Continue body' true
       ∨ r = Return (Some (For name op_min op_extent ft da body'))).
Proof.
  intros Hrun.
  apply fold_dimension_declared in Hrun
    as [[-> ->]|(sd & b & ef & body' & sem & Hsd & Hef & Hfolds & Hr & Hasserts)].
  - exists [], body. rewrite app_nil_r. split; [done|].
    split; [apply declared_and_asserted_same|auto].
  - exists [{| dim := d; factor := ef; semaphore := sem |}], body'.
    split; [done|]. split; [|destruct Hr; auto].
    unfold declared_and_asserted. rewrite Hasserts. split.
    + apply Forall_singleton. by exists sd.
    + split; [simpl; rewrite length_map; lia|].
      intros Hall. cbn [map]. constructor.
      * apply direction_rewritten. by eapply direction_declared.
      * apply Forall_map. eapply Forall_impl; [exact Hall|].
        intros c Hc. by apply direction_rewritten.
Qed.

Lemma fold_dimensions_declared_folds name op_min op_extent ft da provided required box i :
  ∀ body chg st r st',
  fold_dimensions func true name op_min op_extent ft da provided required box i body chg st
  = Ok (r, st') →
  ∃ new body',
    dims_folded st' = dims_folded st ++ new
    ∧ declared_and_asserted func body body' new
    ∧ ((r = Continue body chg ∧ body' = body ∧ new = [])
       ∨ r = Continue body' true
       ∨ r = Return (Some (For name op_min op_extent ft da body'))).
Proof.
  induction i as [|d IH]; intros body chg st r st'; cbn [fold_dimensions].
  - intros [= <- <-]. exists [], body. rewrite app_nil_r. split; [done|].
    split; [apply declared_and_asserted_same|auto].
  - intros Hrun. step_outcome Hrun. destruct a as [r1 st1].
    apply fold_dimension_declared_folds in E
      as (new1 & body1 & Hfolds1 & Hd1 & [(-> & -> & ->)|[-> | ->]]).
    + rewrite app_nil_r in Hfolds1.
      apply IH in Hrun as (new2 & body2 & Hfolds2 & Hd2 & Hr).
      exists new2, body2. by rewrite Hfolds2, Hfolds1.
    + apply IH in Hrun as (new2 & body2 & Hfolds2 & Hd2 & Hr).
      exists (new1 ++ new2), body2. split; [by rewrite Hfolds2, Hfolds1, app_assoc|].
      split; [by eapply declared_and_asserted_then|].
      destruct Hr as [(-> & -> & ->)|[-> | ->]]; auto.
    + injection Hrun as <- <-. exists new1, body1. auto.
Qed.

Lemma visit_For_declared_folds
    (mutate : Stmt → PlannerState → Outcome (option Stmt * PlannerState))
    name op_min op_extent ft da body st r st' :
  (∀ s st r st',
     mutate s st = Ok (r, st') →
     ∃ new, dims_folded st' = dims_folded st ++ new
            ∧ declared_and_asserted func s (pick s r) new) →
  visit_For func true mutate name op_min op_extent ft da body st = Ok (r, st') →
  ∃ new,
    dims_folded st' = dims_folded st ++ new
    ∧ declared_and_asserted func (For name op_min op_extent ft da body)
        (pick (For name op_min op_extent ft da body) r) new.
Proof.
  intros IH. unfold visit_For.
  assert (∀ st0 : PlannerState,
            ∃ new, dims_folded st0 = dims_folded st0 ++ new
                   ∧ declared_and_asserted func (For name op_min op_extent ft da body)
                       (For name op_min op_extent ft da body) new) as Hsame.
  { intros st0. exists []. rewrite app_nil_r.
    split; [done|apply declared_and_asserted_same]. }
  destruct ft; try (intros [= <- <-]; apply Hsame).
  all: intros Hrun; step_outcome Hrun; destruct a as [r1 st1];
    apply fold_dimensions_declared_folds in E
      as (new1 & body1 & Hfolds1 & Hd1 & [(Hr1 & -> & Hnew1)|[Hr1 | Hr1]]);
    subst r1; cbn [obind] in Hrun.
  all: try (injection Hrun as <- <-; by exists new1).
  all: destruct (box_contains _ _); cbn [obind] in Hrun;
    [step_outcome Hrun; destruct a as [[body2 chg2] st2];
     step_outcome E; destruct a as [r2 st3]; injection E as <- <- <-;
     injection Hrun as <- <-;
     apply IH in E0 as (new2 & Hfolds2 & Hd2);
     exists (new1 ++ new2); split; [by rewrite Hfolds2, Hfolds1, app_assoc|];
     eapply declared_and_asserted_ext;
     [| |exact (declared_and_asserted_then _ _ _ _ _ Hd1 Hd2)];
     [done|subst; by destruct r2]
    |injection Hrun as <- <-; exists new1; split; [done|]; subst; exact Hd1].
Qed.

Lemma attempt_declared_folds n :
  ∀ s st r st',
  attempt func true n s st = Ok (r, st') →
  ∃ new,
    dims_folded st' = dims_folded st ++ new
    ∧ declared_and_asserted func s (pick s r) new.
Proof.
  induction n as [|n IHn]; intros s;
    induction s as [nm v b IHb|c m|nm p b IHb|nm mn ex ft da b IHb|sem cnt b IHb
                   |nm values args|nm tys bounds c b IHb|a b IHa IHb|c t e IHt IHe|v]
      using Stmt_ind'; intros st r st';
    rewrite ?attempt_LetStmt, ?attempt_ProducerConsumer, ?attempt_Acquire,
      ?attempt_Realize, ?attempt_Block, ?attempt_IfThenElse, ?attempt_For;
    try (rewrite attempt_leaf by done; intros [= <- <-]; exists [];
         rewrite app_nil_r; split; [done|apply declared_and_asserted_same]);
    try (destruct (String.eqb nm (fn_name func));
         [intros [= <- <-]; exists []; rewrite app_nil_r;
          split; [done|apply declared_and_asserted_same]|]);
    try done;
    try (intros Hrun; step_outcome Hrun; destruct a as [b' st1];
         injection Hrun as <- <-;
         apply IHb in E as (new & Hfolds & Hd); exists new; split; [done|];
         eapply declared_and_asserted_ext; [| |exact Hd]; by destruct b').
  (* Block *)
  all: try (intros Hrun; step_outcome Hrun; destruct a0 as [a' st1];
            step_outcome Hrun; destruct a0 as [b' st2]; injection Hrun as <- <-;
            apply IHa in E as (new1 & Hfolds1 & Hd1);
            apply IHb in E0 as (new2 & Hfolds2 & Hd2);
            exists (new1 ++ new2); split; [by rewrite Hfolds2, Hfolds1, app_assoc|];
            eapply declared_and_asserted_both; [exact Hd1|exact Hd2|done|];
            by destruct a', b').
  (* IfThenElse *)
  all: try (intros Hrun; step_outcome Hrun; destruct a as [t' st1];
            apply IHt in E as (new1 & Hfolds1 & Hd1);
            destruct e as [e0|];
            [step_outcome Hrun; destruct a as [e' st2]; injection Hrun as <- <-;
             apply IHe in E as (new2 & Hfolds2 & Hd2);
             exists (new1 ++ new2); split; [by rewrite Hfolds2, Hfolds1, app_assoc|];
             eapply declared_and_asserted_both; [exact Hd1|exact Hd2|done|];
             by destruct t', e'
            |cbn [obind] in Hrun; injection Hrun as <- <-;
             exists new1; split; [done|];
             eapply declared_and_asserted_ext; [| |exact Hd1];
             [simpl; by rewrite app_nil_r|destruct t'; simpl; by rewrite app_nil_r]]).
  (* For *)
  by apply visit_For_declared_folds.
Qed.
End DeclaredAndAsserted.

(** In the mode that honours declared factors only the planner never
    looks at the classification of monotonicity: with any other
    classification it is the same function. *)
Lemma attempt_without_monotonicity (H : Analyses) (m : Expr → string → Monotonic)
    (func : Function) (s : Stmt) (st : PlannerState) :
  AttemptStorageFoldingOfFunction (H := with_is_monotonic m H) func true s st
  = AttemptStorageFoldingOfFunction (H := H) func true s st.
Proof. reflexivity. Qed.


